(** * Distance Vector with Poisoned Reverse (PoisonedReverse.py)

    A shallow embedding of the [Router] class and of the round loop
    [distance_vector] of [src/PoisonedReverse.py], and the properties of
    the repository's specification stated over it.

    Python dictionaries keep their insertion order, and that order decides
    which destination a loop visits first (hence which exception is raised
    first), so a dictionary is an association list: [dict_set] overwrites
    the value of a present key in place and appends an absent key at the
    end, [dict_get] returns the first binding.  Exceptions are the error
    side of [result].  Costs are Python integers or [float('inf')]. *)

From Stdlib Require Import ZArith List String Bool Lia OrderedTypeEx
  DecimalString.
Import ListNotations.
Open Scope string_scope.
Open Scope Z_scope.
Open Scope list_scope.

(** ** Exceptions and the error monad *)

Inductive pyerr : Type :=
| KeyError (k : string)
| TypeError
| ValueError
| OverflowError.

Inductive result (A : Type) : Type :=
| Ok (a : A)
| Raise (e : pyerr).
Arguments Ok {A} a.
Arguments Raise {A} e.

Definition bind {A B : Type} (m : result A) (f : A -> result B) : result B :=
  match m with
  | Ok a => f a
  | Raise e => Raise e
  end.

Notation "x <- m ;; k" := (bind m (fun x => k))
  (at level 61, m at next level, right associativity).
Notation "' p <- m ;; k" := (bind m (fun x => match x with p => k end))
  (at level 61, p pattern, m at next level, right associativity).

(** ** Dictionaries *)

Definition dict (V : Type) : Type := list (string * V).

Section Dict.
Context {V : Type}.

Fixpoint dict_get (d : dict V) (k : string) : option V :=
  match d with
  | [] => None
  | (k', v) :: t => if String.eqb k' k then Some v else dict_get t k
  end.

Fixpoint dict_set (d : dict V) (k : string) (v : V) : dict V :=
  match d with
  | [] => [(k, v)]
  | (k', v') :: t =>
      if String.eqb k' k then (k', v) :: t else (k', v') :: dict_set t k v
  end.

Definition dict_keys (d : dict V) : list string := map fst d.
Definition dict_values (d : dict V) : list V := map snd d.

(** [d[k]] as an expression: [KeyError] when the key is absent. *)
Definition getitem (d : dict V) (k : string) : result V :=
  match dict_get d k with
  | Some v => Ok v
  | None => Raise (KeyError k)
  end.

Fixpoint dict_remove (d : dict V) (k : string) : dict V :=
  match d with
  | [] => []
  | (k', v) :: t => if String.eqb k' k then t else (k', v) :: dict_remove t k
  end.

(** [del d[k]]: [KeyError] when the key is absent. *)
Definition delitem (d : dict V) (k : string) : result (dict V) :=
  match dict_get d k with
  | Some _ => Ok (dict_remove d k)
  | None => Raise (KeyError k)
  end.
End Dict.

(** ** Costs: a Python [int] or [INF = float('inf')] *)

Inductive cost : Type :=
| Fin (z : Z)
| Inf.

Definition cost_ltb (a b : cost) : bool :=
  match a, b with
  | Fin x, Fin y => x <? y
  | Fin _, Inf => true
  | Inf, _ => false
  end.

Definition cost_eqb (a b : cost) : bool :=
  match a, b with
  | Fin x, Fin y => x =? y
  | Inf, Inf => true
  | _, _ => false
  end.

(** [a <= b] on costs, as "not [b < a]". *)
Definition cost_le (a b : cost) : Prop := cost_ltb b a = false.

(** An [int] added to a [float] is first converted to a [float]; the
    conversion raises [OverflowError] from [2^1024 - 2^970] on (the first
    integer that rounds to [2^1024]). *)
Definition float_ok (z : Z) : bool := Z.abs z <? 2 ^ 1024 - 2 ^ 970.

(** What an advertised vector holds under a key: a cost when the vector is
    a distance vector, a dictionary when it is a dictionary of them. *)
Inductive pyval : Type :=
| PCost (c : cost)
| PDict (d : dict cost).

(** [c + v] for an [int] [c]. *)
Definition py_add (c : Z) (v : pyval) : result cost :=
  match v with
  | PCost (Fin z) => Ok (Fin (c + z))
  | PCost Inf => if float_ok c then Ok Inf else Raise OverflowError
  | PDict _ => Raise TypeError
  end.

(** [min(l)] for the order [ltb]: the first smallest element, [ValueError]
    on an empty list.  Costs compare with [cost_ltb]; names compare by code
    point, which on UTF-8 bytes is [String.ltb]. *)
Section Min.
Context {A : Type} (ltb : A -> A -> bool).

Fixpoint min_from (m : A) (l : list A) : A :=
  match l with
  | [] => m
  | x :: t => min_from (if ltb x m then x else m) t
  end.

Definition py_min (l : list A) : result A :=
  match l with
  | [] => Raise ValueError
  | x :: t => Ok (min_from x t)
  end.
End Min.

(** ** The Router class *)

Record Router : Type := mkRouter {
  name : string;
  neighbors : dict Z;
  dis_vec : dict cost;
  next_hop : dict (option string);
  vec_table : dict (dict cost)
}.

(** [Router(name)] *)
Definition new_router (n : string) : Router := mkRouter n [] [] [] [].

Definition set_dis_vec (self : Router) (k : string) (c : cost) : Router :=
  mkRouter (name self) (neighbors self) (dict_set (dis_vec self) k c)
           (next_hop self) (vec_table self).

Definition set_next_hop (self : Router) (k : string) (h : option string)
  : Router :=
  mkRouter (name self) (neighbors self) (dis_vec self)
           (dict_set (next_hop self) k h) (vec_table self).

Definition set_vec_table (self : Router) (k : string) (row : dict cost)
  : Router :=
  mkRouter (name self) (neighbors self) (dis_vec self) (next_hop self)
           (dict_set (vec_table self) k row).

Definition set_neighbor (self : Router) (k : string) (c : Z) : Router :=
  mkRouter (name self) (dict_set (neighbors self) k c) (dis_vec self)
           (next_hop self) (vec_table self).

Definition with_neighbors (self : Router) (nbrs : dict Z) : Router :=
  mkRouter (name self) nbrs (dis_vec self) (next_hop self) (vec_table self).

(** *** init_net *)

(** Body of the first loop (lines 29-41). *)
Definition init_entry (self : Router) (node : string) : Router :=
  if String.eqb node (name self) then
    set_next_hop (set_dis_vec self node (Fin 0)) node (Some (name self))
  else
    match dict_get (neighbors self) node with
    | Some c =>
        set_next_hop (set_dis_vec self node (Fin c)) node (Some (name self))
    | None => set_next_hop (set_dis_vec self node Inf) node None
    end.

(** Inner loop of the second loop (lines 46-50), over the keys [ns]. *)
Fixpoint init_row (nbrs : dict Z) (node : string) (ns : list string)
         (row : dict cost) : result (dict cost) :=
  match ns with
  | [] => Ok row
  | n :: t =>
      if String.eqb n node then
        c <- getitem nbrs n ;;
        init_row nbrs node t (dict_set row n (Fin c))
      else init_row nbrs node t (dict_set row n Inf)
  end.

(** The second loop (lines 44-50). *)
Fixpoint init_table (self : Router) (routers : list string) : result Router :=
  match routers with
  | [] => Ok self
  | node :: t =>
      row <- init_row (neighbors self) node (dict_keys (neighbors self)) [] ;;
      init_table (set_vec_table self node row) t
  end.

Definition init_net (self : Router) (routers : list string) : result Router :=
  init_table (fold_left init_entry routers self) routers.

(** *** poisoned_reverse *)

(** Body of the loop (lines 58-64); [target_neighbor] is [None] or a name. *)
Definition poison_entry (self : Router) (target_neighbor : option string)
           (dv : dict cost) (dest : string) : result (dict cost) :=
  match target_neighbor with
  | None =>
      c <- getitem (dis_vec self) dest ;;
      Ok (dict_set dv dest c)
  | Some tn =>
      h <- getitem (next_hop self) dest ;;
      let to_target :=
        match h with Some x => String.eqb x tn | None => false end in
      if to_target && negb (String.eqb dest tn) then Ok (dict_set dv dest Inf)
      else
        c <- getitem (dis_vec self) dest ;;
        Ok (dict_set dv dest c)
  end.

Fixpoint poison_loop (self : Router) (target_neighbor : option string)
         (dests : list string) (dv : dict cost) : result (dict cost) :=
  match dests with
  | [] => Ok dv
  | dest :: t =>
      dv' <- poison_entry self target_neighbor dv dest ;;
      poison_loop self target_neighbor t dv'
  end.

Definition poisoned_reverse (self : Router) (target_neighbor : option string)
  : result (dict cost) :=
  poison_loop self target_neighbor (dict_keys (dis_vec self)) [].

(** *** update_net *)

(** Names of [row] whose cost equals [m] (the generator of line 90). *)
Definition hops_at (row : dict cost) (m : cost) : list string :=
  dict_keys (filter (fun hc => cost_eqb (snd hc) m) row).

(** Body of the loop (lines 75-91) on the pair (router, [updated]). *)
Definition update_entry (neighbor : string) (neighbor_dv : dict pyval)
           (st : Router * bool) (dest : string) : result (Router * bool) :=
  let (self, updated) := st in
  if String.eqb dest (name self) then Ok st
  else
    c <- getitem (neighbors self) neighbor ;;
    a <- getitem neighbor_dv dest ;;
    new_cost <- py_add c a ;;
    row <- getitem (vec_table self) dest ;;
    old <- getitem row neighbor ;;
    let st1 :=
      if cost_ltb new_cost old then
        (set_vec_table self dest (dict_set row neighbor new_cost), true)
      else (self, updated) in
    let (self1, updated1) := st1 in
    row1 <- getitem (vec_table self1) dest ;;
    min_cost <- py_min cost_ltb (dict_values row1) ;;
    cur <- getitem (dis_vec self1) dest ;;
    if cost_ltb min_cost cur then
      hop <- py_min String.ltb (hops_at row1 min_cost) ;;
      Ok (set_next_hop (set_dis_vec self1 dest min_cost) dest (Some hop), true)
    else Ok (self1, updated1).

Fixpoint update_loop (neighbor : string) (neighbor_dv : dict pyval)
         (dests : list string) (st : Router * bool) : result (Router * bool) :=
  match dests with
  | [] => Ok st
  | dest :: t =>
      st' <- update_entry neighbor neighbor_dv st dest ;;
      update_loop neighbor neighbor_dv t st'
  end.

Definition update_net (self : Router) (neighbor : string)
           (neighbor_dv : dict pyval) : result (Router * bool) :=
  update_loop neighbor neighbor_dv (dict_keys (dis_vec self)) (self, false).

(** ** The tables a phase prints (lines 94-138) *)

(** The number of decimal digits of [abs(z)]. *)
Definition int_digits (z : Z) : nat :=
  String.length (NilZero.string_of_uint (N.to_uint (Z.abs_N z))).

(** The default of [sys.int_max_str_digits]: CPython refuses to convert an
    [int] of more digits to [str]. *)
Definition int_max_str_digits : nat := 4300.

(** [str(z)] and [repr(z)] for an [int]: [ValueError] beyond the limit. *)
Definition str_int (z : Z) : result string :=
  if Nat.leb (int_digits z) int_max_str_digits
  then Ok (NilZero.string_of_int (Z.to_int z))
  else Raise ValueError.

(** Line 121: [str(cost) if cost != INF else "INF"]. *)
Definition str_cost (c : cost) : result string :=
  match c with
  | Fin z => str_int z
  | Inf => Ok "INF"
  end.

(** [sorted(l)] on names, as a stable insertion sort. *)
Fixpoint insert_sorted (x : string) (l : list string) : list string :=
  match l with
  | [] => [x]
  | y :: t => if String.ltb y x then y :: insert_sorted x t else x :: y :: t
  end.

Definition py_sorted (l : list string) : list string :=
  fold_right insert_sorted [] l.

(** *** output_distance_table *)

(** Lines 106-109. *)
Definition header_loop (self : Router) (srouters : list string)
           (header : string) : string :=
  fold_left (fun h via =>
               if String.eqb via (name self) then h
               else (h ++ "  " ++ via)%string)
            srouters header.

(** Lines 117-121 for one destination. *)
Fixpoint row_loop (self : Router) (dest : string) (srouters : list string)
         (row : list string) : result (list string) :=
  match srouters with
  | [] => Ok row
  | i :: t =>
      if String.eqb i (name self) then row_loop self dest t row
      else
        tab <- getitem (vec_table self) dest ;;
        cell <- str_cost (match dict_get tab i with
                          | Some c => c
                          | None => Inf
                          end) ;;
        row_loop self dest t (row ++ [cell])
  end.

(** Lines 113-122; [srouters] is the whole sorted list for the columns. *)
Fixpoint table_loop (self : Router) (dests srouters : list string)
         (dis_table : list string) : result (list string) :=
  match dests with
  | [] => Ok dis_table
  | dest :: t =>
      if String.eqb dest (name self) then table_loop self t srouters dis_table
      else
        row <- row_loop self dest srouters [dest] ;;
        table_loop self t srouters (dis_table ++ [String.concat " " row])
  end.

(** [routers] is iterated as a dictionary: its keys. *)
Definition output_distance_table (self : Router) (routers : list string)
  : result (list string) :=
  let srouters := py_sorted routers in
  table_loop self srouters srouters [header_loop self srouters ""].

(** *** output_routing_table *)

Section RoutingTable.
(** [repr] of a [str], as Python prints it inside a tuple. *)
Variable py_repr : string -> string.

Definition repr_hop (h : option string) : string :=
  match h with
  | Some s => py_repr s
  | None => "None"
  end.

(** Lines 133-137.  The tuple of line 137 is built first (the lookup in
    [next_hop]), then formatted (the [repr] of the cost). *)
Fixpoint routing_loop (self : Router) (dests : list string)
         (routing_table : list string) : result (list string) :=
  match dests with
  | [] => Ok routing_table
  | dest :: t =>
      c <- getitem (dis_vec self) dest ;;
      match c with
      | Inf => routing_loop self t (routing_table ++ [dest ++ ", INF, INF"]%string)
      | Fin z =>
          h <- getitem (next_hop self) dest ;;
          s <- str_int z ;;
          routing_loop self t
            (routing_table ++
             [dest ++ ", (" ++ repr_hop h ++ ", " ++ s ++ ")"]%string)
      end
  end.

Definition output_routing_table (self : Router) : result (list string) :=
  routing_loop self (py_sorted (dict_keys (dis_vec self))) [].
End RoutingTable.

(** ** The Convergence Engine: distance_vector *)

(** [for router in routers.values(): router.init_net(routers)] *)
Fixpoint init_each (names : list string) (rs : dict Router)
  : result (dict Router) :=
  match rs with
  | [] => Ok []
  | (k, r) :: t =>
      r' <- init_net r names ;;
      t' <- init_each names t ;;
      Ok ((k, r') :: t')
  end.

Definition init_all (routers : dict Router) : result (dict Router) :=
  init_each (dict_keys routers) routers.

(** Lines 162-163: the exports of one router, one per neighbor. *)
Fixpoint export_row (r : Router) (targets : list string)
         (row : dict (dict cost)) : result (dict (dict cost)) :=
  match targets with
  | [] => Ok row
  | n :: t =>
      dv <- poisoned_reverse r (Some n) ;;
      export_row r t (dict_set row n dv)
  end.

(** Lines 159-163: [dis_vec_update[i][neighbor]]. *)
Fixpoint export_all (routers : dict Router) (ks : list string)
         (dis_vec_update : dict (dict (dict cost)))
  : result (dict (dict (dict cost))) :=
  match ks with
  | [] => Ok dis_vec_update
  | i :: t =>
      r <- getitem routers i ;;
      row <- export_row r (dict_keys (neighbors r)) [] ;;
      export_all routers t (dict_set dis_vec_update i row)
  end.

(** The second argument of the call on line 166: [dis_vec_update[neighbor]],
    whose values are the dictionaries stored on line 163. *)
Definition merge_argument (dis_vec_update : dict (dict (dict cost)))
           (neighbor : string) : result (dict pyval) :=
  adv <- getitem dis_vec_update neighbor ;;
  Ok (map (fun kv => (fst kv, PDict (snd kv))) adv).

(** Lines 165-168 for one router; [convergence] is threaded through. *)
Fixpoint merge_neighbors (dis_vec_update : dict (dict (dict cost)))
         (router : Router) (ns : list string) (convergence : bool)
  : result (Router * bool) :=
  match ns with
  | [] => Ok (router, convergence)
  | neighbor :: t =>
      arg <- merge_argument dis_vec_update neighbor ;;
      ' (router', updated) <- update_net router neighbor arg ;;
      merge_neighbors dis_vec_update router' t
                      (if updated then false else convergence)
  end.

(** Lines 164-168. *)
Fixpoint merge_all (dis_vec_update : dict (dict (dict cost)))
         (rs : dict Router) (convergence : bool)
  : result (dict Router * bool) :=
  match rs with
  | [] => Ok ([], convergence)
  | (k, r) :: t =>
      ' (r', c1) <- merge_neighbors dis_vec_update r
                                    (dict_keys (neighbors r)) convergence ;;
      ' (t', c2) <- merge_all dis_vec_update t c1 ;;
      Ok ((k, r') :: t', c2)
  end.

(** Lines 151-155: the distance table of every router, in the order of
    the names; what is printed for each router is returned. *)
Fixpoint distance_tables (routers : dict Router) (names : list string)
         (printed : list (string * list string))
  : result (list (string * list string)) :=
  match names with
  | [] => Ok printed
  | i :: t =>
      r <- getitem routers i ;;
      table <- output_distance_table r (dict_keys routers) ;;
      distance_tables routers t (printed ++ [(i, table)])
  end.

(** One iteration of the [while True] loop (lines 150-168): the tables are
    printed, then the vectors exported and merged; the new routers and the
    [convergence] flag. *)
Definition round (routers : dict Router) : result (dict Router * bool) :=
  printed <- distance_tables routers (py_sorted (dict_keys routers)) [] ;;
  dis_vec_update <- export_all routers (dict_keys routers) [] ;;
  merge_all dis_vec_update routers true.

(** How a phase ends: the loop breaks at round [t], an exception escapes,
    or the fuel of the model runs out. *)
Inductive outcome : Type :=
| Converged (routers : dict Router) (t : nat)
| Raised (e : pyerr)
| OutOfFuel.

Fixpoint rounds (fuel : nat) (routers : dict Router) (t : nat) : outcome :=
  match fuel with
  | O => OutOfFuel
  | S fuel' =>
      match round routers with
      | Raise e => Raised e
      | Ok (routers', true) => Converged routers' t
      | Ok (routers', false) => rounds fuel' routers' (S t)
      end
  end.

(** Lines 144-171: the initialization of every router, then the loop.  The
    routing tables of lines 173-179 are printed once the loop has broken. *)
Definition distance_vector (routers : dict Router) (fuel : nat) : outcome :=
  match init_all routers with
  | Raise e => Raised e
  | Ok routers' => rounds fuel routers' 0
  end.

(** ** Building a network as main does (lines 208-223) *)

Definition declare (names : list string) : dict Router :=
  fold_left (fun rs n => dict_set rs n (new_router n)) names [].

Definition add_link (routers : dict Router) (l : string * string * Z)
  : result (dict Router) :=
  let '(src, dest, c) := l in
  a <- getitem routers src ;;
  let routers1 := dict_set routers src (set_neighbor a dest c) in
  b <- getitem routers1 dest ;;
  Ok (dict_set routers1 dest (set_neighbor b src c)).

Fixpoint add_links (routers : dict Router) (ls : list (string * string * Z))
  : result (dict Router) :=
  match ls with
  | [] => Ok routers
  | l :: t => routers' <- add_link routers l ;; add_links routers' t
  end.

Definition network (names : list string) (ls : list (string * string * Z))
  : result (dict Router) :=
  add_links (declare names) ls.

(** One line of the UPDATE batch (lines 227-235): cost [-1] deletes the
    link at both ends, any other cost sets it. *)
Definition update_link (routers : dict Router) (l : string * string * Z)
  : result (dict Router) :=
  let '(src, dest, c) := l in
  if c =? -1 then
    a <- getitem routers src ;;
    na <- delitem (neighbors a) dest ;;
    let routers1 := dict_set routers src (with_neighbors a na) in
    b <- getitem routers1 dest ;;
    nb <- delitem (neighbors b) src ;;
    Ok (dict_set routers1 dest (with_neighbors b nb))
  else add_link routers l.

(** The states of a [Router] object in a run: created, its links set or
    deleted between phases, initialized, merged. *)
Inductive program_state : Router -> Prop :=
| state_new (n : string) : program_state (new_router n)
| state_link (r : Router) (k : string) (c : Z) :
    program_state r -> program_state (set_neighbor r k c)
| state_unlink (r : Router) (k : string) (nbrs : dict Z) :
    program_state r -> delitem (neighbors r) k = Ok nbrs ->
    program_state (with_neighbors r nbrs)
| state_init (r : Router) (routers : list string) (r' : Router) :
    program_state r -> init_net r routers = Ok r' -> program_state r'
| state_merge (r : Router) (n : string) (dv : dict pyval) (r' : Router)
              (b : bool) :
    program_state r -> update_net r n dv = Ok (r', b) -> program_state r'.

(** * The vocabulary of the properties *)

(** ** init_net and poisoned_reverse *)

(** The values the first loop of [init_net] stores for a destination. *)
Definition init_cost (self : Router) (d : string) : cost :=
  if String.eqb d (name self) then Fin 0
  else match dict_get (neighbors self) d with
       | Some c => Fin c
       | None => Inf
       end.

Definition init_hop (self : Router) (d : string) : option string :=
  if String.eqb d (name self) then Some (name self)
  else match dict_get (neighbors self) d with
       | Some _ => Some (name self)
       | None => None
       end.

(** What the second loop stores in the row of destination [node]. *)
Definition init_row_spec (nbrs : dict Z) (node : string) (row : dict cost)
  : Prop :=
  NoDup (dict_keys row) /\
  (forall n c, dict_get nbrs n = Some c ->
     dict_get row n = Some (if String.eqb n node then Fin c else Inf)) /\
  (forall n, dict_get nbrs n = None -> dict_get row n = None).

(** The test of lines 59-61 for a given target. *)
Definition poisoned (self : Router) (tn dest : string) : bool :=
  match dict_get (next_hop self) dest with
  | Some (Some x) => String.eqb x tn && negb (String.eqb dest tn)
  | _ => false
  end.

(** ** One visit of the loop of update_net *)

(** The least cost of a row, infinite for an empty row; on a row with an
    entry it is what [min(row.values())] returns. *)
Definition row_min (row : dict cost) : cost :=
  min_from cost_ltb Inf (dict_values row).

(** The row of a destination after line 82. *)
Definition merged_row (row : dict cost) (n : string) (old new_cost : cost)
  : dict cost :=
  if cost_ltb new_cost old then dict_set row n new_cost else row.

(** A visit of lines 78-91 that returns, at a destination other than the
    router, with everything it read and wrote. *)
Inductive visit (n : string) (dv : dict pyval) (s : Router) (u : bool)
          (d : string) (s' : Router) (u' : bool) : Prop :=
| Visit (c : Z) (a : pyval) (new_cost : cost) (row : dict cost)
        (old min_cost cur : cost)
    (Hc : dict_get (neighbors s) n = Some c)
    (Ha : dict_get dv d = Some a)
    (Hadd : py_add c a = Ok new_cost)
    (Hrow : dict_get (vec_table s) d = Some row)
    (Hold : dict_get row n = Some old)
    (Hmin : py_min cost_ltb (dict_values (merged_row row n old new_cost))
            = Ok min_cost)
    (Hcur : dict_get (dis_vec s) d = Some cur)
    (Hname : name s' = name s)
    (Hnbrs : neighbors s' = neighbors s)
    (Htab : vec_table s' =
            if cost_ltb new_cost old
            then dict_set (vec_table s) d (merged_row row n old new_cost)
            else vec_table s)
    (Hres : if cost_ltb min_cost cur
            then exists hop,
                py_min String.ltb
                       (hops_at (merged_row row n old new_cost) min_cost)
                = Ok hop /\
                dis_vec s' = dict_set (dis_vec s) d min_cost /\
                next_hop s' = dict_set (next_hop s) d (Some hop) /\
                u' = true
            else dis_vec s' = dis_vec s /\ next_hop s' = next_hop s /\
                 u' = if cost_ltb new_cost old then true else u).

(** ** Comparing two states of a router *)

(** "Unchanged or strictly lower". *)
Definition non_increasing (c c' : cost) : Prop :=
  c' = c \/ cost_ltb c' c = true.

Definition tables_non_increasing (s s' : Router) : Prop :=
  (forall d row m c,
      dict_get (vec_table s) d = Some row -> dict_get row m = Some c ->
      exists row' c',
        dict_get (vec_table s') d = Some row' /\
        dict_get row' m = Some c' /\ non_increasing c c') /\
  (forall d c,
      dict_get (dis_vec s) d = Some c ->
      exists c', dict_get (dis_vec s') d = Some c' /\ non_increasing c c').

(** The three entries a router keeps for destination [d]. *)
Definition same_at (d : string) (s s' : Router) : Prop :=
  dict_get (dis_vec s') d = dict_get (dis_vec s) d /\
  dict_get (next_hop s') d = dict_get (next_hop s) d /\
  dict_get (vec_table s') d = dict_get (vec_table s) d.

(** Name, links and the keys of [dis_vec]. *)
Definition same_shape (s s' : Router) : Prop :=
  name s' = name s /\ neighbors s' = neighbors s /\
  dict_keys (dis_vec s') = dict_keys (dis_vec s).

(** ** The states of a phase *)

(** The states a router goes through in a phase over the routers named
    [routers]: [init_net] on a router whose [dis_vec] is a dictionary (its
    keys are distinct), then merges that return. *)
Inductive phase_state (routers : list string) : Router -> Prop :=
| phase_init (r0 r : Router) :
    NoDup (dict_keys (dis_vec r0)) ->
    init_net r0 routers = Ok r ->
    phase_state routers r
| phase_merge (r : Router) (n : string) (dv : dict pyval) (r' : Router)
              (b : bool) :
    phase_state routers r ->
    update_net r n dv = Ok (r', b) ->
    phase_state routers r'.

(** [dis_vec[d]] is the least cost of the row [vec_table[d]]. *)
Definition row_consistent (r : Router) (d : string) : Prop :=
  exists c row,
    dict_get (dis_vec r) d = Some c /\
    dict_get (vec_table r) d = Some row /\
    c = row_min row /\ NoDup (dict_keys row).

Definition phase_inv (routers : list string) (r : Router) : Prop :=
  NoDup (dict_keys (dis_vec r)) /\
  forall d, In d routers -> d <> name r -> row_consistent r d.

(** Every destination of [dis_vec] has a next hop recorded. *)
Definition hops_recorded (r : Router) : Prop :=
  forall d, In d (dict_keys (dis_vec r)) -> In d (dict_keys (next_hop r)).

(** C6 as the specification states it, at one destination: the cost is
    the least of the row [vec_table[d]] and the next hop is the first name,
    in the order of names, that holds it. *)
Definition consistent_at (r : Router) (d : string) : Prop :=
  exists c row h,
    dict_get (dis_vec r) d = Some c /\
    dict_get (vec_table r) d = Some row /\
    c = row_min row /\
    dict_get (next_hop r) d = Some (Some h) /\
    dict_get row h = Some c /\
    forall k, dict_get row k = Some c -> String.ltb k h = false.

(** C6 as the specification states it: every destination of [dis_vec] is
    consistent. *)
Definition tables_consistent (r : Router) : Prop :=
  forall d, In d (dict_keys (dis_vec r)) -> consistent_at r d.

(** ** The round loop *)

(** A vector whose values are all dictionaries. *)
Definition all_dicts (arg : dict pyval) : Prop :=
  forall k v, dict_get arg k = Some v -> exists e, v = PDict e.

(** A router on which the merges of line 166 all return: it has no link,
    or its [dis_vec] has no other destination than itself. *)
Definition quiet (r : Router) : Prop :=
  neighbors r = [] \/ forall d, In d (dict_keys (dis_vec r)) -> d = name r.

(** ** Networks and their link-cost graph *)

(** The validity of a network description: the routers form a dictionary
    keyed by their names, every link ends at a declared router and has a
    non-negative cost. *)
Fixpoint distinct (l : list string) : bool :=
  match l with
  | [] => true
  | x :: t => negb (existsb (String.eqb x) t) && distinct t
  end.

Definition valid_router (names : list string) (kr : string * Router) : bool :=
  String.eqb (name (snd kr)) (fst kr) &&
  forallb (fun nc => existsb (String.eqb (fst nc)) names && (0 <=? snd nc))
          (neighbors (snd kr)).

Definition valid_network (rs : dict Router) : bool :=
  distinct (dict_keys rs) && forallb (valid_router (dict_keys rs)) rs.

(** The link-cost graph: the link from [u] to [v] and its cost. *)
Definition link (rs : dict Router) (u v : string) (c : Z) : Prop :=
  exists r, dict_get rs u = Some r /\ dict_get (neighbors r) v = Some c.

(** The walks of the graph with their total cost, and the reference they
    give for a shortest-path cost: the least cost of a walk, infinite when
    there is no walk. *)
Inductive walk (rs : dict Router) : string -> string -> Z -> Prop :=
| walk_here (u : string) : walk rs u u 0
| walk_step (u v w : string) (c k : Z) :
    link rs u v c -> walk rs v w k -> walk rs u w (c + k).


(** ** Concrete networks and routers *)

(** Two routers and one link, as main builds them from the input
    [A], [B], [START], [A B 1]. *)
Definition two_routers : dict Router :=
  [("A", mkRouter "A" [("B", 1)] [] [] []);
   ("B", mkRouter "B" [("A", 1)] [] [] [])].

(** Three routers on a line through [C]: [A C 1], [B C 1]. *)
Definition line_through_c : dict Router :=
  [("A", mkRouter "A" [("C", 1)] [] [] []);
   ("B", mkRouter "B" [("C", 1)] [] [] []);
   ("C", mkRouter "C" [("A", 1); ("B", 1)] [] [] [])].

(** Two routers and no link. *)
Definition no_links : dict Router :=
  [("A", new_router "A"); ("B", new_router "B")].

(** The routers of [two_routers] after [init_net]. *)
Definition two_routers_a : Router :=
  mkRouter "A" [("B", 1)] [("A", Fin 0); ("B", Fin 1)]
           [("A", Some "A"); ("B", Some "A")]
           [("A", [("B", Inf)]); ("B", [("B", Fin 1)])].

Definition two_routers_b : Router :=
  mkRouter "B" [("A", 1)] [("A", Fin 1); ("B", Fin 0)]
           [("A", Some "B"); ("B", Some "B")]
           [("A", [("A", Fin 1)]); ("B", [("A", Inf)])].

(** Router [A] with the links [A C 1] and [A B 1], declared in that order,
    among the routers [A], [B], [C], [D]. *)
Definition tie_names : list string := ["A"; "B"; "C"; "D"].

Definition tie_router : Router := mkRouter "A" [("C", 1); ("B", 1)] [] [] [].

(** Vectors in which [C], then [B], advertise [D] at cost 4. *)
Definition tie_from_c : dict pyval :=
  [("A", PCost (Fin 1)); ("B", PCost Inf); ("C", PCost (Fin 0));
   ("D", PCost (Fin 4))].

Definition tie_from_b : dict pyval :=
  [("A", PCost (Fin 1)); ("B", PCost (Fin 0)); ("C", PCost Inf);
   ("D", PCost (Fin 4))].

(** The router after [init_net], after the merge for [C], and after the
    merge for [B]. *)
Definition tie_init : Router :=
  mkRouter "A" [("C", 1); ("B", 1)]
           [("A", Fin 0); ("B", Fin 1); ("C", Fin 1); ("D", Inf)]
           [("A", Some "A"); ("B", Some "A"); ("C", Some "A"); ("D", None)]
           [("A", [("C", Inf); ("B", Inf)]);
            ("B", [("C", Inf); ("B", Fin 1)]);
            ("C", [("C", Fin 1); ("B", Inf)]);
            ("D", [("C", Inf); ("B", Inf)])].

Definition tie_mid : Router :=
  mkRouter "A" [("C", 1); ("B", 1)]
           [("A", Fin 0); ("B", Fin 1); ("C", Fin 1); ("D", Fin 5)]
           [("A", Some "A"); ("B", Some "A"); ("C", Some "A");
            ("D", Some "C")]
           [("A", [("C", Inf); ("B", Inf)]);
            ("B", [("C", Inf); ("B", Fin 1)]);
            ("C", [("C", Fin 1); ("B", Inf)]);
            ("D", [("C", Fin 5); ("B", Inf)])].

Definition tie_after : Router :=
  mkRouter "A" [("C", 1); ("B", 1)]
           [("A", Fin 0); ("B", Fin 1); ("C", Fin 1); ("D", Fin 5)]
           [("A", Some "A"); ("B", Some "A"); ("C", Some "A");
            ("D", Some "C")]
           [("A", [("C", Inf); ("B", Inf)]);
            ("B", [("C", Inf); ("B", Fin 1)]);
            ("C", [("C", Fin 1); ("B", Inf)]);
            ("D", [("C", Fin 5); ("B", Fin 5)])].

(** * Further vocabulary: merges, exports and the network *)

(** ** Entries of the routing state *)

(** [vec_table[d][m]], when both keys are there. *)
Definition table_entry (r : Router) (d m : string) : option cost :=
  match dict_get (vec_table r) d with
  | Some row => dict_get row m
  | None => None
  end.

(** An entry before and after: absent on both sides, or present on both
    sides and unchanged or strictly lower. *)
Definition lowered (o o' : option cost) : Prop :=
  match o, o' with
  | Some c, Some c' => non_increasing c c'
  | None, None => True
  | _, _ => False
  end.

(** [s'] has the entries of [s], none of them higher. *)
Definition tracks (s s' : Router) : Prop :=
  (forall d m, lowered (table_entry s d m) (table_entry s' d m)) /\
  (forall d, lowered (dict_get (dis_vec s) d) (dict_get (dis_vec s') d)).

(** Some entry of [s] is strictly lower in [s']. *)
Definition strictly_lower (s s' : Router) : Prop :=
  (exists d m c c',
      table_entry s d m = Some c /\ table_entry s' d m = Some c' /\
      cost_ltb c' c = true) \/
  (exists d c c',
      dict_get (dis_vec s) d = Some c /\ dict_get (dis_vec s') d = Some c' /\
      cost_ltb c' c = true).

(** A destination at which lines 78-91 read everything they need and write
    nothing: the candidate cost is not below the stored entry and the
    least cost of the row is not below [dis_vec[d]]. *)
Definition noop_at (n : string) (dv : dict pyval) (s : Router) (d : string)
  : Prop :=
  d = name s \/
  exists c a new_cost row old min_cost cur,
    dict_get (neighbors s) n = Some c /\
    dict_get dv d = Some a /\
    py_add c a = Ok new_cost /\
    dict_get (vec_table s) d = Some row /\
    dict_get row n = Some old /\
    cost_ltb new_cost old = false /\
    py_min cost_ltb (dict_values row) = Ok min_cost /\
    dict_get (dis_vec s) d = Some cur /\
    cost_ltb min_cost cur = false.

(** What lines 78-91 need at destination [d] to return: a link to the
    neighbor, a number under [d] in the vector (with a link cost that
    converts to a float when that number is infinite), and an entry for the
    neighbor in the row of [d]. *)
Definition mergeable (n : string) (dv : dict pyval) (r : Router) (d : string)
  : Prop :=
  exists c x e,
    dict_get (neighbors r) n = Some c /\
    dict_get dv d = Some (PCost x) /\
    (x = Inf -> float_ok c = true) /\
    table_entry r d n = Some e.

(** Two states of a router with the same name, links and keys: the same
    destinations in [dis_vec] and [vec_table], in the same order, and the
    same columns in every row. *)
Definition same_keys (s s' : Router) : Prop :=
  name s' = name s /\ neighbors s' = neighbors s /\
  dict_keys (dis_vec s') = dict_keys (dis_vec s) /\
  dict_keys (vec_table s') = dict_keys (vec_table s) /\
  forall d row,
    dict_get (vec_table s) d = Some row ->
    exists row', dict_get (vec_table s') d = Some row' /\
                 dict_keys row' = dict_keys row.

(** ** The links of a network *)

(** The UPDATE batch (lines 227-235). *)
Fixpoint update_links (routers : dict Router)
         (ls : list (string * string * Z)) : result (dict Router) :=
  match ls with
  | [] => Ok routers
  | l :: t => routers' <- update_link routers l ;; update_links routers' t
  end.

(** Every link has its reverse, at the same cost. *)
Definition symmetric (rs : dict Router) : Prop :=
  forall u v c, link rs u v c -> link rs v u c.

(** The cost of the link from [u] to [v], when there is one. *)
Definition link_cost (rs : dict Router) (u v : string) : option Z :=
  match dict_get rs u with
  | Some r => dict_get (neighbors r) v
  | None => None
  end.

(** The pair [(u, v)] is the pair [(s, d)] in one direction or the other. *)
Definition same_link (s d u v : string) : bool :=
  String.eqb s u && String.eqb d v || String.eqb d u && String.eqb s v.

(** The links of every router form a dictionary. *)
Definition links_distinct (rs : dict Router) : Prop :=
  forall k r, dict_get rs k = Some r -> NoDup (dict_keys (neighbors r)).

(** [r'] is [r] with other links: same name and same routing state, and
    links that still form a dictionary. *)
Definition relinked (r r' : Router) : Prop :=
  name r' = name r /\ dis_vec r' = dis_vec r /\ next_hop r' = next_hop r /\
  vec_table r' = vec_table r /\
  (NoDup (dict_keys (neighbors r)) -> NoDup (dict_keys (neighbors r'))).

(** A network as main holds it between phases: the routers and the links
    of each router form dictionaries, every router is stored under its
    name, and every link ends at a stored router. *)
Definition well_formed (rs : dict Router) : Prop :=
  NoDup (dict_keys rs) /\ links_distinct rs /\
  (forall k r, dict_get rs k = Some r -> name r = k) /\
  (forall u v c, link_cost rs u v = Some c -> In v (dict_keys rs)).

(** No link has a negative cost. *)
Definition costs_nonneg (rs : dict Router) : Prop :=
  forall u v c, link_cost rs u v = Some c -> 0 <= c.

(** ** The arithmetic of a merge *)

(** A link cost plus an advertised cost, and the lower of two costs. *)
Definition cost_plus (c : Z) (x : cost) : cost :=
  match x with
  | Fin z => Fin (c + z)
  | Inf => Inf
  end.

Definition cost_min (a b : cost) : cost := if cost_ltb b a then b else a.

(** A vector returned by [poisoned_reverse], as the argument [neighbor_dv]
    of [update_net]. *)
Definition as_vector (e : dict cost) : dict pyval :=
  map (fun kv => (fst kv, PCost (snd kv))) e.

(** ** The start of a phase *)

(** The row [init_net] builds for destination [node] (lines 45-50). *)
Definition init_row_of (nbrs : dict Z) (node : string) : dict cost :=
  match init_row nbrs node (dict_keys nbrs) [] with
  | Ok row => row
  | Raise _ => []
  end.

(** Two dictionaries with the same keys in the same order, and the same
    values under the keys that satisfy [P]. *)
Definition agree {V : Type} (P : string -> Prop) (m m' : dict V) : Prop :=
  Forall2 (fun a b => fst a = fst b /\ (P (fst a) -> snd a = snd b)) m m'.

(** A router whose routing state is made of dictionaries over the listed
    routers, with a next hop recorded for every destination. *)
Definition listed (routers : list string) (r : Router) : Prop :=
  hops_recorded r /\
  (NoDup (dict_keys (dis_vec r)) /\ NoDup (dict_keys (next_hop r)) /\
   NoDup (dict_keys (vec_table r))) /\
  (forall d, In d (dict_keys (dis_vec r)) -> In d routers) /\
  (forall d, In d (dict_keys (next_hop r)) -> In d routers) /\
  (forall d, In d (dict_keys (vec_table r)) -> In d routers).

(** The states reached from [r1] by merges that return. *)
Inductive merges_from (r1 : Router) : Router -> Prop :=
| merges_none : merges_from r1 r1
| merges_step (r : Router) (n : string) (dv : dict pyval) (r' : Router)
              (b : bool) :
    merges_from r1 r -> update_net r n dv = Ok (r', b) ->
    merges_from r1 r'.

(** ** Reading the input (lines 189-216) *)

(** The value of [separator] while the loop runs; ['END'] leaves it. *)
Inductive separator : Type :=
| SepNone
| SepStart
| SepUpdate.

(** [routers], [read_start] and [read_update]. *)
Record reading : Type := mkReading {
  rd_routers : dict Router;
  rd_start : list string;
  rd_update : list string
}.

(** The loop over the lines of the input, each as [input().strip()]
    returns it; the end of the list is [EOFError]. *)
Fixpoint read_lines (lines : list string) (sep : separator) (acc : reading)
  : reading :=
  match lines with
  | [] => acc
  | inputs :: rest =>
      if String.eqb inputs "" then read_lines rest sep acc
      else if String.eqb inputs "START" then read_lines rest SepStart acc
      else if String.eqb inputs "UPDATE" then read_lines rest SepUpdate acc
      else if String.eqb inputs "END" then acc
      else
        match sep with
        | SepNone =>
            read_lines rest sep
              (mkReading (dict_set (rd_routers acc) inputs (new_router inputs))
                         (rd_start acc) (rd_update acc))
        | SepStart =>
            read_lines rest sep
              (mkReading (rd_routers acc) (rd_start acc ++ [inputs])
                         (rd_update acc))
        | SepUpdate =>
            read_lines rest sep
              (mkReading (rd_routers acc) (rd_start acc)
                         (rd_update acc ++ [inputs]))
        end
  end.

Definition read_input (lines : list string) : reading :=
  read_lines lines SepNone (mkReading [] [] []).

(** A line that is neither empty nor one of the three separators. *)
Definition plain (l : string) : bool :=
  negb (String.eqb l "") && negb (String.eqb l "START") &&
  negb (String.eqb l "UPDATE") && negb (String.eqb l "END").

(** ** What the tables print *)

(** The destinations other than the router. *)
Definition others (self : Router) (l : list string) : list string :=
  filter (fun d => negb (String.eqb d (name self))) l.

(** A cost that [str] converts: [INF] is never converted. *)
Definition printable (c : cost) : bool :=
  match c with
  | Fin z => Nat.leb (int_digits z) int_max_str_digits
  | Inf => true
  end.

(** Every cost of [vec_table], and every cost of [dis_vec], converts. *)
Definition table_printable (r : Router) : bool :=
  forallb (fun row => forallb (fun kv => printable (snd kv)) (snd row))
          (vec_table r).

Definition vector_printable (r : Router) : bool :=
  forallb (fun kv => printable (snd kv)) (dis_vec r).

(** The row of [d] exists and its cells under [routers], other than the
    router's own, convert. *)
Definition prints_row (self : Router) (routers : list string) (d : string)
  : Prop :=
  exists tab,
    dict_get (vec_table self) d = Some tab /\
    forall via c, In via routers -> via <> name self ->
                  dict_get tab via = Some c -> printable c = true.


(** ** The neighbor [C] of the router [tie_router] *)

(** Router [C] with the links [C A 1] and [C D 4], after [init_net] over
    [tie_names], and after it merged the vector that [tie_after] exports
    to it. *)
Definition tie_peer : Router := mkRouter "C" [("A", 1); ("D", 4)] [] [] [].

Definition tie_peer_init : Router :=
  mkRouter "C" [("A", 1); ("D", 4)]
           [("A", Fin 1); ("B", Inf); ("C", Fin 0); ("D", Fin 4)]
           [("A", Some "C"); ("B", None); ("C", Some "C"); ("D", Some "C")]
           [("A", [("A", Fin 1); ("D", Inf)]);
            ("B", [("A", Inf); ("D", Inf)]);
            ("C", [("A", Inf); ("D", Inf)]);
            ("D", [("A", Inf); ("D", Fin 4)])].

Definition tie_peer_after : Router :=
  mkRouter "C" [("A", 1); ("D", 4)]
           [("A", Fin 1); ("B", Fin 2); ("C", Fin 0); ("D", Fin 4)]
           [("A", Some "C"); ("B", Some "A"); ("C", Some "C"); ("D", Some "C")]
           [("A", [("A", Fin 1); ("D", Inf)]);
            ("B", [("A", Fin 2); ("D", Inf)]);
            ("C", [("A", Inf); ("D", Inf)]);
            ("D", [("A", Inf); ("D", Fin 4)])].

(** What [tie_after] exports to [C]: the route to [D] goes through [C]. *)
Definition tie_export_c : dict cost :=
  [("A", Fin 0); ("B", Fin 1); ("C", Fin 1); ("D", Inf)].

(** [repr] of a name without quotes or backslashes. *)
Definition quoted (s : string) : string := ("'" ++ s ++ "'")%string.

(** * Properties *)

(** ** Dictionaries *)

Section DictFacts.
Context {V : Type}.
Implicit Types (d : dict V) (k : string) (v : V).

Lemma dict_get_set_eq d k v : dict_get (dict_set d k v) k = Some v.
Proof.
  induction d as [|[k' v'] t IH]; simpl.
  - now rewrite String.eqb_refl.
  - destruct (String.eqb k' k) eqn:E; simpl; rewrite E; auto.
Qed.

Lemma dict_get_set_neq d k k' v :
  k <> k' -> dict_get (dict_set d k v) k' = dict_get d k'.
Proof.
  intros Hne. induction d as [|[k0 v0] t IH]; simpl.
  - apply String.eqb_neq in Hne. now rewrite Hne.
  - destruct (String.eqb k0 k) eqn:E; simpl.
    + apply String.eqb_eq in E. subst k0.
      apply String.eqb_neq in Hne. now rewrite Hne.
    + now rewrite IH.
Qed.

Lemma dict_get_in_keys d k :
  In k (dict_keys d) <-> exists v, dict_get d k = Some v.
Proof.
  induction d as [|[k0 v0] t IH]; simpl.
  - split; [tauto | intros [v H]; discriminate].
  - destruct (String.eqb k0 k) eqn:E.
    + apply String.eqb_eq in E. split; eauto.
    + apply String.eqb_neq in E. rewrite IH. split.
      * intros [H | H]; [contradiction | exact H].
      * auto.
Qed.

Lemma dict_get_none_keys d k :
  dict_get d k = None <-> ~ In k (dict_keys d).
Proof.
  rewrite dict_get_in_keys. split.
  - intros H [v Hv]. congruence.
  - intros H. destruct (dict_get d k) eqn:E; eauto. exfalso; eauto.
Qed.

Lemma dict_keys_set_present d k v v0 :
  dict_get d k = Some v0 -> dict_keys (dict_set d k v) = dict_keys d.
Proof.
  induction d as [|[k' v'] t IH]; simpl; [discriminate|].
  destruct (String.eqb k' k) eqn:E; simpl; auto.
  intros H. now rewrite IH.
Qed.

Lemma dict_keys_set_absent d k v :
  dict_get d k = None -> dict_keys (dict_set d k v) = dict_keys d ++ [k].
Proof.
  induction d as [|[k' v'] t IH]; simpl; auto.
  destruct (String.eqb k' k) eqn:E; simpl; [discriminate|].
  intros H. now rewrite IH.
Qed.

Lemma dict_keys_set_nodup d k v :
  NoDup (dict_keys d) -> NoDup (dict_keys (dict_set d k v)).
Proof.
  intros Hnd. destruct (dict_get d k) eqn:E.
  - now rewrite (dict_keys_set_present _ _ _ _ E).
  - rewrite (dict_keys_set_absent _ _ _ E).
    apply NoDup_app; [exact Hnd | repeat constructor; simpl; tauto |].
    intros x Hx [<- | []]. apply dict_get_none_keys in E. contradiction.
Qed.

Lemma getitem_ok d k v : getitem d k = Ok v <-> dict_get d k = Some v.
Proof.
  unfold getitem. destruct (dict_get d k); split; congruence.
Qed.

Lemma dict_get_in d k v : dict_get d k = Some v -> In (k, v) d.
Proof.
  induction d as [|[k' v'] t IH]; simpl; [discriminate|].
  destruct (String.eqb k' k) eqn:E.
  - apply String.eqb_eq in E. intros [= ->]. left; congruence.
  - auto.
Qed.

Lemma dict_in_get d k v :
  NoDup (dict_keys d) -> In (k, v) d -> dict_get d k = Some v.
Proof.
  induction d as [|[k' v'] t IH]; simpl; [tauto|].
  intros Hnd [H | H].
  - injection H as -> ->. now rewrite String.eqb_refl.
  - inversion Hnd as [|? ? Hni Hnd']; subst.
    destruct (String.eqb k' k) eqn:E.
    + apply String.eqb_eq in E. subst k'. exfalso. apply Hni.
      change k with (fst (k, v)). now apply in_map.
    + auto.
Qed.
End DictFacts.

(** ** init_net *)

Lemma init_entry_frame (s : Router) (x : string) :
  name (init_entry s x) = name s /\
  neighbors (init_entry s x) = neighbors s /\
  vec_table (init_entry s x) = vec_table s.
Proof.
  unfold init_entry.
  destruct (String.eqb x (name s)); [|destruct (dict_get (neighbors s) x)];
    simpl; auto.
Qed.

Lemma init_entry_same (s : Router) (d : string) :
  dict_get (dis_vec (init_entry s d)) d = Some (init_cost s d) /\
  dict_get (next_hop (init_entry s d)) d = Some (init_hop s d).
Proof.
  unfold init_entry, init_cost, init_hop.
  destruct (String.eqb d (name s)); [|destruct (dict_get (neighbors s) d)];
    simpl; rewrite !dict_get_set_eq; auto.
Qed.

Lemma init_entry_other (s : Router) (x d : string) :
  x <> d ->
  dict_get (dis_vec (init_entry s x)) d = dict_get (dis_vec s) d /\
  dict_get (next_hop (init_entry s x)) d = dict_get (next_hop s) d.
Proof.
  intros Hne. unfold init_entry.
  destruct (String.eqb x (name s)); [|destruct (dict_get (neighbors s) x)];
    simpl; rewrite !dict_get_set_neq; auto.
Qed.

Lemma init_entry_nodup (s : Router) (x : string) :
  NoDup (dict_keys (dis_vec s)) -> NoDup (dict_keys (dis_vec (init_entry s x))).
Proof.
  intros H. unfold init_entry.
  destruct (String.eqb x (name s)); [|destruct (dict_get (neighbors s) x)];
    simpl; now apply dict_keys_set_nodup.
Qed.

Lemma init_values_frame (s s' : Router) (d : string) :
  name s' = name s -> neighbors s' = neighbors s ->
  init_cost s' d = init_cost s d /\ init_hop s' d = init_hop s d.
Proof.
  intros Hn Hb. unfold init_cost, init_hop. now rewrite Hn, Hb.
Qed.

Lemma init_entries_frame (l : list string) (s : Router) :
  name (fold_left init_entry l s) = name s /\
  neighbors (fold_left init_entry l s) = neighbors s /\
  vec_table (fold_left init_entry l s) = vec_table s.
Proof.
  revert s. induction l as [|x t IH]; intros s; simpl; auto.
  destruct (IH (init_entry s x)) as (-> & -> & ->). apply init_entry_frame.
Qed.

Lemma init_entries_nodup (l : list string) (s : Router) :
  NoDup (dict_keys (dis_vec s)) ->
  NoDup (dict_keys (dis_vec (fold_left init_entry l s))).
Proof.
  revert s. induction l as [|x t IH]; intros s H; simpl; auto.
  apply IH. now apply init_entry_nodup.
Qed.

Lemma init_entries_other (l : list string) (s : Router) (d : string) :
  ~ In d l ->
  dict_get (dis_vec (fold_left init_entry l s)) d = dict_get (dis_vec s) d /\
  dict_get (next_hop (fold_left init_entry l s)) d = dict_get (next_hop s) d.
Proof.
  revert s. induction l as [|x t IH]; intros s Hni; simpl; auto.
  simpl in Hni.
  destruct (IH (init_entry s x)) as [-> ->]; [tauto|].
  apply init_entry_other. tauto.
Qed.

Lemma init_entries_in (l : list string) (s : Router) (d : string) :
  In d l ->
  dict_get (dis_vec (fold_left init_entry l s)) d = Some (init_cost s d) /\
  dict_get (next_hop (fold_left init_entry l s)) d = Some (init_hop s d).
Proof.
  revert s. induction l as [|x t IH]; intros s Hin; simpl; [destruct Hin|].
  destruct (in_dec string_dec d t) as [Ht | Ht].
  - destruct (IH (init_entry s x) Ht) as [-> ->].
    destruct (init_entry_frame s x) as (Hn & Hb & _).
    destruct (init_values_frame s (init_entry s x) d Hn Hb) as [-> ->]. auto.
  - destruct Hin as [-> | Hin]; [|contradiction].
    destruct (init_entries_other t (init_entry s d) d Ht) as [-> ->].
    apply init_entry_same.
Qed.

Lemma init_row_total (nbrs : dict Z) (node : string) (ns : list string)
      (row : dict cost) :
  (forall n, In n ns -> In n (dict_keys nbrs)) ->
  NoDup (dict_keys row) ->
  exists row', init_row nbrs node ns row = Ok row' /\
    NoDup (dict_keys row') /\
    (forall n, In n ns ->
       exists c, dict_get nbrs n = Some c /\
         dict_get row' n = Some (if String.eqb n node then Fin c else Inf)) /\
    (forall n, ~ In n ns -> dict_get row' n = dict_get row n).
Proof.
  revert row. induction ns as [|x t IH]; intros row Hsub Hnd; simpl.
  - exists row. split; [reflexivity|]. split; [exact Hnd|].
    split; [intros n []|auto].
  - assert (Hx : exists c, dict_get nbrs x = Some c)
      by (apply dict_get_in_keys, Hsub; simpl; auto).
    destruct Hx as [cx Hcx].
    assert (Ht : forall n, In n t -> In n (dict_keys nbrs))
      by (intros n Hn; apply Hsub; simpl; auto).
    set (v := if String.eqb x node then Fin cx else Inf).
    assert (Hstep : (if String.eqb x node
                     then c <- getitem nbrs x ;;
                          init_row nbrs node t (dict_set row x (Fin c))
                     else init_row nbrs node t (dict_set row x Inf))
                    = init_row nbrs node t (dict_set row x v)).
    { unfold v, getitem. rewrite Hcx. now destruct (String.eqb x node). }
    rewrite Hstep.
    destruct (IH (dict_set row x v) Ht (dict_keys_set_nodup _ _ _ Hnd))
      as (row' & Hrow & Hnd' & Hin & Hout).
    exists row'. split; [exact Hrow|]. split; [exact Hnd'|]. split.
    + intros n Hn. destruct (in_dec string_dec n t) as [Hnt | Hnt]; auto.
      destruct Hn as [-> | Hn]; [|contradiction].
      exists cx. split; [exact Hcx|].
      rewrite (Hout _ Hnt). apply dict_get_set_eq.
    + intros n Hn. simpl in Hn. rewrite Hout by tauto.
      apply dict_get_set_neq. tauto.
Qed.

Lemma init_row_ok (nbrs : dict Z) (node : string) :
  exists row, init_row nbrs node (dict_keys nbrs) [] = Ok row /\
              init_row_spec nbrs node row.
Proof.
  destruct (init_row_total nbrs node (dict_keys nbrs) [] (fun n H => H)
                           (NoDup_nil _))
    as (row & Hrow & Hnd & Hin & Hout).
  exists row. split; [exact Hrow|]. split; [exact Hnd|]. split.
  - intros n c Hc.
    destruct (Hin n) as (c' & Hc' & Hget);
      [apply dict_get_in_keys; eauto|].
    rewrite Hc in Hc'. injection Hc' as <-. exact Hget.
  - intros n Hn. apply dict_get_none_keys in Hn. now rewrite Hout.
Qed.

Lemma init_table_total (routers : list string) (s : Router) :
  exists r, init_table s routers = Ok r /\
    name r = name s /\ neighbors r = neighbors s /\
    dis_vec r = dis_vec s /\ next_hop r = next_hop s /\
    (forall d, In d routers ->
       exists row, dict_get (vec_table r) d = Some row /\
                   init_row_spec (neighbors s) d row) /\
    (forall d, ~ In d routers ->
       dict_get (vec_table r) d = dict_get (vec_table s) d).
Proof.
  revert s. induction routers as [|x t IH]; intros s; simpl.
  - exists s. repeat split; auto. intros d [].
  - destruct (init_row_ok (neighbors s) x) as (row & -> & Hspec). simpl.
    destruct (IH (set_vec_table s x row))
      as (r & Hr & Hn & Hb & Hd & Hh & Hin & Hout).
    exists r. split; [exact Hr|]. simpl in *.
    repeat (split; [assumption|]). split.
    + intros d Hd'. destruct (in_dec string_dec d t) as [Hdt | Hdt]; auto.
      destruct Hd' as [-> | Hd']; [|contradiction].
      exists row. split; [|exact Hspec].
      rewrite (Hout _ Hdt). apply dict_get_set_eq.
    + intros d Hd'. rewrite Hout by tauto. apply dict_get_set_neq. tauto.
Qed.

(** What [init_net] returns, for every listed destination. *)
Lemma init_net_ok (self : Router) (routers : list string) :
  exists r, init_net self routers = Ok r /\
    name r = name self /\ neighbors r = neighbors self /\
    forall d, In d routers ->
      (d = name self ->
         dict_get (dis_vec r) d = Some (Fin 0) /\
         dict_get (next_hop r) d = Some (Some (name self))) /\
      (d <> name self ->
         forall c, dict_get (neighbors self) d = Some c ->
           dict_get (dis_vec r) d = Some (Fin c) /\
           dict_get (next_hop r) d = Some (Some (name self))) /\
      (d <> name self -> dict_get (neighbors self) d = None ->
         dict_get (dis_vec r) d = Some Inf /\
         dict_get (next_hop r) d = Some None) /\
      exists row, dict_get (vec_table r) d = Some row /\
        (forall n c, dict_get (neighbors self) n = Some c ->
           dict_get row n = Some (if String.eqb n d then Fin c else Inf)) /\
        (forall n, dict_get (neighbors self) n = None ->
           dict_get row n = None).
Proof.
  unfold init_net.
  destruct (init_table_total routers (fold_left init_entry routers self))
    as (r & Hr & Hn & Hb & Hd & Hh & Hin & _).
  destruct (init_entries_frame routers self) as (Hn' & Hb' & _).
  exists r. split; [exact Hr|].
  split; [congruence|]. split; [congruence|].
  intros d Hdin. rewrite Hd, Hh.
  destruct (init_entries_in routers self d Hdin) as [-> ->].
  unfold init_cost, init_hop. repeat split.
  - subst d. now rewrite String.eqb_refl.
  - subst d. now rewrite String.eqb_refl.
  - apply String.eqb_neq in H. rewrite H, H0. reflexivity.
  - apply String.eqb_neq in H. rewrite H, H0. reflexivity.
  - apply String.eqb_neq in H. rewrite H, H0. reflexivity.
  - apply String.eqb_neq in H. rewrite H, H0. reflexivity.
  - destruct (Hin d Hdin) as (row & Hrow & Hspec).
    exists row. rewrite Hb' in Hspec. split; [exact Hrow | apply Hspec].
Qed.

(** C5.  [init_net] always returns, keeps the name and the links, and for
    every listed destination [d] stores: cost 0 and next hop self when [d]
    is the router; the link cost and next hop self when [d] is a direct
    neighbor; infinite cost and no next hop otherwise; and a fresh row
    [vec_table[d]] with one entry per neighbor [n], the link cost when
    [n = d] and infinite otherwise.  The stored values depend on the name
    and the links only, so prior routing state of listed destinations is
    overwritten. *)
Theorem init_net_spec (self : Router) (routers : list string) :
  exists r, init_net self routers = Ok r /\
    name r = name self /\ neighbors r = neighbors self /\
    forall d, In d routers ->
      (d = name self ->
         dict_get (dis_vec r) d = Some (Fin 0) /\
         dict_get (next_hop r) d = Some (Some (name self))) /\
      (d <> name self ->
         forall c, dict_get (neighbors self) d = Some c ->
           dict_get (dis_vec r) d = Some (Fin c) /\
           dict_get (next_hop r) d = Some (Some (name self))) /\
      (d <> name self -> dict_get (neighbors self) d = None ->
         dict_get (dis_vec r) d = Some Inf /\
         dict_get (next_hop r) d = Some None) /\
      exists row, dict_get (vec_table r) d = Some row /\
        (forall n c, dict_get (neighbors self) n = Some c ->
           dict_get row n = Some (if String.eqb n d then Fin c else Inf)) /\
        (forall n, dict_get (neighbors self) n = None ->
           dict_get row n = None).
Proof. exact (init_net_ok self routers). Qed.

(** ** poisoned_reverse *)

Lemma poisoned_true (self : Router) (tn dest : string) :
  poisoned self tn dest = true <->
  dict_get (next_hop self) dest = Some (Some tn) /\ dest <> tn.
Proof.
  unfold poisoned. destruct (dict_get (next_hop self) dest) as [[x|]|].
  - rewrite andb_true_iff, negb_true_iff, String.eqb_eq, String.eqb_neq.
    split; [intros [-> H]; auto | intros [[= ->] H]; auto].
  - split; [discriminate | intros [[=] _]].
  - split; [discriminate | intros [[=] _]].
Qed.

Lemma poison_entry_ok (self : Router) (tn dest : string) (dv : dict cost)
      (c : cost) (h : option string) :
  dict_get (dis_vec self) dest = Some c ->
  dict_get (next_hop self) dest = Some h ->
  poison_entry self (Some tn) dv dest
  = Ok (dict_set dv dest (if poisoned self tn dest then Inf else c)).
Proof.
  intros Hc Hh. unfold poison_entry, poisoned, getitem. rewrite Hh, Hc. simpl.
  destruct h as [x|]; simpl; [|reflexivity].
  destruct (String.eqb x tn && negb (String.eqb dest tn)); reflexivity.
Qed.

Lemma poison_loop_ok (self : Router) (tn : string) (dests : list string)
      (dv : dict cost) :
  (forall d, In d dests -> In d (dict_keys (dis_vec self))) ->
  (forall d, In d dests -> In d (dict_keys (next_hop self))) ->
  exists dv', poison_loop self (Some tn) dests dv = Ok dv' /\
    (forall d c, In d dests -> dict_get (dis_vec self) d = Some c ->
       dict_get dv' d = Some (if poisoned self tn d then Inf else c)) /\
    (forall d, ~ In d dests -> dict_get dv' d = dict_get dv d).
Proof.
  revert dv. induction dests as [|x t IH]; intros dv Hd Hh;
    cbn [poison_loop].
  - exists dv. split; [reflexivity|]. split; [intros d c []|auto].
  - destruct (proj1 (dict_get_in_keys _ x) (Hd x (or_introl eq_refl)))
      as [cx Hcx].
    destruct (proj1 (dict_get_in_keys _ x) (Hh x (or_introl eq_refl)))
      as [hx Hhx].
    rewrite (poison_entry_ok self tn x dv cx hx Hcx Hhx). cbn [bind].
    destruct (IH (dict_set dv x (if poisoned self tn x then Inf else cx)))
      as (dv' & Hdv & Hin & Hout).
    { intros d H. apply Hd. simpl; auto. }
    { intros d H. apply Hh. simpl; auto. }
    exists dv'. split; [exact Hdv|]. split.
    + intros d c Hdin Hc.
      destruct (in_dec string_dec d t) as [Hdt | Hdt]; auto.
      destruct Hdin as [-> | Hdin]; [|contradiction].
      rewrite (Hout _ Hdt), dict_get_set_eq.
      rewrite Hcx in Hc. now injection Hc as ->.
    + intros d Hdn. simpl in Hdn. rewrite Hout by tauto.
      apply dict_get_set_neq. tauto.
Qed.

(** C4.  For a router whose [next_hop] has every key of its [dis_vec]
    (every state of a run, by [program_state_keys] below), the vector
    exported to target [N]
    exists and maps each destination [D] of [dis_vec] to infinite cost when
    [next_hop[D] == N] and [D != N], to [dis_vec[D]] otherwise, and holds
    no other destination.  The export is a function of the router alone:
    the embedding returns the vector and no new router state. *)
Theorem poisoned_reverse_spec (R : Router) (N : string) :
  hops_recorded R ->
  exists dv, poisoned_reverse R (Some N) = Ok dv /\
    (forall D c, dict_get (dis_vec R) D = Some c ->
       (dict_get (next_hop R) D = Some (Some N) -> D <> N ->
          dict_get dv D = Some Inf) /\
       (dict_get (next_hop R) D <> Some (Some N) \/ D = N ->
          dict_get dv D = Some c)) /\
    (forall D, dict_get (dis_vec R) D = None -> dict_get dv D = None).
Proof.
  intros Hdom. unfold poisoned_reverse.
  destruct (poison_loop_ok R N (dict_keys (dis_vec R)) [] (fun d H => H) Hdom)
    as (dv & Hdv & Hin & Hout).
  exists dv. split; [exact Hdv|]. split.
  - intros D c Hc.
    assert (HD : In D (dict_keys (dis_vec R)))
      by (apply dict_get_in_keys; eauto).
    specialize (Hin D c HD Hc). split.
    + intros Hh Hne. rewrite Hin.
      now rewrite (proj2 (poisoned_true R N D) (conj Hh Hne)).
    + intros Hno. rewrite Hin.
      destruct (poisoned R N D) eqn:E; [|reflexivity].
      apply poisoned_true in E. destruct E as [E1 E2].
      destruct Hno; contradiction.
  - intros D HD. apply dict_get_none_keys in HD. now rewrite Hout.
Qed.

(** ** Minima *)

Section MinFacts.
Context {A : Type} (ltb : A -> A -> bool).

Lemma min_from_in (m : A) (l : list A) : In (min_from ltb m l) (m :: l).
Proof.
  revert m. induction l as [|x t IH]; intros m; simpl; auto.
  destruct (IH (if ltb x m then x else m)) as [H | H]; auto.
  destruct (ltb x m); auto.
Qed.

Hypothesis ltb_irrefl : forall a, ltb a a = false.
Hypothesis ltb_trans :
  forall a b c, ltb a b = true -> ltb b c = true -> ltb a c = true.
Hypothesis ltb_tri : forall a b, ltb a b = false -> ltb b a = false -> a = b.

Lemma min_from_lb (m : A) (l : list A) (x : A) :
  In x (m :: l) -> ltb x (min_from ltb m l) = false.
Proof.
  revert m x. induction l as [|y t IH]; intros m x Hx; simpl.
  - destruct Hx as [<- | []]. apply ltb_irrefl.
  - set (m' := if ltb y m then y else m).
    assert (Hm' : ltb m' (min_from ltb m' t) = false)
      by (apply IH; simpl; auto).
    destruct Hx as [<- | [<- | Hx]].
    + unfold m' in *. destruct (ltb y m) eqn:E; auto.
      destruct (ltb m (min_from ltb y t)) eqn:E'; auto.
      rewrite (ltb_trans _ _ _ E E') in Hm'. discriminate.
    + unfold m' in *. destruct (ltb y m) eqn:E; auto.
      destruct (ltb y (min_from ltb m t)) eqn:E'; auto.
      destruct (ltb (min_from ltb m t) m) eqn:E''.
      * rewrite (ltb_trans _ _ _ E' E'') in E. discriminate.
      * rewrite <- (ltb_tri _ _ Hm' E'') in E'. congruence.
    + apply IH. simpl; auto.
Qed.
End MinFacts.

(** ** The order on costs and on names *)

Lemma cost_ltb_irrefl (a : cost) : cost_ltb a a = false.
Proof. destruct a; simpl; auto. apply Z.ltb_irrefl. Qed.

Lemma cost_ltb_trans (a b c : cost) :
  cost_ltb a b = true -> cost_ltb b c = true -> cost_ltb a c = true.
Proof.
  destruct a, b, c; simpl; try congruence.
  rewrite !Z.ltb_lt. lia.
Qed.

Lemma cost_ltb_tri (a b : cost) :
  cost_ltb a b = false -> cost_ltb b a = false -> a = b.
Proof.
  destruct a, b; simpl; try congruence.
  rewrite !Z.ltb_ge. intros. f_equal. lia.
Qed.

Lemma cost_ltb_le_trans (a b c : cost) :
  cost_ltb a b = true -> cost_ltb c b = false -> cost_ltb a c = true.
Proof.
  destruct a, b, c; simpl; try congruence.
  rewrite !Z.ltb_lt, Z.ltb_ge. lia.
Qed.

Lemma cost_le_trans (a b c : cost) :
  cost_le a b -> cost_le b c -> cost_le a c.
Proof.
  unfold cost_le. destruct a, b, c; simpl; try congruence.
  rewrite !Z.ltb_ge. lia.
Qed.

Lemma cost_eqb_eq (a b : cost) : cost_eqb a b = true <-> a = b.
Proof.
  destruct a, b; simpl; try (split; congruence).
  rewrite Z.eqb_eq. split; congruence.
Qed.

Lemma name_ltb_lt (a b : string) :
  String.ltb a b = true <-> String_as_OT.lt a b.
Proof.
  rewrite <- String_as_OT.cmp_lt. unfold String.ltb, String_as_OT.cmp.
  destruct (String.compare a b); split; congruence.
Qed.

Lemma name_ltb_irrefl (a : string) : String.ltb a a = false.
Proof.
  destruct (String.ltb a a) eqn:E; auto.
  apply name_ltb_lt in E. exfalso.
  exact (String_as_OT.lt_not_eq _ _ E eq_refl).
Qed.

Lemma name_ltb_trans (a b c : string) :
  String.ltb a b = true -> String.ltb b c = true -> String.ltb a c = true.
Proof.
  rewrite !name_ltb_lt. apply String_as_OT.lt_trans.
Qed.

Lemma name_ltb_tri (a b : string) :
  String.ltb a b = false -> String.ltb b a = false -> a = b.
Proof.
  unfold String.ltb. rewrite (String.compare_antisym b a).
  destruct (String.compare a b) eqn:E; simpl; try congruence.
  intros _ _. now apply String.compare_eq_iff.
Qed.

Lemma py_min_row_min (row : dict cost) (m : cost) :
  py_min cost_ltb (dict_values row) = Ok m -> row_min row = m.
Proof.
  unfold row_min. destruct (dict_values row) as [|x t]; simpl; [discriminate|].
  intros [= <-]. now destruct x.
Qed.

Lemma row_min_lb (row : dict cost) (k : string) (v : cost) :
  In (k, v) row -> cost_le (row_min row) v.
Proof.
  intros H. unfold cost_le, row_min.
  apply (min_from_lb cost_ltb cost_ltb_irrefl cost_ltb_trans cost_ltb_tri).
  right. change v with (snd (k, v)). now apply in_map.
Qed.

Lemma row_min_in (row : dict cost) :
  row_min row = Inf \/ exists k, In (k, row_min row) row.
Proof.
  unfold row_min.
  destruct (min_from_in cost_ltb Inf (dict_values row)) as [H | H]; auto.
  right. apply in_map_iff in H. destruct H as ([k v] & Hv & Hin).
  simpl in Hv. subst v. eauto.
Qed.

(** ** update_net: one visit of the loop *)

Lemma update_entry_self (n : string) (dv : dict pyval) (s : Router)
      (u : bool) :
  update_entry n dv (s, u) (name s) = Ok (s, u).
Proof. unfold update_entry. now rewrite String.eqb_refl. Qed.

Lemma update_entry_inv (n : string) (dv : dict pyval) (s : Router) (u : bool)
      (d : string) (s' : Router) (u' : bool) :
  d <> name s ->
  update_entry n dv (s, u) d = Ok (s', u') ->
  visit n dv s u d s' u'.
Proof.
  intros Hne. apply String.eqb_neq in Hne.
  unfold update_entry, getitem. rewrite Hne.
  destruct (dict_get (neighbors s) n) as [c|] eqn:Hc; [|discriminate].
  destruct (dict_get dv d) as [a|] eqn:Ha; [|discriminate].
  cbn [bind].
  destruct (py_add c a) as [new_cost|] eqn:Hadd; [|discriminate].
  cbn [bind].
  destruct (dict_get (vec_table s) d) as [row|] eqn:Hrow; [|discriminate].
  cbn [bind].
  destruct (dict_get row n) as [old|] eqn:Hold; [|discriminate].
  cbn [bind].
  assert (Hrow1 :
    dict_get (vec_table (fst (if cost_ltb new_cost old
        then (set_vec_table s d (dict_set row n new_cost), true)
        else (s, u)))) d = Some (merged_row row n old new_cost)).
  { unfold merged_row. destruct (cost_ltb new_cost old); simpl; auto.
    apply dict_get_set_eq. }
  intros H.
  destruct (cost_ltb new_cost old) eqn:Hlt; cbn [fst] in Hrow1;
    rewrite Hrow1 in H; cbn [bind] in H;
    destruct (py_min cost_ltb (dict_values (merged_row row n old new_cost)))
      as [min_cost|] eqn:Hmin; try discriminate; cbn [bind] in H;
    cbn [set_vec_table dis_vec] in H.
  all: destruct (dict_get (dis_vec s) d) as [cur|] eqn:Hcur;
    [|discriminate]; cbn [bind] in H.
  all: destruct (cost_ltb min_cost cur) eqn:Hlow.
  all: try (destruct (py_min String.ltb
                        (hops_at (merged_row row n old new_cost) min_cost))
              as [hop|] eqn:Hhop; [|discriminate]; cbn [bind] in H).
  all: injection H as <- <-.
  all: apply (Visit n dv s u d _ _ c a new_cost row old min_cost cur); auto.
  all: unfold merged_row in *; rewrite ?Hlt in *; rewrite ?Hlow; simpl; auto.
  all: exists hop; auto.
Qed.

Lemma update_entry_cases (n : string) (dv : dict pyval) (s : Router)
      (u : bool) (d : string) (s' : Router) (u' : bool) :
  update_entry n dv (s, u) d = Ok (s', u') ->
  (d = name s /\ s' = s /\ u' = u) \/ (d <> name s /\ visit n dv s u d s' u').
Proof.
  intros H. destruct (string_dec d (name s)) as [-> | Hne].
  - rewrite update_entry_self in H. injection H as <- <-. auto.
  - right. split; [exact Hne|]. now apply update_entry_inv.
Qed.

Lemma visit_frame (n : string) (dv : dict pyval) (s : Router) (u : bool)
      (d : string) (s' : Router) (u' : bool) (d' : string) :
  visit n dv s u d s' u' -> d <> d' ->
  dict_get (dis_vec s') d' = dict_get (dis_vec s) d' /\
  dict_get (next_hop s') d' = dict_get (next_hop s) d' /\
  dict_get (vec_table s') d' = dict_get (vec_table s) d'.
Proof.
  intros [c a new_cost row old min_cost cur] Hne.
  repeat split.
  - destruct (cost_ltb min_cost cur).
    + destruct Hres as (hop & _ & -> & _). now apply dict_get_set_neq.
    + destruct Hres as (-> & _). reflexivity.
  - destruct (cost_ltb min_cost cur).
    + destruct Hres as (hop & _ & _ & -> & _). now apply dict_get_set_neq.
    + destruct Hres as (_ & -> & _). reflexivity.
  - rewrite Htab. destruct (cost_ltb new_cost old); auto.
    now apply dict_get_set_neq.
Qed.

Lemma visit_keys (n : string) (dv : dict pyval) (s : Router) (u : bool)
      (d : string) (s' : Router) (u' : bool) :
  visit n dv s u d s' u' ->
  dict_keys (dis_vec s') = dict_keys (dis_vec s).
Proof.
  intros [c a new_cost row old min_cost cur].
  destruct (cost_ltb min_cost cur).
  - destruct Hres as (hop & _ & -> & _).
    now apply dict_keys_set_present with (v0 := cur).
  - destruct Hres as (-> & _). reflexivity.
Qed.

(** A property kept by every visit that returns is kept by the loop. *)
Lemma update_loop_inv (P : Router -> bool -> Prop) (n : string)
      (dv : dict pyval) :
  forall dests,
    (forall s u d s' u',
        In d dests -> P s u -> update_entry n dv (s, u) d = Ok (s', u') ->
        P s' u') ->
    forall s u s' u',
      P s u -> update_loop n dv dests (s, u) = Ok (s', u') -> P s' u'.
Proof.
  induction dests as [|d t IH]; intros Hstep s u s' u' HP H;
    cbn [update_loop] in H.
  - injection H as <- <-. exact HP.
  - destruct (update_entry n dv (s, u) d) as [[s1 u1]|] eqn:E;
      [|discriminate].
    cbn [bind] in H. eapply IH; [| |exact H].
    + intros s0 u0 d0 s0' u0' Hd0. apply Hstep. simpl; auto.
    + eapply Hstep; [simpl; auto|exact HP|exact E].
Qed.

(** ** Monotonicity of a merge *)

Lemma non_increasing_trans (a b c : cost) :
  non_increasing a b -> non_increasing b c -> non_increasing a c.
Proof.
  unfold non_increasing. intros [-> | H1] [-> | H2]; auto.
  right. eapply cost_ltb_trans; eauto.
Qed.

Lemma tables_non_increasing_refl (s : Router) : tables_non_increasing s s.
Proof. split; intros; eexists; unfold non_increasing; eauto. Qed.

Lemma tables_non_increasing_trans (a b c : Router) :
  tables_non_increasing a b -> tables_non_increasing b c ->
  tables_non_increasing a c.
Proof.
  intros [T1 D1] [T2 D2]. split.
  - intros d row m x Hrow Hx.
    destruct (T1 _ _ _ _ Hrow Hx) as (row1 & x1 & Hrow1 & Hx1 & H1).
    destruct (T2 _ _ _ _ Hrow1 Hx1) as (row2 & x2 & Hrow2 & Hx2 & H2).
    exists row2, x2. eauto using non_increasing_trans.
  - intros d x Hx.
    destruct (D1 _ _ Hx) as (x1 & Hx1 & H1).
    destruct (D2 _ _ Hx1) as (x2 & Hx2 & H2).
    exists x2. eauto using non_increasing_trans.
Qed.

Lemma visit_non_increasing (n : string) (dv : dict pyval) (s : Router)
      (u : bool) (d : string) (s' : Router) (u' : bool) :
  visit n dv s u d s' u' -> tables_non_increasing s s'.
Proof.
  intros Hv. pose proof Hv as [c a new_cost row old min_cost cur]. split.
  - intros d0 row0 m x Hrow0 Hx.
    destruct (string_dec d d0) as [<- | Hd].
    + rewrite Hrow in Hrow0. injection Hrow0 as <-.
      rewrite Htab. unfold merged_row.
      destruct (cost_ltb new_cost old) eqn:Hlt.
      * exists (dict_set row n new_cost).
        rewrite dict_get_set_eq.
        destruct (string_dec n m) as [<- | Hm].
        -- exists new_cost. rewrite dict_get_set_eq.
           rewrite Hold in Hx. injection Hx as <-.
           unfold non_increasing. auto.
        -- exists x. rewrite dict_get_set_neq by exact Hm.
           unfold non_increasing. auto.
      * exists row, x. unfold non_increasing. auto.
    + destruct (visit_frame _ _ _ _ _ _ _ d0 Hv Hd) as (_ & _ & ->).
      exists row0, x. unfold non_increasing. auto.
  - intros d0 x Hx.
    destruct (string_dec d d0) as [<- | Hd].
    + rewrite Hcur in Hx. injection Hx as <-.
      destruct (cost_ltb min_cost cur) eqn:Hlow.
      * destruct Hres as (hop & _ & -> & _).
        exists min_cost. rewrite dict_get_set_eq.
        unfold non_increasing. auto.
      * destruct Hres as (-> & _). exists cur. unfold non_increasing. auto.
    + destruct (visit_frame _ _ _ _ _ _ _ d0 Hv Hd) as (-> & _).
      exists x. unfold non_increasing. auto.
Qed.

(** C7.  A merge that returns never raises an entry: every entry of
    [vec_table] and every entry of [dis_vec] is still there afterwards, and
    is either unchanged or strictly lower. *)
Theorem update_net_non_increasing (r : Router) (n : string)
        (dv : dict pyval) (r' : Router) (b : bool) :
  update_net r n dv = Ok (r', b) ->
  (forall d row m c,
      dict_get (vec_table r) d = Some row -> dict_get row m = Some c ->
      exists row' c',
        dict_get (vec_table r') d = Some row' /\
        dict_get row' m = Some c' /\
        (c' = c \/ cost_ltb c' c = true)) /\
  (forall d c,
      dict_get (dis_vec r) d = Some c ->
      exists c', dict_get (dis_vec r') d = Some c' /\
                 (c' = c \/ cost_ltb c' c = true)).
Proof.
  unfold update_net. intros H.
  change (tables_non_increasing r r').
  apply (update_loop_inv (fun s _ => tables_non_increasing r s) n dv)
    with (dests := dict_keys (dis_vec r)) (s := r) (u := false) (u' := b);
    [|apply tables_non_increasing_refl|exact H].
  intros s u d s' u' _ HP Hstep.
  apply tables_non_increasing_trans with s; [exact HP|].
  destruct (update_entry_cases _ _ _ _ _ _ _ Hstep) as [(_ & -> & _) | [_ Hv]].
  - apply tables_non_increasing_refl.
  - eapply visit_non_increasing; eauto.
Qed.

(** ** What a merge leaves alone *)

Lemma same_at_refl (d : string) (s : Router) : same_at d s s.
Proof. repeat split. Qed.

Lemma same_at_trans (d : string) (a b c : Router) :
  same_at d a b -> same_at d b c -> same_at d a c.
Proof.
  intros (H1 & H2 & H3) (G1 & G2 & G3). repeat split; congruence.
Qed.

Lemma update_entry_shape (n : string) (dv : dict pyval) (s : Router)
      (u : bool) (d : string) (s' : Router) (u' : bool) :
  update_entry n dv (s, u) d = Ok (s', u') -> same_shape s s'.
Proof.
  intros H.
  destruct (update_entry_cases _ _ _ _ _ _ _ H) as [(_ & -> & _) | [_ Hv]].
  - repeat split.
  - pose proof (visit_keys _ _ _ _ _ _ _ Hv) as Hk.
    destruct Hv. repeat split; assumption.
Qed.

Lemma update_entry_frame (n : string) (dv : dict pyval) (s : Router)
      (u : bool) (d : string) (s' : Router) (u' : bool) (d' : string) :
  update_entry n dv (s, u) d = Ok (s', u') ->
  d <> d' \/ d' = name s -> same_at d' s s'.
Proof.
  intros H Hd.
  destruct (update_entry_cases _ _ _ _ _ _ _ H) as [(_ & -> & _) | [Hne Hv]].
  - apply same_at_refl.
  - apply (visit_frame _ _ _ _ _ _ _ d' Hv).
    destruct Hd as [Hd | ->]; auto.
Qed.

Lemma update_loop_shape (n : string) (dv : dict pyval) (dests : list string)
      (s : Router) (u : bool) (s' : Router) (u' : bool) :
  update_loop n dv dests (s, u) = Ok (s', u') -> same_shape s s'.
Proof.
  intros H.
  apply (update_loop_inv (fun x _ => same_shape s x) n dv dests)
    with (s := s) (u := u) (u' := u'); [|repeat split|exact H].
  intros s0 u0 d s0' u0' _ (H1 & H2 & H3) Hstep.
  destruct (update_entry_shape _ _ _ _ _ _ _ Hstep) as (G1 & G2 & G3).
  repeat split; congruence.
Qed.

Lemma update_loop_frame (n : string) (dv : dict pyval) (dests : list string)
      (s : Router) (u : bool) (s' : Router) (u' : bool) (d : string) :
  update_loop n dv dests (s, u) = Ok (s', u') ->
  ~ In d dests \/ d = name s -> same_at d s s'.
Proof.
  intros H Hd.
  apply (update_loop_inv
           (fun x _ => same_shape s x /\ same_at d s x) n dv dests)
    with (s := s) (u := u) (u' := u');
    [|split; [repeat split|apply same_at_refl]|exact H].
  intros s0 u0 d0 s0' u0' Hd0 [(H1 & H2 & H3) Hsame] Hstep.
  destruct (update_entry_shape _ _ _ _ _ _ _ Hstep) as (G1 & G2 & G3).
  split; [repeat split; congruence|].
  apply same_at_trans with s0; [exact Hsame|].
  apply (update_entry_frame _ _ _ _ _ _ _ d Hstep).
  destruct Hd as [Hd | ->]; [left; intros ->; contradiction|right; auto].
Qed.

Lemma update_loop_app (n : string) (dv : dict pyval) (l1 l2 : list string)
      (st st' : Router * bool) :
  update_loop n dv (l1 ++ l2) st = Ok st' ->
  exists st1, update_loop n dv l1 st = Ok st1 /\
              update_loop n dv l2 st1 = Ok st'.
Proof.
  revert st. induction l1 as [|x t IH]; intros st H.
  - exists st. auto.
  - cbn [app update_loop] in *.
    destruct (update_entry n dv st x) as [st0|]; [|discriminate].
    cbn [bind] in *. auto.
Qed.

(** ** States of a phase *)

Lemma update_net_shape (r : Router) (n : string) (dv : dict pyval)
      (r' : Router) (b : bool) :
  update_net r n dv = Ok (r', b) -> same_shape r r'.
Proof. apply update_loop_shape. Qed.

Lemma update_net_self (r : Router) (n : string) (dv : dict pyval)
      (r' : Router) (b : bool) :
  update_net r n dv = Ok (r', b) -> same_at (name r) r r'.
Proof. intros H. eapply update_loop_frame; eauto. Qed.

(** C9.  In every state of a phase over a set of names that holds the
    router's own, [dis_vec] maps the own name to 0 and [next_hop] maps it
    to the own name; and a merge that returns keeps the name and both
    entries as they were (an export returns a vector and no state). *)
Theorem self_entry_fixed (routers : list string) (r : Router) :
  phase_state routers r -> In (name r) routers ->
  dict_get (dis_vec r) (name r) = Some (Fin 0) /\
  dict_get (next_hop r) (name r) = Some (Some (name r)) /\
  forall n dv r' b,
    update_net r n dv = Ok (r', b) ->
    name r' = name r /\
    dict_get (dis_vec r') (name r) = dict_get (dis_vec r) (name r) /\
    dict_get (next_hop r') (name r) = dict_get (next_hop r) (name r).
Proof.
  intros Hst Hin.
  assert (Hself : dict_get (dis_vec r) (name r) = Some (Fin 0) /\
                  dict_get (next_hop r) (name r) = Some (Some (name r))).
  { induction Hst as [r0 r Hnd Hinit | r n dv r' b Hst IH Hup].
    - destruct (init_net_ok r0 routers) as (r1 & Hr1 & Hn & _ & Hspec).
      rewrite Hinit in Hr1. injection Hr1 as <-.
      rewrite Hn in *. destruct (Hspec _ Hin) as (Hs & _). now apply Hs.
    - destruct (update_net_shape _ _ _ _ _ Hup) as (Hn & _).
      destruct (update_net_self _ _ _ _ _ Hup) as (Hd & Hh & _).
      rewrite Hn in *. rewrite Hd, Hh. now apply IH. }
  destruct Hself as [Hd Hh]. split; [exact Hd|]. split; [exact Hh|].
  intros n dv r' b Hup.
  destruct (update_net_shape _ _ _ _ _ Hup) as (Hn & _).
  destruct (update_net_self _ _ _ _ _ Hup) as (Hd' & Hh' & _).
  auto.
Qed.

(** ** A merge for a name that is not a neighbor *)

Lemma update_loop_no_link (m : string) (dv : dict pyval)
      (dests : list string) (s : Router) (u : bool) :
  dict_get (neighbors s) m = None ->
  (exists d, In d dests /\ d <> name s) ->
  update_loop m dv dests (s, u) = Raise (KeyError m).
Proof.
  intros Hm. induction dests as [|x t IH]; intros (d & Hd & Hne).
  - destruct Hd.
  - cbn [update_loop]. destruct (string_dec x (name s)) as [-> | Hx].
    + rewrite update_entry_self. cbn [bind]. apply IH.
      exists d. split; [|exact Hne].
      destruct Hd as [<- | Hd]; [contradiction | exact Hd].
    + apply String.eqb_neq in Hx. unfold update_entry, getitem.
      now rewrite Hx, Hm.
Qed.

Lemma init_net_keys (r0 : Router) (routers : list string) (r : Router)
      (d : string) :
  init_net r0 routers = Ok r -> In d routers ->
  In d (dict_keys (dis_vec r)).
Proof.
  intros Hinit Hd.
  destruct (init_net_ok r0 routers) as (r1 & Hr1 & _ & _ & Hspec).
  rewrite Hinit in Hr1. injection Hr1 as <-.
  destruct (Hspec d Hd) as (H1 & H2 & H3 & _).
  apply dict_get_in_keys.
  destruct (string_dec d (name r0)) as [He | Hne].
  - exists (Fin 0). now apply H1.
  - destruct (dict_get (neighbors r0) d) as [c|] eqn:E.
    + exists (Fin c). now apply (H2 Hne c).
    + exists Inf. now apply H3.
Qed.

(** C10.  On a router initialized over a set of names that holds another
    name than its own, a merge for a name [m] that is not a key of
    [neighbors] returns nothing, whatever the vector: it raises
    [KeyError m], from the lookup [self.neighbors[neighbor]] of line 78. *)
Theorem update_net_not_neighbor (r0 : Router) (routers : list string)
        (r : Router) (m : string) (dv : dict pyval) :
  init_net r0 routers = Ok r ->
  (exists d, In d routers /\ d <> name r) ->
  dict_get (neighbors r) m = None ->
  update_net r m dv = Raise (KeyError m).
Proof.
  intros Hinit (d & Hd & Hne) Hm. unfold update_net.
  apply update_loop_no_link; [exact Hm|].
  exists d. split; [|exact Hne]. eapply init_net_keys; eauto.
Qed.

(** ** The invariant of a phase *)

Lemma row_min_unique (row : dict cost) (m : cost) :
  (forall k v, In (k, v) row -> cost_le m v) ->
  m = Inf \/ (exists k, In (k, m) row) ->
  row_min row = m.
Proof.
  intros Hlb Hin. apply cost_ltb_tri.
  - destruct (row_min_in row) as [-> | [k Hk]]; [reflexivity|].
    apply (Hlb _ _ Hk).
  - destruct Hin as [-> | [k Hk]].
    + destruct (row_min_in row) as [-> | [k Hk]]; [reflexivity|].
      specialize (Hlb _ _ Hk). unfold cost_le in Hlb.
      destruct (row_min row); simpl in *; congruence.
    + apply (row_min_lb _ _ _ Hk).
Qed.

Lemma dict_set_in {V : Type} (d : dict V) (n k : string) (x v : V) :
  In (k, v) d ->
  In (k, v) (dict_set d n x) \/ (k = n /\ dict_get d n = Some v).
Proof.
  induction d as [|[k0 v0] t IH]; simpl; [tauto|].
  destruct (String.eqb k0 n) eqn:E.
  - apply String.eqb_eq in E. subst k0.
    intros [H | H]; [injection H as <- <-; auto | left; simpl; auto].
  - intros [H | H]; [left; simpl; auto|].
    destruct (IH H) as [H' | H']; [left; simpl; auto | right; exact H'].
Qed.

Lemma row_min_merged (row : dict cost) (n : string) (old new_cost : cost) :
  dict_get row n = Some old ->
  cost_le (row_min (merged_row row n old new_cost)) (row_min row).
Proof.
  intros Hold. unfold merged_row.
  destruct (cost_ltb new_cost old) eqn:Hlt; [|apply cost_ltb_irrefl].
  destruct (row_min_in row) as [-> | [k Hk]].
  - unfold cost_le. reflexivity.
  - destruct (dict_set_in row n k new_cost _ Hk) as [H | [-> H]].
    + apply (row_min_lb _ _ _ H).
    + rewrite Hold in H. injection H as H.
      assert (Hnew : In (n, new_cost) (dict_set row n new_cost))
        by (apply dict_get_in, dict_get_set_eq).
      apply row_min_lb in Hnew. rewrite <- H.
      unfold cost_le in *.
      destruct (row_min (dict_set row n new_cost)), new_cost, old;
        simpl in *; try congruence.
      rewrite Z.ltb_lt in Hlt. rewrite Z.ltb_ge in *. lia.
Qed.

Lemma init_row_min (nbrs : dict Z) (d : string) (row : dict cost) :
  init_row_spec nbrs d row ->
  row_min row = match dict_get nbrs d with Some c => Fin c | None => Inf end.
Proof.
  intros (Hnd & Hin & Hout).
  assert (Hval : forall k v, In (k, v) row ->
            exists c, dict_get nbrs k = Some c /\
                      v = if String.eqb k d then Fin c else Inf).
  { intros k v Hkv. apply (dict_in_get _ _ _ Hnd) in Hkv.
    destruct (dict_get nbrs k) as [c|] eqn:E.
    - exists c. split; [reflexivity|]. rewrite (Hin _ _ E) in Hkv. congruence.
    - rewrite (Hout _ E) in Hkv. discriminate. }
  apply row_min_unique.
  - intros k v Hkv. destruct (Hval _ _ Hkv) as (c & Hc & ->).
    destruct (String.eqb k d) eqn:E.
    + apply String.eqb_eq in E. subst k. rewrite Hc. apply cost_ltb_irrefl.
    + unfold cost_le. reflexivity.
  - destruct (dict_get nbrs d) as [c|] eqn:E; [right | left; reflexivity].
    exists d. apply dict_get_in. rewrite (Hin _ _ E).
    now rewrite String.eqb_refl.
Qed.

Lemma init_net_inv (r0 : Router) (routers : list string) (r : Router) :
  NoDup (dict_keys (dis_vec r0)) -> init_net r0 routers = Ok r ->
  phase_inv routers r.
Proof.
  unfold init_net. intros Hnd Hinit.
  destruct (init_table_total routers (fold_left init_entry routers r0))
    as (r1 & Hr1 & Hn & Hb & Hd & Hh & Hin & _).
  rewrite Hinit in Hr1. injection Hr1 as <-.
  destruct (init_entries_frame routers r0) as (Hn' & Hb' & _).
  split.
  - rewrite Hd. now apply init_entries_nodup.
  - intros d Hdin Hne. rewrite Hn, Hn' in Hne.
    destruct (Hin d Hdin) as (row & Hrow & Hspec). rewrite Hb' in Hspec.
    exists (init_cost r0 d), row. rewrite Hd.
    split; [apply (init_entries_in routers r0 d Hdin)|].
    split; [exact Hrow|]. split; [|apply Hspec].
    rewrite (init_row_min _ _ _ Hspec). unfold init_cost.
    apply String.eqb_neq in Hne. now rewrite Hne.
Qed.

Lemma visit_consistent (n : string) (dv : dict pyval) (s : Router) (u : bool)
      (d : string) (s' : Router) (u' : bool) :
  visit n dv s u d s' u' -> row_consistent s d -> row_consistent s' d.
Proof.
  intros [c a new_cost row old min_cost cur]
         (c0 & row0 & Hc0 & Hrow0 & Hm & Hnd).
  rewrite Hcur in Hc0. injection Hc0 as <-.
  rewrite Hrow in Hrow0. injection Hrow0 as <-.
  assert (Hrow' : dict_get (vec_table s') d
                  = Some (merged_row row n old new_cost)).
  { rewrite Htab. unfold merged_row.
    destruct (cost_ltb new_cost old); [apply dict_get_set_eq | exact Hrow]. }
  assert (Hnd' : NoDup (dict_keys (merged_row row n old new_cost))).
  { unfold merged_row. destruct (cost_ltb new_cost old); auto.
    now apply dict_keys_set_nodup. }
  apply py_min_row_min in Hmin.
  pose proof (row_min_merged row n old new_cost Hold) as Hle.
  rewrite Hmin, <- Hm in Hle. unfold cost_le in Hle.
  destruct (cost_ltb min_cost cur) eqn:Hlow.
  - destruct Hres as (hop & _ & Hdv & _).
    exists min_cost, (merged_row row n old new_cost).
    rewrite Hdv, dict_get_set_eq. auto.
  - destruct Hres as (Hdv & _).
    exists cur, (merged_row row n old new_cost).
    rewrite Hdv. repeat split; auto.
    rewrite Hmin. now apply cost_ltb_tri.
Qed.

Lemma same_at_consistent (d : string) (s s' : Router) :
  same_at d s s' -> row_consistent s d -> row_consistent s' d.
Proof.
  intros (H1 & H2 & H3) (c & row & Hc & Hrow & Hm & Hnd).
  exists c, row. rewrite H1, H3. auto.
Qed.

Lemma update_net_inv (routers : list string) (r : Router) (n : string)
      (dv : dict pyval) (r' : Router) (b : bool) :
  phase_inv routers r -> update_net r n dv = Ok (r', b) ->
  phase_inv routers r'.
Proof.
  intros [Hnd Hrows] Hup.
  destruct (update_net_shape _ _ _ _ _ Hup) as (Hn & _ & Hk).
  split; [now rewrite Hk|]. rewrite Hn.
  intros d Hd Hne. unfold update_net in Hup.
  apply (update_loop_inv
           (fun s _ => name s = name r /\ row_consistent s d) n dv
           (dict_keys (dis_vec r)))
    with (s := r) (u := false) (u' := b); [|auto|exact Hup].
  intros s u d0 s' u' _ [Hns Hcons] Hstep.
  destruct (update_entry_shape _ _ _ _ _ _ _ Hstep) as (Hn' & _).
  split; [congruence|].
  destruct (string_dec d0 d) as [-> | Hd0].
  - destruct (update_entry_cases _ _ _ _ _ _ _ Hstep)
      as [(_ & -> & _) | [_ Hv]]; [exact Hcons|].
    eapply visit_consistent; eauto.
  - eapply same_at_consistent; [|exact Hcons].
    eapply update_entry_frame; eauto.
Qed.

Lemma phase_state_inv (routers : list string) (r : Router) :
  phase_state routers r -> phase_inv routers r.
Proof.
  induction 1 as [r0 r Hnd Hinit | r n dv r' b Hst IH Hup].
  - eapply init_net_inv; eauto.
  - eapply update_net_inv; eauto.
Qed.

(** ** The keys of the routing state *)

Lemma dict_keys_set_in {V : Type} (m : dict V) (k d : string) (v : V) :
  In d (dict_keys (dict_set m k v)) <-> d = k \/ In d (dict_keys m).
Proof.
  destruct (dict_get m k) as [v0|] eqn:E.
  - rewrite (dict_keys_set_present _ _ _ _ E). split; auto.
    intros [-> | H]; [apply dict_get_in_keys; eauto | exact H].
  - rewrite (dict_keys_set_absent _ _ _ E), in_app_iff. simpl.
    split; [intros [H | [<- | []]]; auto | intros [-> | H]; auto].
Qed.

Lemma init_entry_recorded (s : Router) (x : string) :
  hops_recorded s -> hops_recorded (init_entry s x).
Proof.
  intros H d. unfold init_entry.
  destruct (String.eqb x (name s)); [|destruct (dict_get (neighbors s) x)];
    simpl; rewrite !dict_keys_set_in; intros [-> | Hd]; auto.
Qed.

Lemma init_net_recorded (r : Router) (routers : list string) (r' : Router) :
  hops_recorded r -> init_net r routers = Ok r' -> hops_recorded r'.
Proof.
  unfold init_net. intros H Hinit.
  destruct (init_table_total routers (fold_left init_entry routers r))
    as (r1 & Hr1 & _ & _ & Hd & Hh & _).
  rewrite Hinit in Hr1. injection Hr1 as <-.
  unfold hops_recorded. rewrite Hd, Hh. clear Hinit Hd Hh.
  revert r H. induction routers as [|x t IH]; intros r H; simpl; auto.
  apply IH. now apply init_entry_recorded.
Qed.

Lemma update_net_recorded (r : Router) (n : string) (dv : dict pyval)
      (r' : Router) (b : bool) :
  hops_recorded r -> update_net r n dv = Ok (r', b) -> hops_recorded r'.
Proof.
  intros H Hup. unfold update_net in Hup.
  apply (update_loop_inv (fun s _ => hops_recorded s) n dv
                         (dict_keys (dis_vec r)))
    with (s := r) (u := false) (u' := b); [|exact H|exact Hup].
  intros s u d s' u' _ Hs Hstep.
  destruct (update_entry_cases _ _ _ _ _ _ _ Hstep) as [(_ & -> & _) | [_ Hv]];
    [exact Hs|].
  destruct Hv as [c a new_cost row old min_cost cur].
  destruct (cost_ltb min_cost cur).
  - destruct Hres as (hop & _ & Hdv & Hnh & _). intros x.
    rewrite Hdv, Hnh, !dict_keys_set_in. intros [-> | Hx]; auto.
  - destruct Hres as (Hdv & Hnh & _). intros x. rewrite Hdv, Hnh. apply Hs.
Qed.

(** In every state of a run, [dis_vec] has distinct keys and each of them
    is a key of [next_hop]. *)
Lemma program_state_keys (r : Router) :
  program_state r ->
  NoDup (dict_keys (dis_vec r)) /\ hops_recorded r.
Proof.
  induction 1 as [n | r k c _ IH | r k nbrs _ IH _
                  | r routers r' _ [IHn IHh] Hinit
                  | r n dv r' b _ [IHn IHh] Hup].
  - split; [constructor | intros d []].
  - exact IH.
  - exact IH.
  - split; [|eapply init_net_recorded; eauto].
    destruct (init_net_inv _ _ _ IHn Hinit) as [Hnd _]. exact Hnd.
  - split; [|eapply update_net_recorded; eauto].
    destruct (update_net_shape _ _ _ _ _ Hup) as (_ & _ & Hk).
    now rewrite Hk.
Qed.

(** ** The next hop a merge chooses *)

Lemma hops_at_in (row : dict cost) (m : cost) (k : string) :
  In k (hops_at row m) <-> In (k, m) row.
Proof.
  unfold hops_at, dict_keys. rewrite in_map_iff. split.
  - intros ([k' v] & Hk & Hin). simpl in Hk. subst k'.
    apply filter_In in Hin. destruct Hin as [Hin Heq]. simpl in Heq.
    apply cost_eqb_eq in Heq. now subst v.
  - intros Hin. exists (k, m). split; [reflexivity|].
    apply filter_In. split; [exact Hin|]. now apply cost_eqb_eq.
Qed.

(** The name line 90 returns holds the cost [m] in the row, and no name
    holding [m] comes before it in the order of names. *)
Lemma smallest_hop (row : dict cost) (m : cost) (h : string) :
  py_min String.ltb (hops_at row m) = Ok h ->
  In (h, m) row /\ forall k, In (k, m) row -> String.ltb k h = false.
Proof.
  unfold py_min. destruct (hops_at row m) as [|x t] eqn:E; [discriminate|].
  intros [= <-]. split.
  - apply hops_at_in. rewrite E. apply min_from_in.
  - intros k Hk. apply hops_at_in in Hk. rewrite E in Hk.
    now apply (min_from_lb String.ltb name_ltb_irrefl name_ltb_trans
                           name_ltb_tri).
Qed.

(** With distinct keys in [dis_vec], a merge visits a destination once:
    what it does at [d] is one visit, from the entries [d] had before the
    merge to the entries it has after. *)
Lemma update_net_at (r : Router) (n : string) (dv : dict pyval)
      (r' : Router) (b : bool) (d : string) :
  NoDup (dict_keys (dis_vec r)) ->
  update_net r n dv = Ok (r', b) ->
  In d (dict_keys (dis_vec r)) -> d <> name r ->
  exists s1 u1 s2 u2,
    same_at d r s1 /\ visit n dv s1 u1 d s2 u2 /\ same_at d s2 r'.
Proof.
  unfold update_net. intros Hnd Hup Hd Hne.
  destruct (in_split _ _ Hd) as (l1 & l2 & Hsplit).
  rewrite Hsplit in Hnd, Hup.
  apply NoDup_remove_2 in Hnd.
  destruct (update_loop_app _ _ _ _ _ _ Hup) as ([s1 u1] & H1 & H2).
  cbn [update_loop] in H2.
  destruct (update_entry n dv (s1, u1) d) as [[s2 u2]|] eqn:E;
    [|discriminate].
  cbn [bind] in H2.
  destruct (update_loop_shape _ _ _ _ _ _ _ H1) as (Hn1 & _).
  exists s1, u1, s2, u2. split; [|split].
  - eapply update_loop_frame; [exact H1|].
    left. intros Hin. apply Hnd, in_or_app. auto.
  - apply update_entry_inv; [congruence | exact E].
  - eapply update_loop_frame; [exact H2|].
    left. intros Hin. apply Hnd, in_or_app. auto.
Qed.

(** In every state of a phase, at a listed destination [d] other than the
    router: a merge that strictly lowers [dis_vec[d]] finds the new least
    cost of the row [vec_table[d]] under the merged neighbor alone, so the
    next hop line 90 chooses is that neighbor; a merge that leaves
    [dis_vec[d]] as it was does not reach line 90 and leaves [next_hop[d]]
    as it was. *)
Lemma merge_hop (routers : list string) (r : Router) (n : string)
      (dv : dict pyval) (r' : Router) (b : bool) (d : string) (c c' : cost) :
  phase_state routers r ->
  update_net r n dv = Ok (r', b) ->
  In d routers -> d <> name r ->
  dict_get (dis_vec r) d = Some c ->
  dict_get (dis_vec r') d = Some c' ->
  (cost_ltb c' c = true ->
     dict_get (next_hop r') d = Some (Some n) /\
     exists row',
       dict_get (vec_table r') d = Some row' /\
       c' = row_min row' /\
       forall k, dict_get row' k = Some c' -> k = n) /\
  (c' = c -> dict_get (next_hop r') d = dict_get (next_hop r) d).
Proof.
  intros Hst Hup Hd Hne Hc Hc'.
  pose proof (phase_state_inv _ _ Hst) as [Hnd Hrows].
  assert (Hkey : In d (dict_keys (dis_vec r)))
    by (apply dict_get_in_keys; eauto).
  destruct (update_net_at _ _ _ _ _ d Hnd Hup Hkey Hne)
    as (s1 & u1 & s2 & u2 & (A1 & A2 & A3) & Hv & (B1 & B2 & B3)).
  pose proof (same_at_consistent d r s1 (conj A1 (conj A2 A3))
                                 (Hrows d Hd Hne)) as Hcons1.
  pose proof (visit_consistent _ _ _ _ _ _ _ Hv Hcons1)
    as (c2 & row2 & Hc2 & Hrow2 & Hm2 & Hnd2).
  destruct Hcons1 as (c1 & row1 & Hc1 & Hrow1 & Hm1 & _).
  destruct Hv as [x a new_cost row old min_cost cur].
  assert (Hcur' : cur = c) by congruence. subst cur.
  assert (c1 = c) by congruence. subst c1.
  assert (row1 = row) by congruence. subst row1.
  destruct (cost_ltb min_cost c) eqn:Hlow.
  - destruct Hres as (hop & Hhop & Hdv & Hnh & _).
    assert (Hc2' : c' = min_cost).
    { rewrite B1, Hdv, dict_get_set_eq in Hc'. congruence. }
    subst c'. split.
    + intros _.
      assert (Hrow' : row2 = merged_row row n old new_cost).
      { rewrite Htab in Hrow2. unfold merged_row in *.
        destruct (cost_ltb new_cost old).
        - rewrite dict_get_set_eq in Hrow2. congruence.
        - congruence. }
      assert (Hmin2 : c2 = min_cost).
      { rewrite Hdv, dict_get_set_eq in Hc2. congruence. }
      subst c2 row2.
      assert (Honly : forall k,
                 dict_get (merged_row row n old new_cost) k = Some min_cost ->
                 k = n).
      { intros k Hk. destruct (string_dec k n) as [-> | Hkn]; [reflexivity|].
        exfalso.
        assert (Hold' : dict_get row k = Some min_cost).
        { unfold merged_row in Hk. destruct (cost_ltb new_cost old); auto.
          rewrite dict_get_set_neq in Hk; auto. }
        pose proof (row_min_lb _ _ _ (dict_get_in _ _ _ Hold')) as Hlb.
        unfold cost_le in Hlb. congruence. }
      destruct (smallest_hop _ _ _ Hhop) as [Hin _].
      apply (dict_in_get _ _ _ Hnd2) in Hin.
      rewrite (Honly hop Hin) in Hnh. split.
      * rewrite B2, Hnh, dict_get_set_eq. reflexivity.
      * exists (merged_row row n old new_cost).
        rewrite B3. repeat split; auto.
    + intros ->. rewrite cost_ltb_irrefl in Hlow. discriminate.
  - destruct Hres as (Hdv & Hnh & _).
    assert (Hc2' : c' = c) by (rewrite B1, Hdv in Hc'; congruence).
    subst c'. split.
    + intros Hlt. rewrite cost_ltb_irrefl in Hlt. discriminate.
    + intros _. rewrite B2, Hnh. exact A2.
Qed.

(** ** The round loop as written *)

Lemma merge_argument_dicts (dis_vec_update : dict (dict (dict cost)))
      (neighbor : string) (arg : dict pyval) :
  merge_argument dis_vec_update neighbor = Ok arg -> all_dicts arg.
Proof.
  unfold merge_argument.
  destruct (getitem dis_vec_update neighbor) as [adv|]; [|discriminate].
  cbn [bind]. intros [= <-]. intros k v.
  induction adv as [|[k0 e0] t IH]; simpl; [discriminate|].
  destruct (String.eqb k0 k); [intros [= <-]; eauto | exact IH].
Qed.

(** Line 78 on such a vector: the sum of an [int] and a dictionary raises,
    so a visit returns only at the router's own name, where it does
    nothing. *)
Lemma update_entry_dicts (n : string) (arg : dict pyval) (s : Router)
      (u : bool) (d : string) (s' : Router) (u' : bool) :
  all_dicts arg ->
  update_entry n arg (s, u) d = Ok (s', u') ->
  d = name s /\ s' = s /\ u' = u.
Proof.
  intros Hall H.
  destruct (update_entry_cases _ _ _ _ _ _ _ H) as [H' | [_ Hv]]; [exact H'|].
  destruct Hv as [c a new_cost row old min_cost cur].
  destruct (Hall _ _ Ha) as [e ->]. discriminate.
Qed.

Lemma update_loop_dicts (n : string) (arg : dict pyval)
      (dests : list string) (s : Router) (u : bool) (s' : Router)
      (u' : bool) :
  all_dicts arg ->
  update_loop n arg dests (s, u) = Ok (s', u') ->
  s' = s /\ u' = u /\ forall d, In d dests -> d = name s.
Proof.
  intros Hall. induction dests as [|x t IH]; cbn [update_loop]; intros H.
  - injection H as <- <-. repeat split. intros d [].
  - destruct (update_entry n arg (s, u) x) as [[s1 u1]|] eqn:E;
      [|discriminate].
    cbn [bind] in H.
    destruct (update_entry_dicts _ _ _ _ _ _ _ Hall E) as (-> & -> & ->).
    destruct (IH H) as (-> & -> & Hrest).
    repeat split. intros d [<- | Hd]; auto.
Qed.

Lemma merge_neighbors_dicts (dis_vec_update : dict (dict (dict cost)))
      (r : Router) (ns : list string) (conv : bool) (r' : Router)
      (conv' : bool) :
  merge_neighbors dis_vec_update r ns conv = Ok (r', conv') ->
  r' = r /\ conv' = conv /\
  (ns = [] \/ forall d, In d (dict_keys (dis_vec r)) -> d = name r).
Proof.
  revert conv. induction ns as [|n t IH]; intros conv;
    cbn [merge_neighbors]; intros H.
  - injection H as <- <-. auto.
  - destruct (merge_argument dis_vec_update n) as [arg|] eqn:Harg;
      [|discriminate].
    cbn [bind] in H.
    destruct (update_net r n arg) as [[r1 b]|] eqn:Hup; [|discriminate].
    cbn [bind] in H.
    destruct (update_loop_dicts _ _ _ _ _ _ _
                (merge_argument_dicts _ _ _ Harg) Hup) as (-> & -> & Hk).
    destruct (IH _ H) as (-> & -> & _). auto.
Qed.

Lemma merge_all_dicts (dis_vec_update : dict (dict (dict cost)))
      (rs : dict Router) (conv : bool) (rs' : dict Router) (conv' : bool) :
  merge_all dis_vec_update rs conv = Ok (rs', conv') ->
  rs' = rs /\ conv' = conv /\ forall k r, In (k, r) rs -> quiet r.
Proof.
  revert conv rs'. induction rs as [|[k r] t IH]; intros conv rs';
    cbn [merge_all]; intros H.
  - injection H as <- <-. repeat split. intros k r [].
  - destruct (merge_neighbors dis_vec_update r (dict_keys (neighbors r)) conv)
      as [[r1 c1]|] eqn:E; [|discriminate].
    cbn [bind] in H.
    destruct (merge_all dis_vec_update t c1) as [[t1 c2]|] eqn:E';
      [|discriminate].
    cbn [bind] in H. injection H as <- <-.
    destruct (merge_neighbors_dicts _ _ _ _ _ _ E) as (-> & -> & Hq).
    destruct (IH _ _ E') as (-> & -> & Hrest).
    repeat split. intros k0 r0 [[= <- <-] | Hin]; [|eauto].
    destruct Hq as [Hq | Hq]; [left | right; exact Hq].
    destruct (neighbors r); [reflexivity | discriminate].
Qed.

(** A round that returns changes nothing and reports convergence. *)
Lemma round_dicts (rs rs' : dict Router) (conv : bool) :
  round rs = Ok (rs', conv) ->
  rs' = rs /\ conv = true /\ forall k r, In (k, r) rs -> quiet r.
Proof.
  unfold round.
  destruct (distance_tables rs (py_sorted (dict_keys rs)) []) as [printed|];
    [|discriminate].
  cbn [bind].
  destruct (export_all rs (dict_keys rs) []) as [dvu|]; [|discriminate].
  cbn [bind]. apply merge_all_dicts.
Qed.

Lemma rounds_dicts (fuel : nat) (rs rs' : dict Router) (t0 t : nat) :
  rounds fuel rs t0 = Converged rs' t ->
  rs' = rs /\ t = t0 /\ forall k r, In (k, r) rs -> quiet r.
Proof.
  destruct fuel as [|fuel]; cbn [rounds]; [discriminate|].
  destruct (round rs) as [[rs1 conv]|] eqn:E; [|discriminate].
  destruct (round_dicts _ _ _ E) as (-> & -> & Hq).
  intros [= <- <-]. auto.
Qed.

(** With fuel for one round the loop breaks in its first round or raises. *)
Lemma rounds_first (fuel : nat) (rs : dict Router) (t0 : nat) :
  rounds (S fuel) rs t0 = Converged rs t0 \/
  exists e, rounds (S fuel) rs t0 = Raised e.
Proof.
  cbn [rounds]. destruct (round rs) as [[rs1 conv]|] eqn:E; [|eauto].
  destruct (round_dicts _ _ _ E) as (-> & -> & _). auto.
Qed.

(** ** The phase on a link-cost graph *)

Lemma init_each_total (names : list string) (rs : dict Router) :
  exists rs', init_each names rs = Ok rs' /\
    Forall2 (fun kr kr' => fst kr' = fst kr /\
                           init_net (snd kr) names = Ok (snd kr')) rs rs'.
Proof.
  induction rs as [|[k r] t (t' & Ht & Hall)]; cbn [init_each].
  - exists []. split; [reflexivity | constructor].
  - destruct (init_net_ok r names) as (r' & Hr & _).
    rewrite Hr, Ht. cbn [bind]. exists ((k, r') :: t').
    split; [reflexivity|]. constructor; auto.
Qed.


Lemma distinct_nodup (l : list string) : distinct l = true -> NoDup l.
Proof.
  induction l as [|x t IH]; simpl; [constructor|].
  rewrite andb_true_iff, negb_true_iff. intros [Hx Ht].
  constructor; [|auto]. intros Hin.
  assert (existsb (String.eqb x) t = true); [|congruence].
  apply existsb_exists. exists x. split; [exact Hin | apply String.eqb_refl].
Qed.

Lemma valid_network_spec (rs : dict Router) :
  valid_network rs = true ->
  NoDup (dict_keys rs) /\
  forall k r, In (k, r) rs ->
    name r = k /\ forall n c, In (n, c) (neighbors r) -> 0 <= c.
Proof.
  unfold valid_network. rewrite andb_true_iff. intros [Hd Hall].
  split; [now apply distinct_nodup|].
  intros k r Hin. rewrite forallb_forall in Hall.
  specialize (Hall _ Hin). unfold valid_router in Hall. simpl in Hall.
  apply andb_true_iff in Hall. destruct Hall as [Hn Hl].
  split; [now apply String.eqb_eq|].
  intros n c Hnc. rewrite forallb_forall in Hl. specialize (Hl _ Hnc).
  simpl in Hl. apply andb_true_iff in Hl. destruct Hl as [_ Hc].
  now apply Z.leb_le.
Qed.

Lemma walk_nonneg (rs : dict Router) (u w : string) (k : Z) :
  valid_network rs = true -> walk rs u w k -> 0 <= k.
Proof.
  intros Hv. destruct (valid_network_spec _ Hv) as [_ Hrs].
  induction 1 as [u | u v w c k (r & Hr & Hc) _ IH]; [lia|].
  apply dict_get_in in Hr, Hc.
  destruct (Hrs _ _ Hr) as [_ Hcost]. specialize (Hcost _ _ Hc). lia.
Qed.

Lemma converged_quiet (rs : dict Router) (fuel : nat) (rs' : dict Router)
      (t : nat) :
  distance_vector rs fuel = Converged rs' t ->
  init_all rs = Ok rs' /\ t = O /\ forall k r, In (k, r) rs' -> quiet r.
Proof.
  unfold distance_vector.
  destruct (init_all rs) as [rs1|]; [|discriminate].
  intros H. destruct (rounds_dicts _ _ _ _ _ H) as (-> & -> & Hq). auto.
Qed.

Lemma init_each_image (names : list string) (rs rs' : dict Router)
      (k : string) (r : Router) :
  init_each names rs = Ok rs' -> In (k, r) rs ->
  exists r', In (k, r') rs' /\ init_net r names = Ok r'.
Proof.
  intros H Hin. destruct (init_each_total names rs) as (rs1 & H1 & Hall).
  rewrite H in H1. injection H1 as <-. clear H.
  induction Hall as [|[k0 r0] [k1 r1] t t' [Hk Hr] Hall IH]; [destruct Hin|].
  simpl in *. subst k1. destruct Hin as [[= <- <-] | Hin].
  - exists r1. auto.
  - destruct (IH Hin) as (r' & Hrin & Hrinit). exists r'. auto.
Qed.





(** C8 on the code.  Where some router has a link and another name than
    its own is declared (every connected network of two routers or more),
    a phase with fuel for one round or more does not reach the break of
    line 170: it raises in its first round. *)
Theorem linked_network_raises (rs : dict Router) (fuel : nat) :
  (exists k r d,
      In (k, r) rs /\ neighbors r <> [] /\
      In d (dict_keys rs) /\ d <> name r) ->
  exists e, distance_vector rs (S fuel) = Raised e.
Proof.
  intros (k & r & d & Hin & Hl & Hd & Hne).
  destruct (init_each_total (dict_keys rs) rs) as (rs1 & Hinit & _).
  fold (init_all rs) in Hinit.
  destruct (rounds_first fuel rs1 O) as [Hc | He].
  - exfalso.
    assert (Hdv : distance_vector rs (S fuel) = Converged rs1 O)
      by (unfold distance_vector; now rewrite Hinit).
    destruct (converged_quiet _ _ _ _ Hdv) as (_ & _ & Hq).
    destruct (init_each_image _ _ _ _ _ Hinit Hin) as (r' & Hr' & Hri).
    destruct (init_net_ok r (dict_keys rs)) as (r1 & Hr1 & Hn & Hb & _).
    rewrite Hri in Hr1. injection Hr1 as <-.
    destruct (Hq _ _ Hr') as [Hq0 | Hq0]; [congruence|].
    apply Hne. rewrite <- Hn. apply Hq0. eapply init_net_keys; eauto.
  - unfold distance_vector. now rewrite Hinit.
Qed.

(** ** Concrete networks *)

Lemma two_routers_built :
  network ["A"; "B"] [("A", "B", 1)] = Ok two_routers.
Proof. reflexivity. Qed.

Lemma line_through_c_built :
  network ["A"; "B"; "C"] [("A", "C", 1); ("B", "C", 1)] = Ok line_through_c.
Proof. reflexivity. Qed.

(** C1 on the code.  In the first round on [two_routers], the vector [B]
    exports to [A] is [{A: 1, B: 0}], but the merge of [A] for [B] receives
    [dis_vec_update["B"]], the dictionary [{"A": {A: 1, B: 0}}] of all the
    exports of [B] keyed by their target; line 78 then raises
    [KeyError "B"]. *)
Theorem merge_receives_all_exports :
  init_all two_routers = Ok [("A", two_routers_a); ("B", two_routers_b)] /\
  poisoned_reverse two_routers_b (Some "A") = Ok [("A", Fin 1); ("B", Fin 0)] /\
  exists dis_vec_update,
    export_all [("A", two_routers_a); ("B", two_routers_b)] ["A"; "B"] []
    = Ok dis_vec_update /\
    merge_argument dis_vec_update "B"
    = Ok [("A", PDict [("A", Fin 1); ("B", Fin 0)])] /\
    merge_argument dis_vec_update "B"
    <> Ok [("A", PCost (Fin 1)); ("B", PCost (Fin 0))] /\
    update_net two_routers_a "B" [("A", PDict [("A", Fin 1); ("B", Fin 0)])]
    = Raise (KeyError "B").
Proof.
  split; [reflexivity|]. split; [reflexivity|].
  eexists. split; [reflexivity|]. split; [reflexivity|].
  split; [discriminate | reflexivity].
Qed.

(** C2 on the code.  Both networks are valid; a phase on the first raises
    [KeyError] and a phase on the second raises [TypeError], in the first
    merge of the first round. *)
Theorem phase_raises :
  valid_network two_routers = true /\
  (forall fuel, distance_vector two_routers (S fuel) = Raised (KeyError "B")) /\
  valid_network line_through_c = true /\
  (forall fuel, distance_vector line_through_c (S fuel) = Raised TypeError).
Proof. repeat split. Qed.

(** ** A phase of one router, with a tie *)

Lemma tie_trace :
  init_net tie_router tie_names = Ok tie_init /\
  update_net tie_init "C" tie_from_c = Ok (tie_mid, true) /\
  update_net tie_mid "B" tie_from_b = Ok (tie_after, true).
Proof. repeat split. Qed.

Lemma tie_init_state : phase_state tie_names tie_init.
Proof. apply phase_init with tie_router; [constructor | reflexivity]. Qed.

Lemma tie_mid_state : phase_state tie_names tie_mid.
Proof.
  apply phase_merge with tie_init "C" tie_from_c true;
    [apply tie_init_state | reflexivity].
Qed.

Lemma tie_after_state : phase_state tie_names tie_after.
Proof.
  apply phase_merge with tie_mid "B" tie_from_b true;
    [apply tie_mid_state | reflexivity].
Qed.

(** C6 on the code.  Router [A] has the links [A C 1] and [A B 1]; after
    [init_net] it merges the vector of [C], then the vector of [B], which
    both advertise [D] at cost 4.  After the second merge the row of [D]
    holds the least cost 5 under [B] and under [C] and [dis_vec["D"]] is 5,
    but [next_hop["D"]] is [C], not the alphabetically smaller [B]: the
    entry is not consistent.  Line 90, which picks the smallest name among
    the least costs, is guarded by the strict comparison of line 86: in
    every state of a phase, a merge that passes the guard finds the new
    least cost under the merged neighbor alone and chooses that neighbor,
    and a merge that brings a tie does not pass the guard and leaves
    [next_hop] as it was. *)
Theorem tie_break_missed :
  phase_state tie_names tie_mid /\
  update_net tie_mid "B" tie_from_b = Ok (tie_after, true) /\
  dict_get (vec_table tie_after) "D" = Some [("C", Fin 5); ("B", Fin 5)] /\
  dict_get (dis_vec tie_after) "D" = Some (Fin 5) /\
  String.ltb "B" "C" = true /\
  dict_get (next_hop tie_after) "D" = Some (Some "C") /\
  ~ consistent_at tie_after "D" /\
  ~ tables_consistent tie_after /\
  (forall routers r n dv r' b d c c',
      phase_state routers r ->
      update_net r n dv = Ok (r', b) ->
      In d routers -> d <> name r ->
      dict_get (dis_vec r) d = Some c ->
      dict_get (dis_vec r') d = Some c' ->
      (cost_ltb c' c = true ->
         dict_get (next_hop r') d = Some (Some n) /\
         exists row',
           dict_get (vec_table r') d = Some row' /\
           c' = row_min row' /\
           forall k, dict_get row' k = Some c' -> k = n) /\
      (c' = c -> dict_get (next_hop r') d = dict_get (next_hop r) d)).
Proof.
  split; [apply tie_mid_state|].
  do 5 (split; [reflexivity|]).
  assert (HT : ~ consistent_at tie_after "D").
  { intros (c & row & h & Hc & Hrow & _ & Hh & _ & Hleast).
    injection Hc as <-. injection Hrow as <-. injection Hh as <-.
    specialize (Hleast "B" eq_refl). discriminate. }
  split; [exact HT|]. split.
  - intros H. apply HT, H. simpl; auto 6.
  - exact merge_hop.
Qed.

(** ** Instances *)

Lemma poisoned_reverse_spec_witness :
  exists dv, poisoned_reverse tie_after (Some "C") = Ok dv /\
    (forall D c, dict_get (dis_vec tie_after) D = Some c ->
       (dict_get (next_hop tie_after) D = Some (Some "C") -> D <> "C" ->
          dict_get dv D = Some Inf) /\
       (dict_get (next_hop tie_after) D <> Some (Some "C") \/ D = "C" ->
          dict_get dv D = Some c)) /\
    (forall D, dict_get (dis_vec tie_after) D = None -> dict_get dv D = None).
Proof.
  apply (poisoned_reverse_spec tie_after "C"). intros d H. exact H.
Defined.

Lemma update_net_non_increasing_witness :
  (forall d row m c,
      dict_get (vec_table tie_init) d = Some row -> dict_get row m = Some c ->
      exists row' c',
        dict_get (vec_table tie_mid) d = Some row' /\
        dict_get row' m = Some c' /\
        (c' = c \/ cost_ltb c' c = true)) /\
  (forall d c,
      dict_get (dis_vec tie_init) d = Some c ->
      exists c', dict_get (dis_vec tie_mid) d = Some c' /\
                 (c' = c \/ cost_ltb c' c = true)).
Proof.
  apply (update_net_non_increasing tie_init "C" tie_from_c tie_mid true).
  reflexivity.
Defined.

Lemma self_entry_fixed_witness :
  dict_get (dis_vec tie_after) "A" = Some (Fin 0) /\
  dict_get (next_hop tie_after) "A" = Some (Some "A") /\
  forall n dv r' b,
    update_net tie_after n dv = Ok (r', b) ->
    name r' = "A" /\
    dict_get (dis_vec r') "A" = dict_get (dis_vec tie_after) "A" /\
    dict_get (next_hop r') "A" = dict_get (next_hop tie_after) "A".
Proof.
  apply (self_entry_fixed tie_names tie_after).
  - apply tie_after_state.
  - simpl. auto.
Defined.

Lemma update_net_not_neighbor_witness :
  update_net tie_init "D" tie_from_c = Raise (KeyError "D").
Proof.
  apply (update_net_not_neighbor tie_router tie_names tie_init "D" tie_from_c).
  - reflexivity.
  - exists "B". split; [simpl; auto | discriminate].
  - reflexivity.
Defined.

Lemma linked_network_raises_witness :
  exists e, distance_vector two_routers 1 = Raised e.
Proof.
  apply (linked_network_raises two_routers 0).
  exists "A", (mkRouter "A" [("B", 1)] [] [] []), "B".
  split; [simpl; auto|]. split; [discriminate|].
  split; [simpl; auto | discriminate].
Defined.

(** * Further properties *)

(** ** The unpoisoned export *)

Lemma poison_loop_none (self : Router) (dests : list string)
      (dv : dict cost) :
  (forall d, In d dests -> In d (dict_keys (dis_vec self))) ->
  exists dv', poison_loop self None dests dv = Ok dv' /\
    (forall d, In d dests -> dict_get dv' d = dict_get (dis_vec self) d) /\
    (forall d, ~ In d dests -> dict_get dv' d = dict_get dv d).
Proof.
  revert dv. induction dests as [|x t IH]; intros dv Hd;
    cbn [poison_loop].
  - exists dv. split; [reflexivity|]. split; [intros d []|auto].
  - destruct (proj1 (dict_get_in_keys _ x) (Hd x (or_introl eq_refl)))
      as [cx Hcx].
    unfold poison_entry, getitem. rewrite Hcx. cbn [bind].
    destruct (IH (dict_set dv x cx)) as (dv' & Hdv & Hin & Hout).
    { intros d H. apply Hd. simpl; auto. }
    exists dv'. split; [exact Hdv|]. split.
    + intros d Hdin.
      destruct (in_dec string_dec d t) as [Hdt | Hdt]; auto.
      destruct Hdin as [-> | Hdin]; [|contradiction].
      rewrite (Hout _ Hdt), dict_get_set_eq. now rewrite Hcx.
    + intros d Hdn. simpl in Hdn. rewrite Hout by tauto.
      apply dict_get_set_neq. tauto.
Qed.

(** X1.  Without a target, [poisoned_reverse] never raises, whatever the
    state of the router, and returns a vector with exactly the entries of
    [dis_vec]. *)
Theorem poisoned_reverse_none (r : Router) :
  exists dv, poisoned_reverse r None = Ok dv /\
             forall D, dict_get dv D = dict_get (dis_vec r) D.
Proof.
  unfold poisoned_reverse.
  destruct (poison_loop_none r (dict_keys (dis_vec r)) [] (fun d H => H))
    as (dv & Hdv & Hin & Hout).
  exists dv. split; [exact Hdv|]. intros D.
  destruct (in_dec string_dec D (dict_keys (dis_vec r))) as [HD | HD].
  - now apply Hin.
  - rewrite (Hout _ HD). simpl. symmetry. now apply dict_get_none_keys.
Qed.

(** ** The flag a merge returns *)

Lemma lowered_refl (o : option cost) : lowered o o.
Proof. destruct o; simpl; unfold non_increasing; auto. Qed.

Lemma lowered_trans (a b c : option cost) :
  lowered a b -> lowered b c -> lowered a c.
Proof.
  destruct a, b, c; simpl; try tauto. apply non_increasing_trans.
Qed.

Lemma tracks_refl (s : Router) : tracks s s.
Proof. split; intros; apply lowered_refl. Qed.

Lemma tracks_trans (a b c : Router) : tracks a b -> tracks b c -> tracks a c.
Proof.
  intros [T1 D1] [T2 D2]. split; intros; eapply lowered_trans; eauto.
Qed.

Lemma visit_row (n : string) (dv : dict pyval) (s : Router) (u : bool)
      (d : string) (s' : Router) (u' : bool) :
  visit n dv s u d s' u' ->
  exists row old new_cost,
    dict_get (vec_table s) d = Some row /\
    dict_get row n = Some old /\
    dict_get (vec_table s') d = Some (merged_row row n old new_cost) /\
    (u' = false -> cost_ltb new_cost old = false).
Proof.
  intros [c a new_cost row old min_cost cur].
  exists row, old, new_cost. repeat split; auto.
  - rewrite Htab. unfold merged_row.
    destruct (cost_ltb new_cost old); [apply dict_get_set_eq | exact Hrow].
  - intros ->. destruct (cost_ltb min_cost cur).
    + destruct Hres as (hop & _ & _ & _ & Hu). discriminate.
    + destruct Hres as (_ & _ & Hu). now destruct (cost_ltb new_cost old).
Qed.

Lemma visit_tracks (n : string) (dv : dict pyval) (s : Router) (u : bool)
      (d : string) (s' : Router) (u' : bool) :
  visit n dv s u d s' u' -> tracks s s'.
Proof.
  intros Hv. split.
  - intros d0 m. destruct (string_dec d d0) as [<- | Hd].
    + destruct (visit_row _ _ _ _ _ _ _ Hv)
        as (row & old & new_cost & Hrow & Hold & Hrow' & _).
      unfold table_entry. rewrite Hrow, Hrow'. unfold merged_row.
      destruct (cost_ltb new_cost old) eqn:Hlt; [|apply lowered_refl].
      destruct (string_dec n m) as [<- | Hm].
      * rewrite Hold, dict_get_set_eq. simpl. right. exact Hlt.
      * rewrite dict_get_set_neq by exact Hm. apply lowered_refl.
    + destruct (visit_frame _ _ _ _ _ _ _ d0 Hv Hd) as (_ & _ & H).
      unfold table_entry. rewrite H. apply lowered_refl.
  - intros d0. destruct (string_dec d d0) as [<- | Hd].
    + destruct Hv as [c a new_cost row old min_cost cur].
      rewrite Hcur. destruct (cost_ltb min_cost cur) eqn:Hlow.
      * destruct Hres as (hop & _ & -> & _). rewrite dict_get_set_eq.
        simpl. right. exact Hlow.
      * destruct Hres as (-> & _). rewrite Hcur. apply lowered_refl.
    + destruct (visit_frame _ _ _ _ _ _ _ d0 Hv Hd) as (-> & _).
      apply lowered_refl.
Qed.

Lemma strictly_lower_after (a b c : Router) :
  strictly_lower a b -> tracks b c -> strictly_lower a c.
Proof.
  intros [(d & m & x & x' & Hx & Hx' & Hlt) | (d & x & x' & Hx & Hx' & Hlt)]
         [T D].
  - left. specialize (T d m). rewrite Hx' in T.
    destruct (table_entry c d m) as [y|] eqn:Hy; [|destruct T].
    exists d, m, x, y. repeat split; auto.
    destruct T as [-> | T]; [exact Hlt | eapply cost_ltb_trans; eauto].
  - right. specialize (D d). rewrite Hx' in D.
    destruct (dict_get (dis_vec c) d) as [y|] eqn:Hy; [|destruct D].
    exists d, x, y. repeat split; auto.
    destruct D as [-> | D]; [exact Hlt | eapply cost_ltb_trans; eauto].
Qed.

Lemma strictly_lower_before (a b c : Router) :
  tracks a b -> strictly_lower b c -> strictly_lower a c.
Proof.
  intros [T D]
         [(d & m & x & x' & Hx & Hx' & Hlt) | (d & x & x' & Hx & Hx' & Hlt)].
  - left. specialize (T d m). rewrite Hx in T.
    destruct (table_entry a d m) as [y|] eqn:Hy; [|destruct T].
    exists d, m, y, x'. repeat split; auto.
    destruct T as [-> | T]; [exact Hlt | eapply cost_ltb_trans; eauto].
  - right. specialize (D d). rewrite Hx in D.
    destruct (dict_get (dis_vec a) d) as [y|] eqn:Hy; [|destruct D].
    exists d, y, x'. repeat split; auto.
    destruct D as [-> | D]; [exact Hlt | eapply cost_ltb_trans; eauto].
Qed.

Lemma strictly_lower_irrefl (s : Router) : ~ strictly_lower s s.
Proof.
  intros [(d & m & x & x' & Hx & Hx' & Hlt) | (d & x & x' & Hx & Hx' & Hlt)];
    rewrite Hx in Hx'; injection Hx' as <-;
    rewrite cost_ltb_irrefl in Hlt; discriminate.
Qed.

Lemma router_eq (s s' : Router) :
  name s' = name s -> neighbors s' = neighbors s ->
  dis_vec s' = dis_vec s -> next_hop s' = next_hop s ->
  vec_table s' = vec_table s -> s' = s.
Proof. destruct s, s'; simpl; intros; subst; reflexivity. Qed.

(** A visit that leaves the flag down has written nothing; one that
    raises it has strictly lowered an entry. *)
Lemma visit_flag (n : string) (dv : dict pyval) (s : Router) (u : bool)
      (d : string) (s' : Router) (u' : bool) :
  visit n dv s u d s' u' ->
  (u' = false -> s' = s /\ u = false) /\
  (u' = true -> u = true \/ strictly_lower s s').
Proof.
  intros Hv. pose proof Hv as [c a new_cost row old min_cost cur]. split.
  - intros ->. destruct (cost_ltb min_cost cur).
    + destruct Hres as (hop & _ & _ & _ & Hu). discriminate.
    + destruct Hres as (Hdv & Hnh & Hu).
      destruct (cost_ltb new_cost old); [discriminate|].
      split; [|auto]. now apply router_eq.
  - intros ->. destruct (cost_ltb min_cost cur) eqn:Hlow.
    + right. right. destruct Hres as (hop & _ & Hdv & _).
      exists d, cur, min_cost. rewrite Hdv, dict_get_set_eq. auto.
    + destruct Hres as (_ & _ & Hu).
      destruct (cost_ltb new_cost old) eqn:Hlt; [|auto].
      right. left. exists d, n, old, new_cost.
      unfold table_entry. rewrite Hrow, Htab, dict_get_set_eq.
      unfold merged_row. rewrite Hlt, dict_get_set_eq. auto.
Qed.

Lemma update_loop_flag (n : string) (dv : dict pyval) (dests : list string)
      (r : Router) (r' : Router) (b : bool) :
  update_loop n dv dests (r, false) = Ok (r', b) ->
  tracks r r' /\ (b = false -> r' = r) /\ (b = true -> strictly_lower r r').
Proof.
  intros H.
  apply (update_loop_inv
           (fun s u => tracks r s /\ (u = false -> s = r) /\
                       (u = true -> strictly_lower r s)) n dv dests)
    with (s := r) (u := false) (u' := b);
    [|split; [apply tracks_refl | split; [auto | discriminate]]|exact H].
  intros s u d s' u' _ (Ht & Hf & Hs) Hstep.
  destruct (update_entry_cases _ _ _ _ _ _ _ Hstep)
    as [(_ & -> & ->) | [_ Hv]]; [auto|].
  pose proof (visit_tracks _ _ _ _ _ _ _ Hv) as Ht'.
  destruct (visit_flag _ _ _ _ _ _ _ Hv) as [Hdown Hup].
  split; [eapply tracks_trans; eauto|]. split.
  - intros Hu'. destruct (Hdown Hu') as [-> Hu]. auto.
  - intros Hu'. destruct (Hup Hu') as [Hu | Hlow].
    + eapply strictly_lower_after; eauto.
    + eapply strictly_lower_before; eauto.
Qed.

(** X2.  The flag of a merge that returns is exact: it is [False] if and
    only if the router is left as it was; when it is [True] some entry of
    [vec_table] or [dis_vec] is strictly lower than before. *)
Theorem update_net_flag (r : Router) (n : string) (dv : dict pyval)
        (r' : Router) (b : bool) :
  update_net r n dv = Ok (r', b) ->
  (b = false <-> r' = r) /\ (b = true -> strictly_lower r r').
Proof.
  intros H. destruct (update_loop_flag _ _ _ _ _ _ H) as (_ & Hf & Hs).
  split; [split|]; auto.
  intros ->. destruct b; [|reflexivity].
  exfalso. apply (strictly_lower_irrefl r). auto.
Qed.

(** ** Merging the same vector again *)

Lemma noop_at_entry (n : string) (dv : dict pyval) (s : Router) (u : bool)
      (d : string) :
  noop_at n dv s d -> update_entry n dv (s, u) d = Ok (s, u).
Proof.
  intros [-> | (c & a & nc & row & old & m & cur &
                Hc & Ha & Hadd & Hrow & Hold & Hlt & Hmin & Hcur & Hlow)].
  - apply update_entry_self.
  - unfold update_entry, getitem.
    destruct (String.eqb d (name s)); [reflexivity|].
    rewrite Hc, Ha. cbn [bind]. rewrite Hadd. cbn [bind].
    rewrite Hrow. cbn [bind]. rewrite Hold. cbn [bind].
    rewrite Hlt, Hrow. cbn [bind]. rewrite Hmin. cbn [bind].
    rewrite Hcur. cbn [bind]. now rewrite Hlow.
Qed.

Lemma noop_at_frame (n : string) (dv : dict pyval) (s s' : Router)
      (d : string) :
  name s' = name s -> neighbors s' = neighbors s -> same_at d s s' ->
  noop_at n dv s d -> noop_at n dv s' d.
Proof.
  intros Hn Hb (Hd & _ & Ht)
         [-> | (c & a & nc & row & old & m & cur &
                Hc & Ha & Hadd & Hrow & Hold & Hlt & Hmin & Hcur & Hlow)].
  - left. now rewrite Hn.
  - right. exists c, a, nc, row, old, m, cur.
    rewrite Hb, Hd, Ht. repeat split; assumption.
Qed.

Lemma visit_settles (n : string) (dv : dict pyval) (s : Router) (u : bool)
      (d : string) (s' : Router) (u' : bool) :
  visit n dv s u d s' u' -> noop_at n dv s' d.
Proof.
  intros [c a new_cost row old min_cost cur]. right.
  exists c, a, new_cost, (merged_row row n old new_cost),
         (if cost_ltb new_cost old then new_cost else old), min_cost,
         (if cost_ltb min_cost cur then min_cost else cur).
  rewrite Hnbrs. repeat split; auto.
  - rewrite Htab. unfold merged_row.
    destruct (cost_ltb new_cost old); [apply dict_get_set_eq | exact Hrow].
  - unfold merged_row.
    destruct (cost_ltb new_cost old); [apply dict_get_set_eq | exact Hold].
  - destruct (cost_ltb new_cost old) eqn:Hlt;
      [apply cost_ltb_irrefl | exact Hlt].
  - destruct (cost_ltb min_cost cur).
    + destruct Hres as (hop & _ & -> & _). apply dict_get_set_eq.
    + destruct Hres as (-> & _). exact Hcur.
  - destruct (cost_ltb min_cost cur) eqn:Hlow;
      [apply cost_ltb_irrefl | exact Hlow].
Qed.

Lemma update_entry_settles (n : string) (dv : dict pyval) (s : Router)
      (u : bool) (d : string) (s' : Router) (u' : bool) :
  update_entry n dv (s, u) d = Ok (s', u') -> noop_at n dv s' d.
Proof.
  intros H.
  destruct (update_entry_cases _ _ _ _ _ _ _ H) as [(-> & -> & _) | [_ Hv]].
  - now left.
  - eapply visit_settles; eauto.
Qed.

Lemma update_entry_keeps_settled (n : string) (dv : dict pyval) (s : Router)
      (u : bool) (x : string) (s' : Router) (u' : bool) (d : string) :
  update_entry n dv (s, u) x = Ok (s', u') ->
  noop_at n dv s d -> noop_at n dv s' d.
Proof.
  intros H Hd. destruct (string_dec x d) as [-> | Hne].
  - rewrite (noop_at_entry _ _ _ u _ Hd) in H. now injection H as <- _.
  - destruct (update_entry_shape _ _ _ _ _ _ _ H) as (Hn & Hb & _).
    eapply noop_at_frame; eauto.
    eapply update_entry_frame; eauto.
Qed.

Lemma update_loop_settles (n : string) (dv : dict pyval)
      (dests : list string) (s : Router) (u : bool) (s' : Router)
      (u' : bool) :
  update_loop n dv dests (s, u) = Ok (s', u') ->
  forall d, In d dests -> noop_at n dv s' d.
Proof.
  revert s u. induction dests as [|x t IH]; intros s u H d Hd;
    [destruct Hd|].
  cbn [update_loop] in H.
  destruct (update_entry n dv (s, u) x) as [[s1 u1]|] eqn:E; [|discriminate].
  cbn [bind] in H.
  destruct (in_dec string_dec d t) as [Hdt | Hdt]; [eapply IH; eauto|].
  destruct Hd as [-> | Hd]; [|contradiction].
  apply (update_loop_inv (fun x _ => noop_at n dv x d) n dv t)
    with (s := s1) (u := u1) (u' := u');
    [|eapply update_entry_settles; eauto|exact H].
  intros s0 u0 d0 s0' u0' _ Hs Hstep.
  eapply update_entry_keeps_settled; eauto.
Qed.

Lemma update_loop_noop (n : string) (dv : dict pyval) (dests : list string)
      (s : Router) (u : bool) :
  (forall d, In d dests -> noop_at n dv s d) ->
  update_loop n dv dests (s, u) = Ok (s, u).
Proof.
  induction dests as [|x t IH]; intros H; cbn [update_loop]; [reflexivity|].
  rewrite (noop_at_entry _ _ _ u _ (H x (or_introl eq_refl))). cbn [bind].
  apply IH. intros d Hd. apply H. simpl; auto.
Qed.

(** X3.  Merging is idempotent: after a merge that returns, merging the
    same vector for the same neighbor again returns, changes nothing and
    reports [False]. *)
Theorem update_net_idempotent (r : Router) (n : string) (dv : dict pyval)
        (r' : Router) (b : bool) :
  update_net r n dv = Ok (r', b) ->
  update_net r' n dv = Ok (r', false).
Proof.
  intros H. unfold update_net.
  destruct (update_net_shape _ _ _ _ _ H) as (_ & _ & ->).
  apply update_loop_noop. eapply update_loop_settles; eauto.
Qed.

(** ** When a merge returns *)

Lemma update_entry_tracks (n : string) (dv : dict pyval) (s : Router)
      (u : bool) (d : string) (s' : Router) (u' : bool) :
  update_entry n dv (s, u) d = Ok (s', u') -> tracks s s'.
Proof.
  intros H.
  destruct (update_entry_cases _ _ _ _ _ _ _ H) as [(_ & -> & _) | [_ Hv]].
  - apply tracks_refl.
  - eapply visit_tracks; eauto.
Qed.

Lemma mergeable_later (n : string) (dv : dict pyval) (s s' : Router)
      (d : string) :
  neighbors s' = neighbors s -> tracks s s' ->
  mergeable n dv s d -> mergeable n dv s' d.
Proof.
  intros Hb [T _] (c & x & e & Hc & Hx & Hf & He).
  specialize (T d n). rewrite He in T.
  destruct (table_entry s' d n) as [e'|] eqn:He'; [|destruct T].
  exists c, x, e'. rewrite Hb. auto.
Qed.

Lemma mergeable_earlier (n : string) (dv : dict pyval) (s s' : Router)
      (d : string) :
  neighbors s' = neighbors s -> tracks s s' ->
  mergeable n dv s' d -> mergeable n dv s d.
Proof.
  intros Hb [T _] (c & x & e & Hc & Hx & Hf & He).
  specialize (T d n). rewrite He in T.
  destruct (table_entry s d n) as [e'|] eqn:He'; [|destruct T].
  exists c, x, e'. rewrite <- Hb. auto.
Qed.

Lemma visit_mergeable (n : string) (dv : dict pyval) (s : Router) (u : bool)
      (d : string) (s' : Router) (u' : bool) :
  visit n dv s u d s' u' -> mergeable n dv s d.
Proof.
  intros [c a new_cost row old min_cost cur].
  destruct a as [x|e]; [|discriminate].
  exists c, x, old. unfold table_entry. rewrite Hrow.
  repeat split; auto.
  intros ->. simpl in Hadd. now destruct (float_ok c).
Qed.

Lemma py_min_in {A : Type} (ltb : A -> A -> bool) (l : list A) (m : A) :
  py_min ltb l = Ok m -> In m l.
Proof.
  destruct l as [|x t]; simpl; [discriminate|].
  intros [= <-]. apply min_from_in.
Qed.

Lemma mergeable_entry (n : string) (dv : dict pyval) (s : Router) (u : bool)
      (d : string) :
  In d (dict_keys (dis_vec s)) -> mergeable n dv s d ->
  exists s' u', update_entry n dv (s, u) d = Ok (s', u').
Proof.
  intros Hd (c & x & e & Hc & Hx & Hf & He).
  unfold update_entry, getitem.
  destruct (String.eqb d (name s)); [eauto|].
  rewrite Hc, Hx. cbn [bind].
  assert (Hadd : exists nc, py_add c (PCost x) = Ok nc).
  { destruct x as [z|]; simpl; [eauto|]. rewrite Hf by reflexivity. eauto. }
  destruct Hadd as [nc ->]. cbn [bind].
  unfold table_entry in He.
  destruct (dict_get (vec_table s) d) as [row|] eqn:Hrow; [|discriminate].
  cbn [bind]. rewrite He. cbn [bind].
  set (row1 := merged_row row n e nc).
  assert (Hrow1 : dict_get
            (vec_table (fst (if cost_ltb nc e
                             then (set_vec_table s d (dict_set row n nc), true)
                             else (s, u)))) d = Some row1).
  { unfold row1, merged_row. destruct (cost_ltb nc e); simpl; auto.
    apply dict_get_set_eq. }
  assert (Hn1 : exists y, dict_get row1 n = Some y).
  { unfold row1, merged_row. destruct (cost_ltb nc e); eauto.
    rewrite dict_get_set_eq. eauto. }
  assert (Hmin : exists m, py_min cost_ltb (dict_values row1) = Ok m).
  { destruct Hn1 as [y Hy]. apply dict_get_in in Hy.
    destruct row1 as [|kv t]; [destruct Hy | simpl; eauto]. }
  destruct Hmin as [m Hm].
  assert (Hhop : exists h, py_min String.ltb (hops_at row1 m) = Ok h).
  { apply py_min_in in Hm. apply in_map_iff in Hm.
    destruct Hm as ([k v] & Hv & Hin). simpl in Hv. subst v.
    apply hops_at_in in Hin.
    destruct (hops_at row1 m) as [|h t]; [destruct Hin | simpl; eauto]. }
  destruct Hhop as [h Hh].
  apply dict_get_in_keys in Hd. destruct Hd as [cur Hcur].
  destruct (cost_ltb nc e); cbn [fst] in Hrow1; rewrite Hrow1; cbn [bind];
    rewrite Hm; cbn [bind]; cbn [set_vec_table dis_vec]; rewrite Hcur;
    cbn [bind]; destruct (cost_ltb m cur); try rewrite Hh; cbn [bind]; eauto.
Qed.

Lemma update_loop_returns (n : string) (dv : dict pyval)
      (dests : list string) (s : Router) (u : bool) :
  (forall d, In d dests -> In d (dict_keys (dis_vec s))) ->
  (forall d, In d dests -> d <> name s -> mergeable n dv s d) ->
  exists s' u', update_loop n dv dests (s, u) = Ok (s', u').
Proof.
  revert s u. induction dests as [|x t IH]; intros s u Hk Hm;
    cbn [update_loop]; [eauto|].
  assert (Hx : exists s1 u1, update_entry n dv (s, u) x = Ok (s1, u1)).
  { destruct (string_dec x (name s)) as [-> | Hne].
    - rewrite update_entry_self. eauto.
    - apply mergeable_entry; [apply Hk | apply Hm]; simpl; auto. }
  destruct Hx as (s1 & u1 & Hx). rewrite Hx. cbn [bind].
  destruct (update_entry_shape _ _ _ _ _ _ _ Hx) as (Hn & Hb & Hkeys).
  apply IH.
  - intros d Hd. rewrite Hkeys. apply Hk. simpl; auto.
  - intros d Hd Hne. rewrite Hn in Hne.
    apply (mergeable_later n dv s s1 d Hb);
      [eapply update_entry_tracks; eauto | apply Hm; simpl; auto].
Qed.

Lemma update_loop_visited (n : string) (dv : dict pyval)
      (dests : list string) (s : Router) (u : bool) (s' : Router)
      (u' : bool) :
  update_loop n dv dests (s, u) = Ok (s', u') ->
  forall d, In d dests -> d <> name s -> mergeable n dv s d.
Proof.
  revert s u. induction dests as [|x t IH]; intros s u H d Hd Hne;
    [destruct Hd|].
  cbn [update_loop] in H.
  destruct (update_entry n dv (s, u) x) as [[s1 u1]|] eqn:E; [|discriminate].
  cbn [bind] in H.
  destruct (string_dec x d) as [-> | Hxd].
  - destruct (update_entry_cases _ _ _ _ _ _ _ E) as [(Hd' & _) | [_ Hv]];
      [contradiction|]. eapply visit_mergeable; eauto.
  - destruct Hd as [Hd | Hd]; [contradiction|].
    destruct (update_entry_shape _ _ _ _ _ _ _ E) as (Hn & Hb & _).
    apply (mergeable_earlier n dv s s1 d Hb);
      [eapply update_entry_tracks; eauto|].
    eapply IH; eauto. now rewrite Hn.
Qed.

(** X4.  A merge returns exactly when, for every destination of [dis_vec]
    other than the router, the neighbor is linked, the vector holds a
    number under the destination (and adding it to the link cost does not
    overflow), and the row of the destination has an entry for the
    neighbor; otherwise it raises. *)
Theorem update_net_returns_iff (r : Router) (n : string) (dv : dict pyval) :
  (exists r' b, update_net r n dv = Ok (r', b)) <->
  (forall d, In d (dict_keys (dis_vec r)) -> d <> name r ->
             mergeable n dv r d).
Proof.
  unfold update_net. split.
  - intros (r' & b & H). eapply update_loop_visited; eauto.
  - intros H. apply update_loop_returns; auto.
Qed.

Lemma phase_state_rows (routers : list string) (r : Router) :
  phase_state routers r ->
  forall d n c, In d routers -> d <> name r ->
    dict_get (neighbors r) n = Some c ->
    exists e, table_entry r d n = Some e.
Proof.
  induction 1 as [r0 r Hnd Hinit | r n0 dv r' b Hst IH Hup];
    intros d n c Hd Hne Hc.
  - destruct (init_net_ok r0 routers) as (r1 & Hr1 & Hn & Hb & Hspec).
    rewrite Hinit in Hr1. injection Hr1 as <-.
    destruct (Hspec d Hd) as (_ & _ & _ & row & Hrow & Hin & _).
    rewrite Hb in Hc. unfold table_entry. rewrite Hrow, (Hin _ _ Hc). eauto.
  - destruct (update_net_shape _ _ _ _ _ Hup) as (Hn & Hb & _).
    rewrite Hn in Hne. rewrite Hb in Hc.
    destruct (IH d n c Hd Hne Hc) as [e He].
    destruct (update_loop_flag _ _ _ _ _ _ Hup) as ([T _] & _).
    specialize (T d n). rewrite He in T.
    destruct (table_entry r' d n) as [e'|]; [eauto | destruct T].
Qed.

(** X5.  In every state of a phase whose destinations are all listed, a
    merge for a linked neighbor returns as soon as the vector holds a
    number for every destination other than the router and the link cost
    converts to a float. *)
Theorem update_net_total (routers : list string) (r : Router) (n : string)
        (c : Z) (dv : dict pyval) :
  phase_state routers r ->
  (forall d, In d (dict_keys (dis_vec r)) -> In d routers) ->
  dict_get (neighbors r) n = Some c -> float_ok c = true ->
  (forall d, In d (dict_keys (dis_vec r)) -> d <> name r ->
             exists x, dict_get dv d = Some (PCost x)) ->
  exists r' b, update_net r n dv = Ok (r', b).
Proof.
  intros Hst Hlisted Hc Hf Hdv. unfold update_net.
  apply update_loop_returns; [auto|].
  intros d Hd Hne. destruct (Hdv d Hd Hne) as [x Hx].
  destruct (phase_state_rows _ _ Hst d n c (Hlisted d Hd) Hne Hc) as [e He].
  exists c, x, e. auto.
Qed.

(** ** The keys a merge keeps *)

Lemma same_keys_refl (s : Router) : same_keys s s.
Proof. repeat split. eauto. Qed.

Lemma same_keys_trans (a b c : Router) :
  same_keys a b -> same_keys b c -> same_keys a c.
Proof.
  intros (H1 & H2 & H3 & H4 & H5) (G1 & G2 & G3 & G4 & G5).
  repeat split; try congruence.
  intros d row Hrow. destruct (H5 _ _ Hrow) as (row1 & Hrow1 & Hk1).
  destruct (G5 _ _ Hrow1) as (row2 & Hrow2 & Hk2).
  exists row2. split; congruence.
Qed.

Lemma visit_same_keys (n : string) (dv : dict pyval) (s : Router) (u : bool)
      (d : string) (s' : Router) (u' : bool) :
  visit n dv s u d s' u' -> same_keys s s'.
Proof.
  intros Hv. pose proof (visit_keys _ _ _ _ _ _ _ Hv) as Hk.
  destruct Hv as [c a new_cost row old min_cost cur].
  repeat split; auto.
  - rewrite Htab. destruct (cost_ltb new_cost old); [|reflexivity].
    eapply dict_keys_set_present; eauto.
  - intros d0 row0 Hrow0. rewrite Htab. unfold merged_row.
    destruct (cost_ltb new_cost old); [|eauto].
    destruct (string_dec d d0) as [<- | Hd].
    + rewrite dict_get_set_eq. eexists. split; [reflexivity|].
      rewrite Hrow in Hrow0. injection Hrow0 as <-.
      eapply dict_keys_set_present; eauto.
    + rewrite dict_get_set_neq by exact Hd. eauto.
Qed.

Lemma visit_next_hop_keys (n : string) (dv : dict pyval) (s : Router)
      (u : bool) (d : string) (s' : Router) (u' : bool) :
  visit n dv s u d s' u' -> hops_recorded s ->
  dict_keys (next_hop s') = dict_keys (next_hop s).
Proof.
  intros [c a new_cost row old min_cost cur] Hrec.
  destruct (cost_ltb min_cost cur).
  - destruct Hres as (hop & _ & _ & -> & _).
    assert (Hd : In d (dict_keys (next_hop s)))
      by (apply Hrec, dict_get_in_keys; eauto).
    apply dict_get_in_keys in Hd. destruct Hd as [h Hh].
    eapply dict_keys_set_present; eauto.
  - destruct Hres as (_ & -> & _). reflexivity.
Qed.

(** The keys after a merge that returns. *)
Lemma update_net_keys_kept (r : Router) (n : string) (dv : dict pyval)
        (r' : Router) (b : bool) :
  update_net r n dv = Ok (r', b) ->
  same_keys r r' /\
  (hops_recorded r -> dict_keys (next_hop r') = dict_keys (next_hop r)).
Proof.
  intros H. unfold update_net in H.
  apply (update_loop_inv
           (fun s _ => same_keys r s /\
                       (hops_recorded r ->
                        dict_keys (next_hop s) = dict_keys (next_hop r)))
           n dv (dict_keys (dis_vec r)))
    with (s := r) (u := false) (u' := b);
    [|split; [apply same_keys_refl | reflexivity]|exact H].
  intros s u d s' u' _ [Hs Hnh] Hstep.
  destruct (update_entry_cases _ _ _ _ _ _ _ Hstep)
    as [(_ & -> & _) | [_ Hv]]; [auto|].
  split; [eapply same_keys_trans; eauto using visit_same_keys|].
  intros Hrec. rewrite <- (Hnh Hrec).
  apply (visit_next_hop_keys _ _ _ _ _ _ _ Hv).
  intros x. destruct Hs as (_ & _ & -> & _). rewrite (Hnh Hrec).
  apply Hrec.
Qed.

(** X6.  A merge that returns keeps the router's name and links, the
    destinations of [dis_vec] and of [vec_table] in their order, and the
    columns of every row: it adds and removes no key.  On a router that
    records a next hop for every destination, the keys of [next_hop] are
    kept as well. *)
Theorem update_net_keeps_keys (r : Router) (n : string) (dv : dict pyval)
        (r' : Router) (b : bool) :
  update_net r n dv = Ok (r', b) ->
  same_keys r r' /\
  (hops_recorded r -> dict_keys (next_hop r') = dict_keys (next_hop r)).
Proof. exact (update_net_keys_kept r n dv r' b). Qed.

(** ** The exports of a round *)

Lemma poisoned_reverse_returns (r : Router) (n : string) :
  hops_recorded r -> exists e, poisoned_reverse r (Some n) = Ok e.
Proof.
  intros Hrec. unfold poisoned_reverse.
  destruct (poison_loop_ok r n (dict_keys (dis_vec r)) [] (fun d H => H) Hrec)
    as (e & He & _). eauto.
Qed.

Lemma export_row_ok (r : Router) (targets : list string)
      (row : dict (dict cost)) :
  hops_recorded r ->
  exists row', export_row r targets row = Ok row' /\
    (forall n, In n targets ->
       exists e, dict_get row' n = Some e /\
                 poisoned_reverse r (Some n) = Ok e) /\
    (forall n, ~ In n targets -> dict_get row' n = dict_get row n).
Proof.
  intros Hrec. revert row.
  induction targets as [|x t IH]; intros row; cbn [export_row].
  - exists row. split; [reflexivity|]. split; [intros n []|auto].
  - destruct (poisoned_reverse_returns r x Hrec) as [e He].
    rewrite He. cbn [bind].
    destruct (IH (dict_set row x e)) as (row' & Hrow & Hin & Hout).
    exists row'. split; [exact Hrow|]. split.
    + intros n Hn. destruct (in_dec string_dec n t) as [Hnt | Hnt]; auto.
      destruct Hn as [-> | Hn]; [|contradiction].
      exists e. split; [|exact He].
      rewrite (Hout _ Hnt). apply dict_get_set_eq.
    + intros n Hn. simpl in Hn. rewrite Hout by tauto.
      apply dict_get_set_neq. tauto.
Qed.

Lemma export_all_ok (rs : dict Router) (ks : list string)
      (acc : dict (dict (dict cost))) :
  (forall i r, dict_get rs i = Some r -> hops_recorded r) ->
  (forall i, In i ks -> In i (dict_keys rs)) ->
  exists dvu, export_all rs ks acc = Ok dvu /\
    (forall i r, In i ks -> dict_get rs i = Some r ->
       exists row, dict_get dvu i = Some row /\
         (forall n, In n (dict_keys (neighbors r)) ->
            exists e, dict_get row n = Some e /\
                      poisoned_reverse r (Some n) = Ok e) /\
         (forall n, ~ In n (dict_keys (neighbors r)) ->
            dict_get row n = None)) /\
    (forall i, ~ In i ks -> dict_get dvu i = dict_get acc i).
Proof.
  intros Hrec. revert acc.
  induction ks as [|x t IH]; intros acc Hsub; cbn [export_all].
  - exists acc. split; [reflexivity|]. split; [intros i r []|auto].
  - destruct (proj1 (dict_get_in_keys _ x) (Hsub x (or_introl eq_refl)))
      as [rx Hrx].
    unfold getitem. rewrite Hrx. cbn [bind].
    destruct (export_row_ok rx (dict_keys (neighbors rx)) [] (Hrec _ _ Hrx))
      as (row & Hrow & Hrin & Hrout).
    rewrite Hrow. cbn [bind].
    destruct (IH (dict_set acc x row)) as (dvu & Hdvu & Hin & Hout).
    { intros i Hi. apply Hsub. simpl; auto. }
    exists dvu. split; [exact Hdvu|]. split.
    + intros i r Hi Hr.
      destruct (in_dec string_dec i t) as [Hit | Hit]; auto.
      destruct Hi as [-> | Hi]; [|contradiction].
      rewrite Hrx in Hr. injection Hr as <-.
      exists row. rewrite (Hout _ Hit), dict_get_set_eq.
      repeat split; auto.
    + intros i Hi. simpl in Hi. rewrite Hout by tauto.
      apply dict_get_set_neq. tauto.
Qed.

(** X7.  On routers that record a next hop for every destination (all
    initialized routers), lines 159-163 never raise, and
    [dis_vec_update[i][n]] is the vector router [i] exports to [n],
    [routers[i].poisoned_reverse(n)], for every router [i] and every
    neighbor [n] of [i]; [dis_vec_update[i]] has no other key. *)
Theorem export_all_spec (rs : dict Router) :
  (forall i r, dict_get rs i = Some r -> hops_recorded r) ->
  exists dis_vec_update,
    export_all rs (dict_keys rs) [] = Ok dis_vec_update /\
    forall i r, dict_get rs i = Some r ->
      exists row, dict_get dis_vec_update i = Some row /\
        (forall n, In n (dict_keys (neighbors r)) ->
           exists e, dict_get row n = Some e /\
                     poisoned_reverse r (Some n) = Ok e) /\
        (forall n, ~ In n (dict_keys (neighbors r)) ->
           dict_get row n = None).
Proof.
  intros Hrec.
  destruct (export_all_ok rs (dict_keys rs) [] Hrec (fun i H => H))
    as (dvu & Hdvu & Hin & _).
  exists dvu. split; [exact Hdvu|]. intros i r Hr.
  apply Hin; [|exact Hr]. apply dict_get_in_keys. eauto.
Qed.

(** ** The rounds of a phase *)

(** X8.  As written, the loop of [distance_vector] never runs a second
    round: with fuel for more rounds a phase ends exactly as with fuel for
    one, and when it converges it does so in round 0 with every router as
    [init_net] left it. *)
Theorem phase_single_round (rs : dict Router) (fuel : nat) :
  distance_vector rs (S fuel) = distance_vector rs 1 /\
  forall rs' t,
    distance_vector rs (S fuel) = Converged rs' t ->
    t = O /\ init_all rs = Ok rs'.
Proof.
  split.
  - unfold distance_vector. destruct (init_all rs) as [rs1|]; [|reflexivity].
    cbn [rounds]. destruct (round rs1) as [[rs2 conv]|] eqn:E; [|reflexivity].
    destruct (round_dicts _ _ _ E) as (_ & -> & _). reflexivity.
  - intros rs' t H. destruct (converged_quiet _ _ _ _ H) as (Hi & Ht & _).
    auto.
Qed.

(** ** Setting and deleting links *)

Lemma dict_get_set {V : Type} (m : dict V) (k k' : string) (v : V) :
  dict_get (dict_set m k v) k' =
  if String.eqb k k' then Some v else dict_get m k'.
Proof.
  destruct (String.eqb k k') eqn:E.
  - apply String.eqb_eq in E. subst. apply dict_get_set_eq.
  - apply String.eqb_neq in E. now apply dict_get_set_neq.
Qed.

Lemma dict_get_remove_neq {V : Type} (m : dict V) (k k' : string) :
  k <> k' -> dict_get (dict_remove m k) k' = dict_get m k'.
Proof.
  intros Hne. induction m as [|[k0 v0] t IH]; simpl; [reflexivity|].
  destruct (String.eqb k0 k) eqn:E; simpl.
  - apply String.eqb_eq in E. subst k0.
    apply String.eqb_neq in Hne. now rewrite Hne.
  - now rewrite IH.
Qed.

Lemma dict_get_remove_eq {V : Type} (m : dict V) (k : string) :
  NoDup (dict_keys m) -> dict_get (dict_remove m k) k = None.
Proof.
  induction m as [|[k0 v0] t IH]; simpl; [reflexivity|].
  intros Hnd. inversion Hnd as [|? ? Hni Hnd']; subst.
  destruct (String.eqb k0 k) eqn:E; simpl.
  - apply String.eqb_eq in E. subst k0. now apply dict_get_none_keys.
  - rewrite E. auto.
Qed.

Lemma dict_keys_remove_in {V : Type} (m : dict V) (k x : string) :
  In x (dict_keys (dict_remove m k)) -> In x (dict_keys m).
Proof.
  induction m as [|[k0 v0] t IH]; simpl; [tauto|].
  destruct (String.eqb k0 k); simpl; tauto.
Qed.

Lemma dict_keys_remove_nodup {V : Type} (m : dict V) (k : string) :
  NoDup (dict_keys m) -> NoDup (dict_keys (dict_remove m k)).
Proof.
  induction m as [|[k0 v0] t IH]; simpl; [auto|].
  intros Hnd. inversion Hnd as [|? ? Hni Hnd']; subst.
  destruct (String.eqb k0 k); simpl; [exact Hnd'|].
  constructor; [|auto]. intros Hin. apply Hni.
  eapply dict_keys_remove_in; eauto.
Qed.

Lemma link_unique (rs : dict Router) (u v : string) (c c' : Z) :
  link rs u v c -> link rs u v c' -> c = c'.
Proof. intros (r & Hr & Hc) (r' & Hr' & Hc'). congruence. Qed.

Lemma link_link_cost (rs : dict Router) (u v : string) (c : Z) :
  link rs u v c <-> link_cost rs u v = Some c.
Proof.
  unfold link, link_cost. split.
  - intros (r & -> & Hc). exact Hc.
  - destruct (dict_get rs u) as [r|]; [eauto | discriminate].
Qed.

Lemma same_link_swap (s d u v : string) :
  same_link s d v u = same_link s d u v.
Proof.
  unfold same_link.
  destruct (String.eqb s u), (String.eqb d v), (String.eqb d u),
    (String.eqb s v); reflexivity.
Qed.

Ltac eqb_subst :=
  repeat match goal with
         | H : String.eqb _ _ = true |- _ => apply String.eqb_eq in H; subst
         | H : String.eqb ?x ?x = false |- _ =>
             rewrite String.eqb_refl in H; discriminate
         end.

Lemma add_link_unfold (rs : dict Router) (s d : string) (c : Z)
      (rs' : dict Router) :
  add_link rs (s, d, c) = Ok rs' ->
  exists a b,
    dict_get rs s = Some a /\
    dict_get (dict_set rs s (set_neighbor a d c)) d = Some b /\
    rs' = dict_set (dict_set rs s (set_neighbor a d c)) d (set_neighbor b s c).
Proof.
  unfold add_link, getitem.
  destruct (dict_get rs s) as [a|]; [|discriminate]. cbn [bind].
  destruct (dict_get (dict_set rs s (set_neighbor a d c)) d) as [b|] eqn:Hb;
    [|discriminate].
  cbn [bind]. intros [= <-]. exists a, b. auto.
Qed.

(** The links after [add_link]: the pair is linked at cost [c] in both
    directions, every other link is as before. *)
Lemma add_link_cost (rs : dict Router) (s d : string) (c : Z)
      (rs' : dict Router) :
  add_link rs (s, d, c) = Ok rs' ->
  dict_keys rs' = dict_keys rs /\
  forall u v,
    link_cost rs' u v = if same_link s d u v then Some c else link_cost rs u v.
Proof.
  intros H. destruct (add_link_unfold _ _ _ _ _ H) as (a & b & Ha & Hb & ->).
  split.
  - rewrite (dict_keys_set_present _ _ _ _ Hb).
    eapply dict_keys_set_present; eauto.
  - intros u v. unfold link_cost, same_link.
    rewrite dict_get_set in Hb. rewrite !dict_get_set.
    destruct (String.eqb s d) eqn:Esd, (String.eqb d u) eqn:Edu,
      (String.eqb s u) eqn:Esu, (String.eqb s v) eqn:Esv,
      (String.eqb d v) eqn:Edv;
      eqb_subst; try (injection Hb as <-); simpl;
      rewrite ?dict_get_set, ?String.eqb_refl, ?Esv, ?Edv, ?Esd, ?Ha, ?Hb;
      try reflexivity.
Qed.

Lemma dict_get_remove {V : Type} (m : dict V) (k k' : string) :
  NoDup (dict_keys m) ->
  dict_get (dict_remove m k) k' =
  if String.eqb k k' then None else dict_get m k'.
Proof.
  intros Hnd. destruct (String.eqb k k') eqn:E.
  - apply String.eqb_eq in E. subst. now apply dict_get_remove_eq.
  - apply String.eqb_neq in E. now apply dict_get_remove_neq.
Qed.

Lemma delitem_ok {V : Type} (m m' : dict V) (k : string) :
  delitem m k = Ok m' <->
  (exists v, dict_get m k = Some v) /\ m' = dict_remove m k.
Proof.
  unfold delitem. destruct (dict_get m k) as [v|]; split.
  - intros [= <-]. eauto.
  - intros [_ ->]. reflexivity.
  - discriminate.
  - intros [[v Hv] _]. discriminate.
Qed.

Lemma remove_link_unfold (rs : dict Router) (s d : string)
      (rs' : dict Router) :
  update_link rs (s, d, -1) = Ok rs' ->
  exists a b,
    dict_get rs s = Some a /\
    (exists x, dict_get (neighbors a) d = Some x) /\
    dict_get (dict_set rs s (with_neighbors a (dict_remove (neighbors a) d))) d
    = Some b /\
    (exists y, dict_get (neighbors b) s = Some y) /\
    rs' = dict_set
            (dict_set rs s (with_neighbors a (dict_remove (neighbors a) d)))
            d (with_neighbors b (dict_remove (neighbors b) s)).
Proof.
  unfold update_link, getitem. cbn [Z.eqb Pos.eqb].
  destruct (dict_get rs s) as [a|]; [|discriminate]. cbn [bind].
  destruct (delitem (neighbors a) d) as [na|] eqn:Hna; [|discriminate].
  apply delitem_ok in Hna. destruct Hna as [Hx ->]. cbn [bind].
  destruct (dict_get (dict_set rs s
              (with_neighbors a (dict_remove (neighbors a) d))) d)
    as [b|] eqn:Hb; [|discriminate].
  cbn [bind].
  destruct (delitem (neighbors b) s) as [nb|] eqn:Hnb; [|discriminate].
  apply delitem_ok in Hnb. destruct Hnb as [Hy ->]. cbn [bind].
  intros [= <-]. exists a, b. auto.
Qed.

(** The links after a deletion: the pair is unlinked in both directions,
    every other link is as before; the two ends differ. *)
Lemma remove_link_cost (rs : dict Router) (s d : string) (rs' : dict Router) :
  links_distinct rs ->
  update_link rs (s, d, -1) = Ok rs' ->
  s <> d /\ dict_keys rs' = dict_keys rs /\
  link_cost rs s d <> None /\ link_cost rs d s <> None /\
  forall u v,
    link_cost rs' u v = if same_link s d u v then None else link_cost rs u v.
Proof.
  intros Hnd H.
  destruct (remove_link_unfold _ _ _ _ H)
    as (a & b & Ha & [x Hx] & Hb & [y Hy] & ->).
  pose proof (Hnd _ _ Ha) as Hnda.
  assert (Hsd : s <> d).
  { intros <-. rewrite dict_get_set_eq in Hb. injection Hb as <-.
    simpl in Hy. rewrite dict_get_remove_eq in Hy by exact Hnda.
    discriminate. }
  rewrite dict_get_set_neq in Hb by exact Hsd.
  pose proof (Hnd _ _ Hb) as Hndb.
  split; [exact Hsd|]. split.
  - erewrite dict_keys_set_present;
      [|rewrite dict_get_set_neq by exact Hsd; exact Hb].
    eapply dict_keys_set_present; eauto.
  - unfold link_cost. rewrite Ha, Hb, Hx, Hy.
    split; [discriminate|]. split; [discriminate|].
    intros u v. unfold same_link. rewrite !dict_get_set.
    apply String.eqb_neq in Hsd.
    destruct (String.eqb d u) eqn:Edu, (String.eqb s u) eqn:Esu,
      (String.eqb s v) eqn:Esv, (String.eqb d v) eqn:Edv;
      eqb_subst; simpl;
      rewrite ?dict_get_remove, ?String.eqb_refl, ?Esv, ?Edv, ?Ha, ?Hb
        by assumption;
      try reflexivity.
Qed.

Lemma relinked_refl (r : Router) : relinked r r.
Proof. repeat split; auto. Qed.

Lemma relinked_trans (a b c : Router) :
  relinked a b -> relinked b c -> relinked a c.
Proof.
  intros (H1 & H2 & H3 & H4 & H5) (G1 & G2 & G3 & G4 & G5).
  repeat split; try congruence. auto.
Qed.

Lemma relinked_set (r : Router) (k : string) (c : Z) :
  relinked r (set_neighbor r k c).
Proof. repeat split. simpl. apply dict_keys_set_nodup. Qed.

Lemma relinked_remove (r : Router) (k : string) :
  relinked r (with_neighbors r (dict_remove (neighbors r) k)).
Proof. repeat split. simpl. apply dict_keys_remove_nodup. Qed.

Lemma add_link_routers (rs : dict Router) (s d : string) (c : Z)
      (rs' : dict Router) (k : string) (r' : Router) :
  add_link rs (s, d, c) = Ok rs' -> dict_get rs' k = Some r' ->
  exists r, dict_get rs k = Some r /\ relinked r r'.
Proof.
  intros H. destruct (add_link_unfold _ _ _ _ _ H) as (a & b & Ha & Hb & ->).
  rewrite dict_get_set in Hb. rewrite !dict_get_set.
  destruct (String.eqb d k) eqn:Edk.
  - apply String.eqb_eq in Edk. subst k. intros [= <-].
    destruct (String.eqb s d) eqn:Esd.
    + apply String.eqb_eq in Esd. subst d. injection Hb as <-.
      exists a. split; [exact Ha|].
      eapply relinked_trans; apply relinked_set.
    + exists b. split; [exact Hb | apply relinked_set].
  - destruct (String.eqb s k) eqn:Esk.
    + apply String.eqb_eq in Esk. subst k. intros [= <-].
      exists a. split; [exact Ha | apply relinked_set].
    + intros Hr. exists r'. split; [exact Hr | apply relinked_refl].
Qed.

Lemma remove_link_routers (rs : dict Router) (s d : string)
      (rs' : dict Router) (k : string) (r' : Router) :
  update_link rs (s, d, -1) = Ok rs' -> dict_get rs' k = Some r' ->
  exists r, dict_get rs k = Some r /\ relinked r r'.
Proof.
  intros H.
  destruct (remove_link_unfold _ _ _ _ H) as (a & b & Ha & _ & Hb & _ & ->).
  rewrite dict_get_set in Hb. rewrite !dict_get_set.
  destruct (String.eqb d k) eqn:Edk.
  - apply String.eqb_eq in Edk. subst k. intros [= <-].
    destruct (String.eqb s d) eqn:Esd.
    + apply String.eqb_eq in Esd. subst d. injection Hb as <-.
      exists a. split; [exact Ha|].
      eapply relinked_trans; [apply relinked_remove|].
      apply (relinked_remove
               (with_neighbors a (dict_remove (neighbors a) s)) s).
    + exists b. split; [exact Hb | apply relinked_remove].
  - destruct (String.eqb s k) eqn:Esk.
    + apply String.eqb_eq in Esk. subst k. intros [= <-].
      exists a. split; [exact Ha | apply relinked_remove].
    + intros Hr. exists r'. split; [exact Hr | apply relinked_refl].
Qed.

Lemma update_link_cases (rs : dict Router) (s d : string) (c : Z) :
  (c = -1 /\ update_link rs (s, d, c) = update_link rs (s, d, -1)) \/
  (c <> -1 /\ update_link rs (s, d, c) = add_link rs (s, d, c)).
Proof.
  destruct (Z.eq_dec c (-1)) as [-> | Hc]; [auto|].
  right. split; [exact Hc|]. unfold update_link.
  apply Z.eqb_neq in Hc. now rewrite Hc.
Qed.

Lemma symmetric_cost (rs : dict Router) :
  symmetric rs <-> forall u v, link_cost rs u v = link_cost rs v u.
Proof.
  unfold symmetric. setoid_rewrite link_link_cost. split.
  - intros H u v.
    destruct (link_cost rs u v) as [c|] eqn:E.
    + symmetry. now apply H.
    + destruct (link_cost rs v u) as [c|] eqn:E'; [|reflexivity].
      apply H in E'. congruence.
  - intros H u v c. now rewrite (H u v).
Qed.

Lemma well_formed_step (rs rs' : dict Router) :
  well_formed rs ->
  dict_keys rs' = dict_keys rs ->
  (forall k r', dict_get rs' k = Some r' ->
     exists r, dict_get rs k = Some r /\ relinked r r') ->
  (forall u v c, link_cost rs' u v = Some c ->
     link_cost rs u v = Some c \/ In v (dict_keys rs)) ->
  well_formed rs'.
Proof.
  intros (Hnd & Hld & Hnm & Hend) Hk Hr Hl. repeat split.
  - now rewrite Hk.
  - intros k r' Hr'. destruct (Hr _ _ Hr') as (r & Hr0 & Hrel).
    apply Hrel. eapply Hld; eauto.
  - intros k r' Hr'. destruct (Hr _ _ Hr') as (r & Hr0 & Hn & _).
    rewrite Hn. eauto.
  - intros u v c Hc. rewrite Hk.
    destruct (Hl _ _ _ Hc) as [Hc' | Hv]; eauto.
Qed.

Lemma add_link_well_formed (rs : dict Router) (s d : string) (c : Z)
      (rs' : dict Router) :
  well_formed rs -> add_link rs (s, d, c) = Ok rs' -> well_formed rs'.
Proof.
  intros Hwf H. destruct (add_link_cost _ _ _ _ _ H) as [Hk Hcost].
  destruct (add_link_unfold _ _ _ _ _ H) as (a & b & Ha & Hb & _).
  assert (Hs : In s (dict_keys rs)) by (apply dict_get_in_keys; eauto).
  assert (Hd : In d (dict_keys rs)).
  { rewrite <- (dict_keys_set_present rs s (set_neighbor a d c) a Ha).
    apply dict_get_in_keys. eauto. }
  apply (well_formed_step rs rs' Hwf Hk).
  - intros k r'. eapply add_link_routers; eauto.
  - intros u v x. rewrite Hcost. unfold same_link.
    destruct (String.eqb s u) eqn:Esu, (String.eqb d v) eqn:Edv,
      (String.eqb d u) eqn:Edu, (String.eqb s v) eqn:Esv;
      eqb_subst; simpl; auto.
Qed.

Lemma remove_link_well_formed (rs : dict Router) (s d : string)
      (rs' : dict Router) :
  well_formed rs -> update_link rs (s, d, -1) = Ok rs' -> well_formed rs'.
Proof.
  intros Hwf H. pose proof Hwf as (_ & Hld & _).
  destruct (remove_link_cost _ _ _ _ Hld H) as (_ & Hk & _ & _ & Hcost).
  apply (well_formed_step rs rs' Hwf Hk).
  - intros k r'. eapply remove_link_routers; eauto.
  - intros u v x. rewrite Hcost.
    destruct (same_link s d u v); [discriminate | auto].
Qed.

Lemma update_link_well_formed (rs : dict Router) (l : string * string * Z)
      (rs' : dict Router) :
  well_formed rs -> update_link rs l = Ok rs' -> well_formed rs'.
Proof.
  destruct l as [[s d] c]. intros Hwf.
  destruct (update_link_cases rs s d c) as [[-> _] | [_ ->]].
  - now apply remove_link_well_formed.
  - now apply add_link_well_formed.
Qed.

Lemma add_link_symmetric (rs : dict Router) (s d : string) (c : Z)
      (rs' : dict Router) :
  symmetric rs -> add_link rs (s, d, c) = Ok rs' -> symmetric rs'.
Proof.
  rewrite !symmetric_cost. intros Hs H u v.
  destruct (add_link_cost _ _ _ _ _ H) as [_ Hcost].
  now rewrite !Hcost, same_link_swap, Hs.
Qed.

Lemma update_link_symmetric (rs : dict Router) (l : string * string * Z)
      (rs' : dict Router) :
  links_distinct rs -> symmetric rs -> update_link rs l = Ok rs' ->
  symmetric rs'.
Proof.
  destruct l as [[s d] c]. intros Hld Hs.
  destruct (update_link_cases rs s d c) as [[-> _] | [_ ->]].
  - intros H. destruct (remove_link_cost _ _ _ _ Hld H) as (_ & _ & _ & _ & Hc).
    rewrite symmetric_cost in *. intros u v.
    now rewrite !Hc, same_link_swap, Hs.
  - now apply add_link_symmetric.
Qed.

(** ** The network main builds *)

Lemma declare_fold (names : list string) (acc : dict Router) :
  NoDup (dict_keys acc) ->
  NoDup (dict_keys (fold_left (fun rs n => dict_set rs n (new_router n))
                              names acc)) /\
  forall k,
    (In k names ->
     dict_get (fold_left (fun rs n => dict_set rs n (new_router n)) names acc)
              k = Some (new_router k)) /\
    (~ In k names ->
     dict_get (fold_left (fun rs n => dict_set rs n (new_router n)) names acc)
              k = dict_get acc k).
Proof.
  revert acc. induction names as [|x t IH]; intros acc Hnd; simpl.
  - split; [exact Hnd|]. intros k. split; [intros [] | reflexivity].
  - destruct (IH (dict_set acc x (new_router x))
                 (dict_keys_set_nodup _ _ _ Hnd)) as [Hnd' Hget].
    split; [exact Hnd'|]. intros k. destruct (Hget k) as [Hin Hout]. split.
    + intros Hk. destruct (in_dec string_dec k t) as [Hkt | Hkt]; auto.
      destruct Hk as [-> | Hk]; [|contradiction].
      rewrite (Hout Hkt). apply dict_get_set_eq.
    + intros Hk. rewrite Hout by tauto. apply dict_get_set_neq. tauto.
Qed.

Lemma declare_get (names : list string) (k : string) (r : Router) :
  dict_get (declare names) k = Some r -> r = new_router k.
Proof.
  unfold declare. destruct (declare_fold names [] (NoDup_nil _)) as [_ H].
  destruct (H k) as [Hin Hout].
  destruct (in_dec string_dec k names) as [Hk | Hk].
  - rewrite (Hin Hk). congruence.
  - rewrite (Hout Hk). discriminate.
Qed.

Lemma declare_no_links (names : list string) (u v : string) :
  link_cost (declare names) u v = None.
Proof.
  unfold link_cost.
  destruct (dict_get (declare names) u) as [r|] eqn:E; [|reflexivity].
  now rewrite (declare_get _ _ _ E).
Qed.

Lemma declare_well_formed (names : list string) : well_formed (declare names).
Proof.
  repeat split.
  - apply (declare_fold names [] (NoDup_nil _)).
  - intros k r Hr. rewrite (declare_get _ _ _ Hr). constructor.
  - intros k r Hr. now rewrite (declare_get _ _ _ Hr).
  - intros u v c Hc. rewrite declare_no_links in Hc. discriminate.
Qed.

Lemma add_link_nonneg (rs : dict Router) (s d : string) (c : Z)
      (rs' : dict Router) :
  costs_nonneg rs -> 0 <= c -> add_link rs (s, d, c) = Ok rs' ->
  costs_nonneg rs'.
Proof.
  intros Hnn Hc H u v x. destruct (add_link_cost _ _ _ _ _ H) as [_ ->].
  destruct (same_link s d u v); [intros [= <-]; exact Hc | apply Hnn].
Qed.

Lemma update_link_nonneg (rs : dict Router) (s d : string) (c : Z)
      (rs' : dict Router) :
  links_distinct rs -> costs_nonneg rs -> 0 <= c \/ c = -1 ->
  update_link rs (s, d, c) = Ok rs' -> costs_nonneg rs'.
Proof.
  intros Hld Hnn Hc.
  destruct (update_link_cases rs s d c) as [[-> _] | [Hne ->]].
  - intros H u v x.
    destruct (remove_link_cost _ _ _ _ Hld H) as (_ & _ & _ & _ & ->).
    destruct (same_link s d u v); [discriminate | apply Hnn].
  - apply add_link_nonneg; [exact Hnn | lia].
Qed.

(** The three facts kept along the START lines and the UPDATE lines. *)
Lemma add_links_keeps (ls : list (string * string * Z))
      (rs rs' : dict Router) :
  well_formed rs -> symmetric rs -> add_links rs ls = Ok rs' ->
  well_formed rs' /\ symmetric rs' /\
  (costs_nonneg rs -> (forall s d c, In (s, d, c) ls -> 0 <= c) ->
   costs_nonneg rs').
Proof.
  revert rs. induction ls as [|[[s d] c] t IH]; intros rs Hwf Hs;
    cbn [add_links].
  - intros [= <-]. auto.
  - destruct (add_link rs (s, d, c)) as [rs1|] eqn:E; [|discriminate].
    cbn [bind]. intros H.
    destruct (IH rs1 (add_link_well_formed _ _ _ _ _ Hwf E)
                 (add_link_symmetric _ _ _ _ _ Hs E) H) as (H1 & H2 & H3).
    split; [exact H1|]. split; [exact H2|].
    intros Hnn Hc. apply H3.
    + apply (add_link_nonneg rs s d c rs1 Hnn);
        [apply (Hc s d c); simpl; auto | exact E].
    + intros s0 d0 c0 Hin. apply (Hc s0 d0 c0). simpl; auto.
Qed.

Lemma update_links_keeps (ls : list (string * string * Z))
      (rs rs' : dict Router) :
  well_formed rs -> symmetric rs -> update_links rs ls = Ok rs' ->
  well_formed rs' /\ symmetric rs' /\
  (costs_nonneg rs ->
   (forall s d c, In (s, d, c) ls -> 0 <= c \/ c = -1) ->
   costs_nonneg rs').
Proof.
  revert rs. induction ls as [|[[s d] c] t IH]; intros rs Hwf Hs;
    cbn [update_links].
  - intros [= <-]. auto.
  - destruct (update_link rs (s, d, c)) as [rs1|] eqn:E; [|discriminate].
    cbn [bind]. intros H. pose proof Hwf as (_ & Hld & _).
    destruct (IH rs1 (update_link_well_formed _ _ _ Hwf E)
                 (update_link_symmetric _ _ _ Hld Hs E) H) as (H1 & H2 & H3).
    split; [exact H1|]. split; [exact H2|].
    intros Hnn Hc. apply H3.
    + apply (update_link_nonneg rs s d c rs1 Hld Hnn);
        [apply (Hc s d c); simpl; auto | exact E].
    + intros s0 d0 c0 Hin. apply (Hc s0 d0 c0). simpl; auto.
Qed.

Lemma nodup_distinct (l : list string) : NoDup l -> distinct l = true.
Proof.
  induction 1 as [|x t Hx Hnd IH]; simpl; [reflexivity|].
  rewrite IH, andb_true_r. apply negb_true_iff.
  destruct (existsb (String.eqb x) t) eqn:E; [|reflexivity].
  apply existsb_exists in E. destruct E as (y & Hy & Hxy).
  apply String.eqb_eq in Hxy. subst y. contradiction.
Qed.

Lemma valid_network_intro (rs : dict Router) :
  well_formed rs -> costs_nonneg rs -> valid_network rs = true.
Proof.
  intros (Hnd & Hld & Hnm & Hend) Hnn. unfold valid_network.
  rewrite (nodup_distinct _ Hnd). simpl.
  apply forallb_forall. intros [k r] Hin. unfold valid_router. simpl.
  apply (dict_in_get _ _ _ Hnd) in Hin.
  rewrite (Hnm _ _ Hin), String.eqb_refl. simpl.
  apply forallb_forall. intros [n c] Hnc. simpl.
  apply (dict_in_get _ _ _ (Hld _ _ Hin)) in Hnc.
  assert (Hcost : link_cost rs k n = Some c)
    by (unfold link_cost; now rewrite Hin).
  apply andb_true_iff. split.
  - apply existsb_exists. exists n. split; [|apply String.eqb_refl].
    eapply Hend; eauto.
  - apply Z.leb_le. eapply Hnn; eauto.
Qed.

(** X9.  [add_link] raises [KeyError] for the first end that is not a
    declared router; otherwise it returns the routers with the same keys,
    the two ends linked at the given cost in both directions, and every
    other link as it was. *)
Theorem add_link_spec (rs : dict Router) (s d : string) (c : Z) :
  match dict_get rs s, dict_get rs d with
  | None, _ => add_link rs (s, d, c) = Raise (KeyError s)
  | Some _, None => add_link rs (s, d, c) = Raise (KeyError d)
  | Some _, Some _ =>
      exists rs', add_link rs (s, d, c) = Ok rs' /\
        dict_keys rs' = dict_keys rs /\
        forall u v,
          link_cost rs' u v =
          if same_link s d u v then Some c else link_cost rs u v
  end.
Proof.
  destruct (dict_get rs s) as [a|] eqn:Ha.
  - destruct (dict_get rs d) as [b|] eqn:Hb.
    + assert (H : exists rs', add_link rs (s, d, c) = Ok rs').
      { unfold add_link, getitem. rewrite Ha. cbn [bind].
        rewrite dict_get_set.
        destruct (String.eqb s d); [|rewrite Hb]; cbn [bind]; eauto. }
      destruct H as [rs' H]. exists rs'. split; [exact H|].
      now apply add_link_cost.
    + unfold add_link, getitem. rewrite Ha. cbn [bind].
      rewrite dict_get_set. destruct (String.eqb s d) eqn:E.
      * apply String.eqb_eq in E. congruence.
      * now rewrite Hb.
  - unfold add_link, getitem. now rewrite Ha.
Qed.

(** X10.  On routers whose links form dictionaries, deleting the link
    between [s] and [d] (cost [-1] in the UPDATE batch) returns exactly
    when the two ends differ and are linked in both directions; it then
    keeps the keys, unlinks the pair in both directions and leaves every
    other link as it was.  When [s] is declared and has no link to [d] it
    raises [KeyError d]. *)
Theorem update_link_remove (rs : dict Router) (s d : string) :
  links_distinct rs ->
  ((exists rs', update_link rs (s, d, -1) = Ok rs') <->
   s <> d /\ link_cost rs s d <> None /\ link_cost rs d s <> None) /\
  (forall rs', update_link rs (s, d, -1) = Ok rs' ->
     dict_keys rs' = dict_keys rs /\
     forall u v,
       link_cost rs' u v =
       if same_link s d u v then None else link_cost rs u v) /\
  (forall a, dict_get rs s = Some a -> dict_get (neighbors a) d = None ->
     update_link rs (s, d, -1) = Raise (KeyError d)).
Proof.
  intros Hld. split; [split|split].
  - intros [rs' H].
    destruct (remove_link_cost _ _ _ _ Hld H) as (H1 & _ & H2 & H3 & _). auto.
  - intros (Hsd & Hx & Hy). unfold link_cost in Hx, Hy.
    destruct (dict_get rs s) as [a|] eqn:Ha; [|contradiction].
    destruct (dict_get rs d) as [b|] eqn:Hb; [|contradiction].
    destruct (dict_get (neighbors a) d) as [x|] eqn:Hxd; [|contradiction].
    destruct (dict_get (neighbors b) s) as [y|] eqn:Hys; [|contradiction].
    unfold update_link, getitem, delitem. cbn [Z.eqb Pos.eqb].
    rewrite Ha. cbn [bind]. rewrite Hxd. cbn [bind].
    rewrite dict_get_set_neq by exact Hsd. rewrite Hb. cbn [bind].
    rewrite Hys. cbn [bind]. eauto.
  - intros rs' H.
    destruct (remove_link_cost _ _ _ _ Hld H) as (_ & Hk & _ & _ & Hc). auto.
  - intros a Ha Hd. unfold update_link, getitem, delitem.
    cbn [Z.eqb Pos.eqb]. rewrite Ha. cbn [bind]. now rewrite Hd.
Qed.

(** X11.  The network main holds after the START lines and after the
    UPDATE lines is well formed (routers stored under their names, links
    ending at declared routers, no key twice) and its links are symmetric:
    every link has its reverse at the same cost. *)
Theorem network_links (names : list string)
        (ls ups : list (string * string * Z)) (rs1 rs2 : dict Router) :
  network names ls = Ok rs1 -> update_links rs1 ups = Ok rs2 ->
  (well_formed rs1 /\ symmetric rs1) /\ (well_formed rs2 /\ symmetric rs2).
Proof.
  unfold network. intros H1 H2.
  assert (Hs0 : symmetric (declare names)).
  { apply symmetric_cost. intros u v. now rewrite !declare_no_links. }
  destruct (add_links_keeps _ _ _ (declare_well_formed names) Hs0 H1)
    as (Hw1 & Hs1 & _).
  destruct (update_links_keeps _ _ _ Hw1 Hs1 H2) as (Hw2 & Hs2 & _).
  auto.
Qed.

(** X12.  When the START lines carry non-negative costs and the UPDATE
    lines non-negative costs or the deletion mark [-1], the network main
    holds is valid after the START lines and after the UPDATE lines. *)
Theorem network_valid (names : list string)
        (ls ups : list (string * string * Z)) (rs1 rs2 : dict Router) :
  network names ls = Ok rs1 -> update_links rs1 ups = Ok rs2 ->
  (forall s d c, In (s, d, c) ls -> 0 <= c) ->
  (forall s d c, In (s, d, c) ups -> 0 <= c \/ c = -1) ->
  valid_network rs1 = true /\ valid_network rs2 = true.
Proof.
  unfold network. intros H1 H2 Hc1 Hc2.
  assert (Hs0 : symmetric (declare names)).
  { apply symmetric_cost. intros u v. now rewrite !declare_no_links. }
  assert (Hn0 : costs_nonneg (declare names)).
  { intros u v c Hc. rewrite declare_no_links in Hc. discriminate. }
  destruct (add_links_keeps _ _ _ (declare_well_formed names) Hs0 H1)
    as (Hw1 & Hs1 & Hn1).
  destruct (update_links_keeps _ _ _ Hw1 Hs1 H2) as (Hw2 & _ & Hn2).
  split; apply valid_network_intro; auto.
Qed.

(** ** Setting a link and deleting it again *)

Lemma dict_set_set {V : Type} (m : dict V) (k : string) (v v' : V) :
  dict_set (dict_set m k v) k v' = dict_set m k v'.
Proof.
  induction m as [|[k0 v0] t IH]; simpl.
  - now rewrite String.eqb_refl.
  - destruct (String.eqb k0 k) eqn:E; simpl; rewrite E; [reflexivity|].
    now rewrite IH.
Qed.

Lemma dict_set_same {V : Type} (m : dict V) (k : string) (v : V) :
  dict_get m k = Some v -> dict_set m k v = m.
Proof.
  induction m as [|[k0 v0] t IH]; simpl; [discriminate|].
  destruct (String.eqb k0 k) eqn:E.
  - intros [= ->]. reflexivity.
  - intros H. now rewrite IH.
Qed.

Lemma dict_set_swap {V : Type} (m : dict V) (k k' : string) (v v' x : V) :
  k <> k' -> dict_get m k = Some x ->
  dict_set (dict_set m k v) k' v' = dict_set (dict_set m k' v') k v.
Proof.
  intros Hne. induction m as [|[k0 v0] t IH]; simpl; [discriminate|].
  destruct (String.eqb k0 k) eqn:E; destruct (String.eqb k0 k') eqn:E';
    simpl; rewrite ?E, ?E'; try reflexivity.
  - apply String.eqb_eq in E, E'. congruence.
  - intros H. now rewrite IH.
Qed.

Lemma dict_remove_set {V : Type} (m : dict V) (k : string) (v : V) :
  dict_get m k = None -> dict_remove (dict_set m k v) k = m.
Proof.
  induction m as [|[k0 v0] t IH]; simpl.
  - now rewrite String.eqb_refl.
  - destruct (String.eqb k0 k) eqn:E; [discriminate|].
    simpl. rewrite E. intros H. now rewrite IH.
Qed.

Lemma with_neighbors_same (r : Router) (k : string) (c : Z) :
  with_neighbors (set_neighbor r k c) (neighbors r) = r.
Proof. destruct r; reflexivity. Qed.

(** X13.  Between two distinct declared routers that are not linked,
    setting a link and then deleting it gives back the routers exactly as
    they were. *)
Theorem add_then_remove (rs : dict Router) (s d : string) (c : Z) :
  s <> d -> (exists a, dict_get rs s = Some a) ->
  (exists b, dict_get rs d = Some b) ->
  link_cost rs s d = None -> link_cost rs d s = None ->
  exists rs1, add_link rs (s, d, c) = Ok rs1 /\
              update_link rs1 (s, d, -1) = Ok rs.
Proof.
  intros Hsd [a Ha] [b Hb] Hx Hy. unfold link_cost in Hx, Hy.
  rewrite Ha in Hx. rewrite Hb in Hy.
  assert (Hds : d <> s) by congruence.
  exists (dict_set (dict_set rs s (set_neighbor a d c)) d
                   (set_neighbor b s c)).
  split.
  - unfold add_link, getitem. rewrite Ha. cbn [bind].
    rewrite dict_get_set_neq by exact Hsd. now rewrite Hb.
  - unfold update_link, getitem, delitem. cbn [Z.eqb Pos.eqb].
    rewrite dict_get_set_neq by exact Hds. rewrite dict_get_set_eq.
    cbn [bind]. cbn [neighbors set_neighbor]. rewrite dict_get_set_eq. cbn [bind].
    rewrite dict_remove_set by exact Hx. rewrite with_neighbors_same.
    rewrite dict_get_set_neq by exact Hsd. rewrite dict_get_set_eq.
    cbn [bind]. cbn [neighbors set_neighbor]. rewrite dict_get_set_eq. cbn [bind].
    rewrite dict_remove_set by exact Hy. rewrite with_neighbors_same.
    f_equal.
    rewrite (dict_set_swap (dict_set rs s (set_neighbor a d c)) d s
                           (set_neighbor b s c) a b Hds)
      by (rewrite dict_get_set_neq by exact Hsd; exact Hb).
    rewrite !dict_set_set, (dict_set_same rs s a Ha).
    now apply dict_set_same.
Qed.

(** ** What a merge computes *)

(** With distinct keys in [dis_vec], the one visit a merge pays to [d]
    starts from the entries [d] had before the merge, under the same name
    and links, and ends with the entries it has after. *)
Lemma update_net_visit (r : Router) (n : string) (dv : dict pyval)
      (r' : Router) (b : bool) (d : string) :
  NoDup (dict_keys (dis_vec r)) ->
  update_net r n dv = Ok (r', b) ->
  In d (dict_keys (dis_vec r)) -> d <> name r ->
  exists s1 u1 s2 u2,
    name s1 = name r /\ neighbors s1 = neighbors r /\
    same_at d r s1 /\ visit n dv s1 u1 d s2 u2 /\ same_at d s2 r'.
Proof.
  unfold update_net. intros Hnd Hup Hd Hne.
  destruct (in_split _ _ Hd) as (l1 & l2 & Hsplit).
  rewrite Hsplit in Hnd, Hup.
  apply NoDup_remove_2 in Hnd.
  destruct (update_loop_app _ _ _ _ _ _ Hup) as ([s1 u1] & H1 & H2).
  cbn [update_loop] in H2.
  destruct (update_entry n dv (s1, u1) d) as [[s2 u2]|] eqn:E;
    [|discriminate].
  cbn [bind] in H2.
  destruct (update_loop_shape _ _ _ _ _ _ _ H1) as (Hn1 & Hb1 & _).
  exists s1, u1, s2, u2. repeat split; auto.
  - eapply update_loop_frame; [exact H1|].
    left. intros Hin. apply Hnd, in_or_app. auto.
  - eapply update_loop_frame; [exact H1|].
    left. intros Hin. apply Hnd, in_or_app. auto.
  - eapply update_loop_frame; [exact H1|].
    left. intros Hin. apply Hnd, in_or_app. auto.
  - apply update_entry_inv; [congruence | exact E].
  - eapply update_loop_frame; [exact H2|].
    left. intros Hin. apply Hnd, in_or_app. auto.
  - eapply update_loop_frame; [exact H2|].
    left. intros Hin. apply Hnd, in_or_app. auto.
  - eapply update_loop_frame; [exact H2|].
    left. intros Hin. apply Hnd, in_or_app. auto.
Qed.

Lemma py_add_plus (c : Z) (x : cost) (nc : cost) :
  py_add c (PCost x) = Ok nc -> nc = cost_plus c x.
Proof.
  destruct x as [z|]; simpl; [congruence|].
  destruct (float_ok c); congruence.
Qed.

(** X14.  On a router whose [dis_vec] is a dictionary, a merge that
    returns is one Bellman-Ford step for every destination [d] other than
    the router: the entry of the neighbor in the row of [d] becomes the
    lower of its old value and link cost plus advertised cost, the other
    entries of the row stay, and [dis_vec[d]] becomes the lower of its old
    value and the least cost of the new row. *)
Theorem update_net_step (r : Router) (n : string) (dv : dict pyval)
        (r' : Router) (b : bool) :
  NoDup (dict_keys (dis_vec r)) ->
  update_net r n dv = Ok (r', b) ->
  forall d, In d (dict_keys (dis_vec r)) -> d <> name r ->
    exists c x old cur row',
      dict_get (neighbors r) n = Some c /\
      dict_get dv d = Some (PCost x) /\
      table_entry r d n = Some old /\
      dict_get (dis_vec r) d = Some cur /\
      table_entry r' d n = Some (cost_min old (cost_plus c x)) /\
      (forall m, m <> n -> table_entry r' d m = table_entry r d m) /\
      dict_get (vec_table r') d = Some row' /\
      dict_get (dis_vec r') d = Some (cost_min cur (row_min row')).
Proof.
  intros Hnd Hup d Hd Hne.
  destruct (update_net_visit _ _ _ _ _ d Hnd Hup Hd Hne)
    as (s1 & u1 & s2 & u2 & Hn & Hb & (A1 & A2 & A3) & Hv & (B1 & B2 & B3)).
  destruct Hv as [c a new_cost row old min_cost cur].
  destruct a as [x|e]; [|discriminate].
  apply py_add_plus in Hadd. subst new_cost.
  assert (Hrow' : dict_get (vec_table s2) d
                  = Some (merged_row row n old (cost_plus c x))).
  { rewrite Htab. unfold merged_row.
    destruct (cost_ltb (cost_plus c x) old);
      [apply dict_get_set_eq | exact Hrow]. }
  exists c, x, old, cur, (merged_row row n old (cost_plus c x)).
  unfold table_entry. rewrite B3, B1, Hrow', <- A3, <- A1, Hrow, <- Hb.
  repeat split; auto.
  - unfold merged_row, cost_min.
    destruct (cost_ltb (cost_plus c x) old);
      [apply dict_get_set_eq | exact Hold].
  - intros m Hm. unfold merged_row.
    destruct (cost_ltb (cost_plus c x) old); [|reflexivity].
    apply dict_get_set_neq. congruence.
  - apply py_min_row_min in Hmin. rewrite Hmin. unfold cost_min.
    destruct (cost_ltb min_cost cur).
    + destruct Hres as (hop & _ & -> & _). apply dict_get_set_eq.
    + destruct Hres as (-> & _). exact Hcur.
Qed.

(** ** A poisoned export, merged by its target *)

Lemma as_vector_get (e : dict cost) (d : string) :
  dict_get (as_vector e) d = option_map PCost (dict_get e d).
Proof.
  induction e as [|[k v] t IH]; simpl; [reflexivity|].
  destruct (String.eqb k d); [reflexivity | exact IH].
Qed.

Lemma poisoned_reverse_poisons (R : Router) (N D : string) (e : dict cost) :
  hops_recorded R ->
  poisoned_reverse R (Some N) = Ok e ->
  In D (dict_keys (dis_vec R)) ->
  dict_get (next_hop R) D = Some (Some N) -> D <> N ->
  dict_get e D = Some Inf.
Proof.
  intros Hrec He HD Hh Hne. unfold poisoned_reverse in He.
  destruct (poison_loop_ok R N (dict_keys (dis_vec R)) [] (fun d H => H) Hrec)
    as (e' & He' & Hin & _).
  rewrite He in He'. injection He' as <-.
  apply dict_get_in_keys in HD. destruct HD as [c Hc].
  rewrite (Hin D c); [|apply dict_get_in_keys; eauto|exact Hc].
  now rewrite (proj2 (poisoned_true R N D) (conj Hh Hne)).
Qed.

Lemma visit_of_infinite (n : string) (dv : dict pyval) (s : Router)
      (u : bool) (d : string) (s' : Router) (u' : bool) :
  visit n dv s u d s' u' ->
  dict_get dv d = Some (PCost Inf) -> row_consistent s d ->
  same_at d s s'.
Proof.
  intros [c a new_cost row old min_cost cur] Hinf
         (c0 & row0 & Hc0 & Hrow0 & Hm & _).
  rewrite Hinf in Ha. injection Ha as <-.
  apply py_add_plus in Hadd. subst new_cost. simpl in *.
  unfold merged_row in *. simpl in *.
  rewrite Hrow in Hrow0. injection Hrow0 as <-.
  rewrite Hcur in Hc0. injection Hc0 as <-.
  apply py_min_row_min in Hmin. rewrite <- Hm in Hmin. subst min_cost.
  rewrite cost_ltb_irrefl in Hres. destruct Hres as (Hdv & Hnh & _).
  unfold same_at. now rewrite Hdv, Hnh, Htab.
Qed.

(** X15.  Poisoned reverse at work: when router [R] reaches [D] through
    its neighbor [N] ([next_hop[D] == N], [D != N]), the vector [R]
    exports to [N] teaches nothing about [D]: in every state of a phase,
    a router that merges this vector for the neighbor [R] keeps its cost,
    its next hop and its whole row for [D] as they were. *)
Theorem poisoned_entry_not_learned (routers : list string) (R T : Router)
        (N D : string) (e : dict cost) (T' : Router) (b : bool) :
  hops_recorded R ->
  poisoned_reverse R (Some N) = Ok e ->
  In D (dict_keys (dis_vec R)) ->
  dict_get (next_hop R) D = Some (Some N) -> D <> N ->
  phase_state routers T -> In D routers ->
  update_net T (name R) (as_vector e) = Ok (T', b) ->
  dict_get (dis_vec T') D = dict_get (dis_vec T) D /\
  dict_get (next_hop T') D = dict_get (next_hop T) D /\
  dict_get (vec_table T') D = dict_get (vec_table T) D.
Proof.
  intros Hrec He HD Hh Hne Hst HDr Hup.
  change (same_at D T T').
  destruct (string_dec D (name T)) as [-> | HDT];
    [eapply update_net_self; eauto|].
  destruct (phase_state_inv _ _ Hst) as [Hnd Hrows].
  destruct (in_dec string_dec D (dict_keys (dis_vec T))) as [Hk | Hk];
    [|eapply update_loop_frame; eauto].
  destruct (update_net_visit _ _ _ _ _ D Hnd Hup Hk HDT)
    as (s1 & u1 & s2 & u2 & _ & _ & A & Hv & B).
  apply same_at_trans with s1; [exact A|].
  apply same_at_trans with s2; [|exact B].
  apply (visit_of_infinite _ _ _ _ _ _ _ Hv).
  - rewrite as_vector_get.
    now rewrite (poisoned_reverse_poisons R N D e Hrec He HD Hh Hne).
  - eapply same_at_consistent; eauto.
Qed.

(** ** What the start of a phase forgets *)

Lemma agree_keys {V : Type} (m m' : dict V) :
  dict_keys m = dict_keys m' -> agree (fun _ => False) m m'.
Proof.
  revert m'. induction m as [|[k v] t IH]; intros [|[k' v'] t']; simpl;
    try discriminate.
  - constructor.
  - intros [= -> Ht]. constructor; [simpl; tauto | now apply IH].
Qed.

Lemma agree_same_keys {V : Type} (P : string -> Prop) (m m' : dict V) :
  agree P m m' -> dict_keys m = dict_keys m'.
Proof.
  induction 1 as [|[k v] [k' v'] t t' [Hk _] _ IH]; simpl; [reflexivity|].
  simpl in Hk. congruence.
Qed.

Lemma agree_weaken {V : Type} (P Q : string -> Prop) (m m' : dict V) :
  (forall k, Q k -> P k) -> agree P m m' -> agree Q m m'.
Proof.
  intros HPQ. induction 1 as [|a b t t' [Hk Hv] _ IH]; constructor; auto.
Qed.

Lemma agree_all {V : Type} (P : string -> Prop) (m m' : dict V) :
  agree P m m' -> (forall k, In k (dict_keys m) -> P k) -> m = m'.
Proof.
  induction 1 as [|[k v] [k' v'] t t' [Hk Hv] _ IH]; intros HP;
    [reflexivity|].
  simpl in *. subst k'. rewrite (Hv (HP k (or_introl eq_refl))).
  f_equal. apply IH. auto.
Qed.

Lemma agree_set {V : Type} (P : string -> Prop) (m m' : dict V) (k : string)
      (v : V) :
  NoDup (dict_keys m) -> agree P m m' ->
  agree (fun x => x = k \/ P x) (dict_set m k v) (dict_set m' k v).
Proof.
  intros Hnd H. induction H as [|[k0 v0] [k0' v0'] t t' [Hk Hv] Ht IH].
  - simpl. constructor; [simpl; auto | constructor].
  - simpl in Hk, Hv. subst k0'. inversion Hnd as [|? ? Hni Hnd']; subst.
    simpl. destruct (String.eqb k0 k) eqn:E.
    + apply String.eqb_eq in E. subst k0. constructor; [simpl; auto|].
      assert (Hkeys : forall a b, In (a, b) t -> a <> k).
      { intros a b Hab ->. apply Hni.
        change k with (fst (k, b)). now apply in_map. }
      clear IH Hnd Hnd' Hni. induction Ht as [|a b t0 t0' [Hab Hv'] _ IH'];
        constructor.
      * split; [exact Hab|]. intros [Hak | HP]; [|auto].
        exfalso. apply (Hkeys (fst a) (snd a)); [|exact Hak].
        destruct a. simpl. auto.
      * apply IH'. intros a0 b0 H0. apply (Hkeys a0 b0). simpl. auto.
    + constructor; [|exact (IH Hnd')]. simpl. split; [reflexivity|].
      intros [-> | HP]; [|auto]. rewrite String.eqb_refl in E. discriminate.
Qed.

Lemma agree_fold {V : Type} (f : string -> V) (l : list string)
      (P : string -> Prop) (m m' : dict V) :
  NoDup (dict_keys m) -> agree P m m' ->
  agree (fun x => In x l \/ P x)
        (fold_left (fun acc x => dict_set acc x (f x)) l m)
        (fold_left (fun acc x => dict_set acc x (f x)) l m').
Proof.
  revert P m m'. induction l as [|x t IH]; intros P m m' Hnd H; simpl.
  - eapply agree_weaken; [|exact H]. tauto.
  - eapply agree_weaken;
      [|apply (IH (fun y => y = x \/ P y));
        [now apply dict_keys_set_nodup | now apply agree_set]].
    simpl. intros k [[<- | Hk] | HP]; auto.
Qed.

Lemma fold_set_keys {V : Type} (f : string -> V) (l : list string)
      (m : dict V) (k : string) :
  In k (dict_keys (fold_left (fun acc x => dict_set acc x (f x)) l m)) <->
  In k l \/ In k (dict_keys m).
Proof.
  revert m. induction l as [|x t IH]; intros m; simpl; [tauto|].
  rewrite IH, dict_keys_set_in. split; intros; intuition congruence.
Qed.

Lemma fold_set_nodup {V : Type} (f : string -> V) (l : list string)
      (m : dict V) :
  NoDup (dict_keys m) ->
  NoDup (dict_keys (fold_left (fun acc x => dict_set acc x (f x)) l m)).
Proof.
  revert m. induction l as [|x t IH]; intros m H; simpl; auto.
  apply IH. now apply dict_keys_set_nodup.
Qed.

Lemma fold_set_other {V : Type} (f : string -> V) (l : list string)
      (m : dict V) (k : string) :
  ~ In k l ->
  dict_get (fold_left (fun acc x => dict_set acc x (f x)) l m) k
  = dict_get m k.
Proof.
  revert m. induction l as [|x t IH]; intros m Hk; simpl; [reflexivity|].
  simpl in Hk. rewrite IH by tauto. apply dict_get_set_neq. tauto.
Qed.

Lemma fold_set_get {V : Type} (f : string -> V) (l : list string)
      (m : dict V) (k : string) :
  In k l ->
  dict_get (fold_left (fun acc x => dict_set acc x (f x)) l m) k = Some (f k).
Proof.
  revert m. induction l as [|x t IH]; intros m Hk; [destruct Hk|]. simpl.
  destruct (in_dec string_dec k t) as [Hkt | Hkt]; [now apply IH|].
  destruct Hk as [-> | Hk]; [|contradiction].
  rewrite fold_set_other by exact Hkt. apply dict_get_set_eq.
Qed.

Lemma fold_set_same {V : Type} (f : string -> V) (l : list string)
      (m : dict V) :
  (forall x, In x l -> dict_get m x = Some (f x)) ->
  fold_left (fun acc x => dict_set acc x (f x)) l m = m.
Proof.
  induction l as [|x t IH]; intros H; simpl; [reflexivity|].
  rewrite (dict_set_same m x (f x)) by (apply H; simpl; auto).
  apply IH. intros y Hy. apply H. simpl; auto.
Qed.

Lemma init_entry_eq (s : Router) (x : string) :
  init_entry s x =
  mkRouter (name s) (neighbors s)
           (dict_set (dis_vec s) x (init_cost s x))
           (dict_set (next_hop s) x (init_hop s x)) (vec_table s).
Proof.
  unfold init_entry, init_cost, init_hop.
  destruct (String.eqb x (name s)); [|destruct (dict_get (neighbors s) x)];
    reflexivity.
Qed.

Lemma init_entries_eq (l : list string) (s : Router) :
  fold_left init_entry l s =
  mkRouter (name s) (neighbors s)
           (fold_left (fun acc x => dict_set acc x (init_cost s x)) l
                      (dis_vec s))
           (fold_left (fun acc x => dict_set acc x (init_hop s x)) l
                      (next_hop s))
           (vec_table s).
Proof.
  revert s. induction l as [|x t IH]; intros s; simpl.
  - destruct s; reflexivity.
  - rewrite IH, init_entry_eq. reflexivity.
Qed.

Lemma init_row_of_ok (nbrs : dict Z) (node : string) :
  init_row nbrs node (dict_keys nbrs) [] = Ok (init_row_of nbrs node).
Proof.
  unfold init_row_of. destruct (init_row_ok nbrs node) as (row & -> & _).
  reflexivity.
Qed.

Lemma init_table_eq (l : list string) (s : Router) :
  init_table s l =
  Ok (mkRouter (name s) (neighbors s) (dis_vec s) (next_hop s)
               (fold_left
                  (fun acc x => dict_set acc x (init_row_of (neighbors s) x))
                  l (vec_table s))).
Proof.
  revert s. induction l as [|x t IH]; intros s; cbn [init_table fold_left].
  - destruct s; reflexivity.
  - rewrite init_row_of_ok. cbn [bind]. rewrite IH. reflexivity.
Qed.

(** [init_net] in closed form: three folds over the listed routers. *)
Lemma init_net_eq (s : Router) (l : list string) :
  init_net s l =
  Ok (mkRouter (name s) (neighbors s)
        (fold_left (fun acc x => dict_set acc x (init_cost s x)) l
                   (dis_vec s))
        (fold_left (fun acc x => dict_set acc x (init_hop s x)) l
                   (next_hop s))
        (fold_left (fun acc x => dict_set acc x (init_row_of (neighbors s) x))
                   l (vec_table s))).
Proof.
  unfold init_net. rewrite init_table_eq, init_entries_eq. reflexivity.
Qed.

Lemma fold_set_agree {V : Type} (f : string -> V) (l : list string)
      (m m' : dict V) :
  NoDup (dict_keys m) -> dict_keys m' = dict_keys m ->
  (forall k, In k (dict_keys m) -> In k l) ->
  fold_left (fun acc x => dict_set acc x (f x)) l m' =
  fold_left (fun acc x => dict_set acc x (f x)) l m.
Proof.
  intros Hnd Hk Hsub. symmetry.
  apply (agree_all (fun x => In x l \/ False)).
  - apply agree_fold; [exact Hnd|]. apply agree_keys. now rewrite Hk.
  - intros k Hin. apply fold_set_keys in Hin. destruct Hin; auto.
Qed.

(** What [init_net] builds depends on the name, the links and the keys of
    the routing state only, when those keys are listed. *)
Lemma init_net_same (l : list string) (s s' : Router) :
  name s' = name s -> neighbors s' = neighbors s ->
  dict_keys (dis_vec s') = dict_keys (dis_vec s) ->
  dict_keys (next_hop s') = dict_keys (next_hop s) ->
  dict_keys (vec_table s') = dict_keys (vec_table s) ->
  listed l s ->
  init_net s' l = init_net s l.
Proof.
  intros Hn Hb Hd Hh Ht (_ & (N1 & N2 & N3) & S1 & S2 & S3).
  rewrite !init_net_eq. unfold init_cost, init_hop. rewrite Hn, Hb.
  f_equal. f_equal; now apply fold_set_agree.
Qed.

Lemma init_net_again (r0 : Router) (l : list string) (r1 : Router) :
  init_net r0 l = Ok r1 -> init_net r1 l = Ok r1.
Proof.
  rewrite init_net_eq. intros [= <-]. rewrite init_net_eq.
  unfold init_cost, init_hop. cbn [name neighbors dis_vec next_hop vec_table].
  f_equal. f_equal; apply fold_set_same; intros x Hx;
    now apply fold_set_get.
Qed.

Lemma listed_init (l : list string) (r0 r1 : Router) :
  listed l r0 -> init_net r0 l = Ok r1 -> listed l r1.
Proof.
  intros (Hrec & (N1 & N2 & N3) & S1 & S2 & S3) Hinit.
  split; [eapply init_net_recorded; eauto|].
  rewrite init_net_eq in Hinit. injection Hinit as <-.
  cbn [dis_vec next_hop vec_table].
  split; [repeat split; now apply fold_set_nodup|].
  repeat split; intros d Hd; apply fold_set_keys in Hd;
    destruct Hd; auto.
Qed.

Lemma listed_merge (l : list string) (r : Router) (n : string)
      (dv : dict pyval) (r' : Router) (b : bool) :
  listed l r -> update_net r n dv = Ok (r', b) -> listed l r'.
Proof.
  intros (Hrec & (N1 & N2 & N3) & S1 & S2 & S3) Hup.
  destruct (update_net_keys_kept _ _ _ _ _ Hup)
    as ((_ & _ & Hd & Ht & _) & Hh).
  specialize (Hh Hrec).
  split; [eapply update_net_recorded; eauto|].
  rewrite Hd, Hh, Ht. auto.
Qed.

(** X16.  A phase start forgets the phase before it.  On a router whose
    routing state is made of dictionaries over the listed routers,
    [init_net] over the same routers, run again after any number of merges
    (with the links unchanged), gives back exactly the router the first
    [init_net] built. *)
Theorem init_net_resets (routers : list string) (r0 r1 r : Router) :
  listed routers r0 -> init_net r0 routers = Ok r1 ->
  merges_from r1 r -> init_net r routers = Ok r1.
Proof.
  intros Hl Hinit Hm.
  assert (H : listed routers r /\ init_net r routers = Ok r1);
    [|exact (proj2 H)].
  induction Hm as [|r n dv r' b Hm [IHl IHi] Hup].
  - split; [eapply listed_init; eauto | eapply init_net_again; eauto].
  - split; [eapply listed_merge; eauto|].
    rewrite <- IHi.
    destruct (update_net_keys_kept _ _ _ _ _ Hup)
      as ((Hn & Hb & Hd & Ht & _) & Hh).
    destruct IHl as (Hrec & Hrest).
    apply init_net_same; auto. split; auto.
Qed.

(** ** Reading the input *)

Lemma read_lines_plain (l : string) (rest : list string) (sep : separator)
      (acc : reading) :
  plain l = true ->
  read_lines (l :: rest) sep acc =
  match sep with
  | SepNone =>
      read_lines rest sep
        (mkReading (dict_set (rd_routers acc) l (new_router l))
                   (rd_start acc) (rd_update acc))
  | SepStart =>
      read_lines rest sep
        (mkReading (rd_routers acc) (rd_start acc ++ [l]) (rd_update acc))
  | SepUpdate =>
      read_lines rest sep
        (mkReading (rd_routers acc) (rd_start acc) (rd_update acc ++ [l]))
  end.
Proof.
  unfold plain. rewrite !andb_true_iff, !negb_true_iff.
  intros [[[H1 H2] H3] H4]. cbn [read_lines]. now rewrite H1, H2, H3, H4.
Qed.

Lemma read_names (names rest : list string) (acc : reading) :
  forallb plain names = true ->
  read_lines (names ++ rest) SepNone acc =
  read_lines rest SepNone
    (mkReading
       (fold_left (fun rs n => dict_set rs n (new_router n)) names
                  (rd_routers acc))
       (rd_start acc) (rd_update acc)).
Proof.
  revert acc. induction names as [|x t IH]; intros acc H; simpl app.
  - destruct acc; reflexivity.
  - simpl in H. apply andb_true_iff in H. destruct H as [Hx Ht].
    rewrite (read_lines_plain _ _ _ _ Hx), (IH _ Ht). reflexivity.
Qed.

Lemma read_starts (ls rest : list string) (acc : reading) :
  forallb plain ls = true ->
  read_lines (ls ++ rest) SepStart acc =
  read_lines rest SepStart
    (mkReading (rd_routers acc) (rd_start acc ++ ls) (rd_update acc)).
Proof.
  revert acc. induction ls as [|x t IH]; intros acc H; simpl app.
  - rewrite app_nil_r. destruct acc; reflexivity.
  - simpl in H. apply andb_true_iff in H. destruct H as [Hx Ht].
    rewrite (read_lines_plain _ _ _ _ Hx), (IH _ Ht). simpl.
    now rewrite <- app_assoc.
Qed.

Lemma read_updates (ls rest : list string) (acc : reading) :
  forallb plain ls = true ->
  read_lines (ls ++ rest) SepUpdate acc =
  read_lines rest SepUpdate
    (mkReading (rd_routers acc) (rd_start acc) (rd_update acc ++ ls)).
Proof.
  revert acc. induction ls as [|x t IH]; intros acc H; simpl app.
  - rewrite app_nil_r. destruct acc; reflexivity.
  - simpl in H. apply andb_true_iff in H. destruct H as [Hx Ht].
    rewrite (read_lines_plain _ _ _ _ Hx), (IH _ Ht). simpl.
    now rewrite <- app_assoc.
Qed.

(** X17.  On an input in the documented format (router names, [START],
    link lines, [UPDATE], update lines, [END], none of these lines being
    empty or a separator), the reading loop returns one fresh router per
    name, the link lines and the update lines, each in their order; what
    follows [END] is not read. *)
Theorem read_input_format (names starts updates rest : list string) :
  forallb plain names = true -> forallb plain starts = true ->
  forallb plain updates = true ->
  read_input (names ++ "START" :: starts ++ "UPDATE" :: updates
                    ++ "END" :: rest)
  = mkReading (declare names) starts updates.
Proof.
  intros Hn Hs Hu. unfold read_input, declare.
  rewrite (read_names _ _ _ Hn). cbn [read_lines String.eqb Ascii.eqb Bool.eqb].
  rewrite (read_starts _ _ _ Hs). cbn [read_lines String.eqb Ascii.eqb Bool.eqb].
  rewrite (read_updates _ _ _ Hu). reflexivity.
Qed.

Lemma read_lines_end (pre post : list string) (sep : separator)
      (acc : reading) :
  read_lines (pre ++ "END" :: post) sep acc = read_lines pre sep acc.
Proof.
  revert sep acc. induction pre as [|x t IH]; intros sep acc.
  - destruct acc; reflexivity.
  - simpl app. cbn [read_lines].
    destruct (String.eqb x ""); [apply IH|].
    destruct (String.eqb x "START"); [apply IH|].
    destruct (String.eqb x "UPDATE"); [apply IH|].
    destruct (String.eqb x "END"); [reflexivity|].
    destruct sep; apply IH.
Qed.

Lemma read_lines_blank (lines : list string) (sep : separator)
      (acc : reading) :
  read_lines (filter (fun l => negb (String.eqb l "")) lines) sep acc
  = read_lines lines sep acc.
Proof.
  revert sep acc. induction lines as [|x t IH]; intros sep acc;
    [reflexivity|].
  simpl filter. destruct (String.eqb x "") eqn:E; simpl negb; cbv iota.
  - cbn [read_lines]. rewrite E. apply IH.
  - cbn [read_lines]. rewrite E.
    destruct (String.eqb x "START"); [apply IH|].
    destruct (String.eqb x "UPDATE"); [apply IH|].
    destruct (String.eqb x "END"); [reflexivity|].
    destruct sep; apply IH.
Qed.

(** X18.  The reading loop stops at the first [END]: the lines that follow
    an [END] change nothing, and an input without [END] is read to its last
    line as if [END] followed.  Empty lines are skipped wherever they
    stand. *)
Theorem read_input_robust (pre post lines : list string) :
  read_input (pre ++ "END" :: post) = read_input pre /\
  read_input (filter (fun l => negb (String.eqb l "")) lines)
  = read_input lines.
Proof.
  split; [apply read_lines_end | apply read_lines_blank].
Qed.

(** ** The printed tables *)

Lemma insert_sorted_in (x y : string) (l : list string) :
  In y (insert_sorted x l) <-> y = x \/ In y l.
Proof.
  induction l as [|z t IH]; simpl.
  - intuition.
  - destruct (String.ltb z x); simpl; rewrite ?IH; intuition.
Qed.

Lemma py_sorted_in (y : string) (l : list string) :
  In y (py_sorted l) <-> In y l.
Proof.
  induction l as [|x t IH]; simpl; [tauto|].
  rewrite insert_sorted_in, IH. intuition.
Qed.

Lemma insert_sorted_length (x : string) (l : list string) :
  List.length (insert_sorted x l) = S (List.length l).
Proof.
  induction l as [|z t IH]; simpl; auto.
  destruct (String.ltb z x); simpl; auto.
Qed.

Lemma py_sorted_length (l : list string) :
  List.length (py_sorted l) = List.length l.
Proof.
  induction l as [|x t IH]; simpl; auto.
  rewrite insert_sorted_length. auto.
Qed.

Lemma others_insert (r : Router) (x : string) (l : list string) :
  List.length (others r (insert_sorted x l)) = List.length (others r (x :: l)).
Proof.
  unfold others. induction l as [|z t IH]; auto.
  cbn [insert_sorted]. destruct (String.ltb z x); auto.
  cbn [filter] in *.
  destruct (negb (String.eqb z (name r))), (negb (String.eqb x (name r)));
    cbn [List.length] in *; lia.
Qed.

Lemma others_sorted (r : Router) (l : list string) :
  List.length (others r (py_sorted l)) = List.length (others r l).
Proof.
  induction l as [|x t IH]; auto.
  cbn [py_sorted fold_right]. rewrite others_insert.
  fold (py_sorted t). unfold others in *. cbn [filter].
  destruct (negb (String.eqb x (name r))); cbn [List.length]; lia.
Qed.

Lemma others_in (r : Router) (d : string) (l : list string) :
  In d (others r l) <-> In d l /\ d <> name r.
Proof.
  unfold others. rewrite filter_In, negb_true_iff, String.eqb_neq. tauto.
Qed.

Lemma str_cost_ok (c : cost) :
  printable c = true -> exists s, str_cost c = Ok s.
Proof.
  destruct c as [z|]; cbn [printable str_cost]; [|eauto].
  unfold str_int. intros ->. eauto.
Qed.

Lemma str_cost_printable (c : cost) (s : string) :
  str_cost c = Ok s -> printable c = true.
Proof.
  destruct c as [z|]; cbn [printable str_cost]; [|reflexivity].
  unfold str_int. destruct (Nat.leb (int_digits z) int_max_str_digits);
    [reflexivity | discriminate].
Qed.

Lemma str_cost_cases (c : cost) :
  (exists s, str_cost c = Ok s) \/ str_cost c = Raise ValueError.
Proof.
  destruct c as [z|]; cbn [str_cost]; [|eauto].
  unfold str_int. destruct (Nat.leb (int_digits z) int_max_str_digits); eauto.
Qed.

Lemma table_printable_cell (r : Router) (d via : string) (tab : dict cost)
      (c : cost) :
  table_printable r = true ->
  dict_get (vec_table r) d = Some tab -> dict_get tab via = Some c ->
  printable c = true.
Proof.
  unfold table_printable. rewrite forallb_forall. intros H Htab Hc.
  specialize (H _ (dict_get_in _ _ _ Htab)). cbn [snd] in H.
  rewrite forallb_forall in H. exact (H _ (dict_get_in _ _ _ Hc)).
Qed.

(** One row is printed when the destination has a row in [vec_table] and
    the cells read convert; a missing cell is printed as [INF]. *)
Lemma row_loop_total (r : Router) (dest : string) (tab : dict cost)
      (l row : list string) :
  dict_get (vec_table r) dest = Some tab ->
  (forall via c, In via l -> via <> name r -> dict_get tab via = Some c ->
                 printable c = true) ->
  exists row', row_loop r dest l row = Ok row'.
Proof.
  intros H. revert row. induction l as [|i t IH]; intros row Hp;
    cbn [row_loop].
  - eauto.
  - assert (Hp' : forall via c, In via t -> via <> name r ->
                                dict_get tab via = Some c ->
                                printable c = true)
      by (intros via c Hin; apply Hp; right; exact Hin).
    destruct (String.eqb i (name r)) eqn:E; [apply IH; exact Hp'|].
    apply String.eqb_neq in E.
    unfold getitem. rewrite H. cbn [bind].
    destruct (str_cost_ok (match dict_get tab i with
                           | Some c => c
                           | None => Inf
                           end)) as [s Hs].
    { destruct (dict_get tab i) as [c|] eqn:Hc; [|reflexivity].
      apply (Hp i c); auto. left; reflexivity. }
    rewrite Hs. cbn [bind]. apply IH. exact Hp'.
Qed.

Lemma row_loop_cases (r : Router) (dest : string) (tab : dict cost)
      (l row : list string) :
  dict_get (vec_table r) dest = Some tab ->
  (exists row', row_loop r dest l row = Ok row') \/
  row_loop r dest l row = Raise ValueError.
Proof.
  intros H. revert row. induction l as [|i t IH]; intros row;
    cbn [row_loop].
  - eauto.
  - destruct (String.eqb i (name r)); [apply IH|].
    unfold getitem. rewrite H. cbn [bind].
    destruct (str_cost_cases (match dict_get tab i with
                              | Some c => c
                              | None => Inf
                              end)) as [[s Hs] | Hs];
      rewrite Hs; cbn [bind]; [apply IH | auto].
Qed.

Lemma row_loop_raises (r : Router) (dest : string) (l row : list string) :
  dict_get (vec_table r) dest = None ->
  (exists i, In i l /\ i <> name r) ->
  row_loop r dest l row = Raise (KeyError dest).
Proof.
  intros H. revert row. induction l as [|i t IH]; intros row (j & Hj & Hn).
  - destruct Hj.
  - cbn [row_loop]. destruct (String.eqb i (name r)) eqn:E.
    + apply IH. exists j. split; auto. destruct Hj as [-> | Hj]; auto.
      apply String.eqb_eq in E. contradiction.
    + unfold getitem. rewrite H. reflexivity.
Qed.

Lemma row_loop_cells (r : Router) (dest : string) (tab : dict cost)
      (l row row' : list string) :
  dict_get (vec_table r) dest = Some tab ->
  row_loop r dest l row = Ok row' ->
  forall via c, In via l -> via <> name r -> dict_get tab via = Some c ->
                printable c = true.
Proof.
  intros H. revert row. induction l as [|i t IH]; intros row Hrun via c Hin Hn Hc.
  - destruct Hin.
  - cbn [row_loop] in Hrun. destruct (String.eqb i (name r)) eqn:E.
    + apply String.eqb_eq in E. destruct Hin as [-> | Hin]; [contradiction|].
      eapply IH; eauto.
    + unfold getitem in Hrun. rewrite H in Hrun. cbn [bind] in Hrun.
      destruct (str_cost (match dict_get tab i with
                          | Some c => c
                          | None => Inf
                          end)) as [s|e] eqn:Hs; [|discriminate].
      cbn [bind] in Hrun. destruct Hin as [-> | Hin]; [|eapply IH; eauto].
      rewrite Hc in Hs. eapply str_cost_printable; eauto.
Qed.

Lemma table_loop_total (r : Router) (dests srouters acc : list string) :
  (forall d, In d dests -> d <> name r -> prints_row r srouters d) ->
  exists lines, table_loop r dests srouters acc = Ok lines /\
                List.length lines
                = (List.length acc + List.length (others r dests))%nat.
Proof.
  revert acc. induction dests as [|d t IH]; intros acc H.
  - exists acc. simpl. split; auto.
  - cbn [table_loop]. unfold others in *. cbn [filter].
    destruct (String.eqb d (name r)) eqn:E; cbn [negb].
    + apply IH. intros d' Hd'. apply H. right; auto.
    + apply String.eqb_neq in E.
      destruct (H d (or_introl eq_refl) E) as (tab & Htab & Hp).
      destruct (row_loop_total r d tab srouters [d] Htab Hp) as [row Hrow].
      rewrite Hrow. cbn [bind].
      destruct (IH (acc ++ [String.concat " " row])) as (lines & Hl & Hlen).
      { intros d' Hd'. apply H. right; auto. }
      exists lines. split; auto. rewrite Hlen, length_app.
      cbn [List.length]. lia.
Qed.

Lemma table_loop_cases (r : Router) (dests srouters acc : list string) :
  (forall d, In d dests -> d <> name r ->
             exists tab, dict_get (vec_table r) d = Some tab) ->
  (exists lines, table_loop r dests srouters acc = Ok lines) \/
  table_loop r dests srouters acc = Raise ValueError.
Proof.
  revert acc. induction dests as [|d t IH]; intros acc H.
  - left. exists acc. reflexivity.
  - cbn [table_loop].
    assert (H' : forall d', In d' t -> d' <> name r ->
                            exists tab, dict_get (vec_table r) d' = Some tab)
      by (intros d' Hd'; apply H; right; auto).
    destruct (String.eqb d (name r)) eqn:E; [apply IH; exact H'|].
    apply String.eqb_neq in E.
    destruct (H d (or_introl eq_refl) E) as [tab Htab].
    destruct (row_loop_cases r d tab srouters [d] Htab) as [[row Hrow] | Hrow];
      rewrite Hrow; cbn [bind]; [apply IH; exact H' | auto].
Qed.

Lemma table_loop_rows (r : Router) (dests srouters acc lines : list string) :
  (forall d, In d dests -> In d srouters) ->
  table_loop r dests srouters acc = Ok lines ->
  forall d, In d dests -> d <> name r -> prints_row r srouters d.
Proof.
  revert acc. induction dests as [|x t IH]; intros acc Hsub Hrun d Hd Hn.
  - destruct Hd.
  - cbn [table_loop] in Hrun.
    assert (Hsub' : forall d, In d t -> In d srouters)
      by (intros d' Hd'; apply Hsub; right; auto).
    destruct (String.eqb x (name r)) eqn:E.
    + apply String.eqb_eq in E. destruct Hd as [-> | Hd]; [contradiction|].
      eapply IH; eauto.
    + apply String.eqb_neq in E.
      destruct (dict_get (vec_table r) x) as [tab|] eqn:Hx.
      * destruct (row_loop r x srouters [x]) as [row|e] eqn:Hrow;
          [|discriminate].
        cbn [bind] in Hrun. destruct Hd as [<- | Hd]; [|eapply IH; eauto].
        exists tab. split; [exact Hx|].
        intros via c. eapply row_loop_cells; eauto.
      * rewrite (row_loop_raises r x srouters [x] Hx) in Hrun; [discriminate|].
        exists x. split; auto. apply Hsub. left; auto.
Qed.

Lemma prints_row_sorted (r : Router) (routers : list string) (d : string) :
  prints_row r (py_sorted routers) d <-> prints_row r routers d.
Proof.
  unfold prints_row. split; intros (tab & Htab & Hp); exists tab;
    (split; [exact Htab|]); intros via c Hin; apply Hp;
    apply py_sorted_in; exact Hin.
Qed.

Lemma output_distance_table_rows (self : Router) (routers : list string) :
  (forall d, In d routers -> d <> name self -> prints_row self routers d) ->
  exists lines, output_distance_table self routers = Ok lines /\
                List.length lines = S (List.length (others self routers)).
Proof.
  intros H. unfold output_distance_table.
  destruct (table_loop_total self (py_sorted routers) (py_sorted routers)
              [header_loop self (py_sorted routers) ""]) as (lines & Hl & Hlen).
  - intros d Hd Hn. apply prints_row_sorted. apply H; auto.
    apply py_sorted_in. exact Hd.
  - exists lines. split; auto. rewrite Hlen, others_sorted. reflexivity.
Qed.

(** X19. [output_distance_table] returns exactly when every listed router
    other than the router itself has a row in [vec_table] whose cells under
    the listed routers other than the router itself can be converted to
    [str] (at most 4300 digits); a missing cell is read as [INF] and never
    raises.  The result then has the header and one line for each listed
    router other than the router itself. *)
Theorem output_distance_table_returns_iff (self : Router)
        (routers : list string) :
  ((exists lines, output_distance_table self routers = Ok lines) <->
   (forall d, In d routers -> d <> name self ->
              prints_row self routers d)) /\
  (forall lines, output_distance_table self routers = Ok lines ->
                 List.length lines = S (List.length (others self routers))).
Proof.
  assert (Hfwd : forall lines, output_distance_table self routers = Ok lines ->
                 forall d, In d routers -> d <> name self ->
                           prints_row self routers d).
  { intros lines Hrun d Hd Hn. apply prints_row_sorted.
    unfold output_distance_table in Hrun.
    eapply table_loop_rows; eauto. apply py_sorted_in. exact Hd. }
  split; [split|].
  - intros [lines Hrun]. eauto.
  - intros H. destruct (output_distance_table_rows self routers H)
      as (lines & Hl & _). eauto.
  - intros lines Hrun.
    destruct (output_distance_table_rows self routers (Hfwd lines Hrun))
      as (l' & Hl & Hlen).
    rewrite Hrun in Hl. injection Hl as <-. exact Hlen.
Qed.

(** X20. At every state of a phase over [routers] the rows the distance
    table reads exist: [output_distance_table] never raises [KeyError], and
    the only exception it can raise is the [ValueError] of a cost of more
    than 4300 digits.  When the costs of [vec_table] can be converted it
    returns the header and one line for each router of [routers] other than
    the router itself. *)
Theorem output_distance_table_phase (routers : list string) (r : Router) :
  phase_state routers r ->
  (forall e, output_distance_table r routers = Raise e -> e = ValueError) /\
  (table_printable r = true ->
   exists lines, output_distance_table r routers = Ok lines /\
                 List.length lines = S (List.length (others r routers))).
Proof.
  intros Hst.
  destruct (phase_state_inv routers r Hst) as [_ Hrows].
  assert (Hrow : forall d, In d routers -> d <> name r ->
                           exists tab, dict_get (vec_table r) d = Some tab).
  { intros d Hd Hn. destruct (Hrows d Hd Hn) as (c & row & _ & Hrow & _).
    eauto. }
  split.
  - intros e He. unfold output_distance_table in He.
    destruct (table_loop_cases r (py_sorted routers) (py_sorted routers)
                [header_loop r (py_sorted routers) ""]) as [[lines Hl] | Hl].
    + intros d Hd. apply Hrow. apply py_sorted_in. exact Hd.
    + rewrite Hl in He. discriminate.
    + rewrite Hl in He. injection He as <-. reflexivity.
  - intros Hp. apply output_distance_table_rows.
    intros d Hd Hn. destruct (Hrow d Hd Hn) as [tab Htab].
    exists tab. split; [exact Htab|].
    intros via c _ _ Hc. eapply table_printable_cell; eauto.
Qed.

Lemma vector_printable_cost (r : Router) (d : string) (c : cost) :
  vector_printable r = true -> dict_get (dis_vec r) d = Some c ->
  printable c = true.
Proof.
  unfold vector_printable. rewrite forallb_forall. intros H Hc.
  exact (H _ (dict_get_in _ _ _ Hc)).
Qed.

Section RoutingTableProofs.
Variable py_repr : string -> string.

Lemma routing_loop_total (r : Router) (dests acc : list string) :
  (forall d, In d dests -> In d (dict_keys (dis_vec r))) ->
  (forall d z, In d dests -> dict_get (dis_vec r) d = Some (Fin z) ->
               In d (dict_keys (next_hop r)) /\ printable (Fin z) = true) ->
  exists lines, routing_loop py_repr r dests acc = Ok lines /\
    List.length lines = (List.length acc + List.length dests)%nat /\
    (forall l, In l acc -> In l lines) /\
    (forall d, In d dests -> dict_get (dis_vec r) d = Some Inf ->
               In (d ++ ", INF, INF")%string lines).
Proof.
  revert acc. induction dests as [|x t IH]; intros acc Hk Hh.
  - exists acc. simpl. repeat split; auto. intros d [].
  - cbn [routing_loop].
    destruct (proj1 (dict_get_in_keys _ _) (Hk x (or_introl eq_refl)))
      as [c Hc].
    unfold getitem at 1. rewrite Hc. cbn [bind].
    assert (Hk' : forall d, In d t -> In d (dict_keys (dis_vec r)))
      by (intros d Hd; apply Hk; right; auto).
    assert (Hh' : forall d z, In d t -> dict_get (dis_vec r) d = Some (Fin z) ->
                              In d (dict_keys (next_hop r)) /\
                              printable (Fin z) = true)
      by (intros d z Hd; apply (Hh d z); right; auto).
    destruct c as [z|].
    + destruct (Hh x z (or_introl eq_refl) Hc) as [Hkey Hpr].
      destruct (proj1 (dict_get_in_keys _ _) Hkey) as [h Hhop].
      unfold getitem. rewrite Hhop. cbn [bind].
      destruct (str_cost_ok (Fin z) Hpr) as [s Hs]. cbn [str_cost] in Hs.
      rewrite Hs. cbn [bind].
      destruct (IH (acc ++ [x ++ ", (" ++ repr_hop py_repr h ++ ", " ++
                              s ++ ")"]%string) Hk' Hh')
        as (lines & Hl & Hlen & Hacc & Hinf).
      exists lines. split; [exact Hl|]. split; [|split].
      * rewrite Hlen, length_app. cbn [List.length]. lia.
      * intros l Hin. apply Hacc. apply in_or_app. left; auto.
      * intros d [<- | Hd] Hd'; [congruence | auto].
    + destruct (IH (acc ++ [x ++ ", INF, INF"]%string) Hk' Hh')
        as (lines & Hl & Hlen & Hacc & Hinf).
      exists lines. split; [exact Hl|]. split; [|split].
      * rewrite Hlen, length_app. cbn [List.length]. lia.
      * intros l Hin. apply Hacc. apply in_or_app. left; auto.
      * intros d [<- | Hd] Hd'; [|auto].
        apply Hacc. apply in_or_app. right. left. reflexivity.
Qed.

Lemma routing_loop_hops (r : Router) (dests acc lines : list string) :
  routing_loop py_repr r dests acc = Ok lines ->
  forall d z, In d dests -> dict_get (dis_vec r) d = Some (Fin z) ->
              In d (dict_keys (next_hop r)) /\ printable (Fin z) = true.
Proof.
  revert acc. induction dests as [|x t IH]; intros acc Hrun d z Hd Hc.
  - destruct Hd.
  - cbn [routing_loop] in Hrun. unfold getitem at 1 in Hrun.
    destruct (dict_get (dis_vec r) x) as [c|] eqn:Hx; [|discriminate].
    cbn [bind] in Hrun. destruct c as [z'|].
    + unfold getitem in Hrun.
      destruct (dict_get (next_hop r) x) as [h|] eqn:Hhop; [|discriminate].
      cbn [bind] in Hrun.
      destruct (str_int z') as [s|e] eqn:Hs; [|discriminate].
      cbn [bind] in Hrun. destruct Hd as [<- | Hd]; [|eapply IH; eauto].
      assert (z = z') by congruence. subst z'. split.
      * apply dict_get_in_keys. eauto.
      * apply (str_cost_printable (Fin z) s). exact Hs.
    + destruct Hd as [<- | Hd]; [congruence|]. eapply IH; eauto.
Qed.

Lemma output_routing_table_total (self : Router) :
  (forall d z, dict_get (dis_vec self) d = Some (Fin z) ->
               In d (dict_keys (next_hop self)) /\ printable (Fin z) = true) ->
  exists lines,
    output_routing_table py_repr self = Ok lines /\
    List.length lines = List.length (dict_keys (dis_vec self)) /\
    (forall d, dict_get (dis_vec self) d = Some Inf ->
               In (d ++ ", INF, INF")%string lines).
Proof.
  intros H. unfold output_routing_table.
  destruct (routing_loop_total self (py_sorted (dict_keys (dis_vec self))) [])
    as (lines & Hl & Hlen & _ & Hinf).
  - intros d Hd. apply py_sorted_in. exact Hd.
  - intros d z _. apply H.
  - exists lines. split; [exact Hl|]. split.
    + rewrite Hlen, py_sorted_length. reflexivity.
    + intros d Hd. apply Hinf; auto. apply py_sorted_in.
      apply dict_get_in_keys. eauto.
Qed.

(** X21. [output_routing_table] returns exactly when every destination of
    finite cost has a next hop recorded and a cost that can be converted to
    [str] (at most 4300 digits); neither the next hop nor the cost of a
    destination of cost [INF] is converted. *)
Theorem output_routing_table_returns_iff (self : Router) :
  (exists lines, output_routing_table py_repr self = Ok lines) <->
  (forall d z, dict_get (dis_vec self) d = Some (Fin z) ->
               In d (dict_keys (next_hop self)) /\ printable (Fin z) = true).
Proof.
  split.
  - intros [lines Hrun] d z Hc. unfold output_routing_table in Hrun.
    eapply routing_loop_hops; eauto.
    apply py_sorted_in. apply dict_get_in_keys. eauto.
  - intros H. destruct (output_routing_table_total self H) as (l & Hl & _).
    eauto.
Qed.

(** X22. When every destination has a next hop recorded, as after
    [init_net] and the merges of a phase, and the costs of [dis_vec] can be
    converted to [str], [output_routing_table] returns one line for each
    destination of [dis_vec], and the line of a destination of cost [INF]
    is [dest, INF, INF]. *)
Theorem output_routing_table_lists (self : Router) :
  hops_recorded self -> vector_printable self = true ->
  exists lines,
    output_routing_table py_repr self = Ok lines /\
    List.length lines = List.length (dict_keys (dis_vec self)) /\
    (forall d, dict_get (dis_vec self) d = Some Inf ->
               In (d ++ ", INF, INF")%string lines).
Proof.
  intros H Hp. apply output_routing_table_total.
  intros d z Hc. split.
  - apply H. apply dict_get_in_keys. eauto.
  - eapply vector_printable_cost; eauto.
Qed.

End RoutingTableProofs.

(** ** The routing tables after the loop *)


(** ** The least cost of a row *)

(** X23.  In every state of a phase over [routers] (after [init_net] and
    after every merge that returns), for every listed destination other
    than the router itself, [dis_vec[d]] is the least cost of the row
    [vec_table[d]] (infinite for an empty row). *)
Theorem phase_row_minimum (routers : list string) (r : Router) (d : string) :
  phase_state routers r -> In d routers -> d <> name r ->
  exists c row,
    dict_get (dis_vec r) d = Some c /\
    dict_get (vec_table r) d = Some row /\
    c = row_min row.
Proof.
  intros Hst Hd Hne.
  destruct (phase_state_inv _ _ Hst) as [_ Hrows].
  destruct (Hrows d Hd Hne) as (c & row & Hc & Hrow & Hm & _). eauto.
Qed.

(** ** Further instances *)

Lemma update_net_flag_witness :
  (true = false <-> tie_mid = tie_init) /\
  (true = true -> strictly_lower tie_init tie_mid).
Proof.
  apply (update_net_flag tie_init "C" tie_from_c tie_mid true). reflexivity.
Defined.

Lemma update_net_idempotent_witness :
  update_net tie_mid "C" tie_from_c = Ok (tie_mid, false).
Proof.
  apply (update_net_idempotent tie_init "C" tie_from_c tie_mid true).
  reflexivity.
Defined.

Lemma update_net_total_witness :
  exists r' b, update_net tie_init "C" tie_from_c = Ok (r', b).
Proof.
  apply (update_net_total tie_names tie_init "C" 1 tie_from_c).
  - apply tie_init_state.
  - intros d H. exact H.
  - reflexivity.
  - reflexivity.
  - intros d [<- | [<- | [<- | [<- | []]]]] Hne; eexists; reflexivity.
Defined.

Lemma update_net_keeps_keys_witness :
  same_keys tie_init tie_mid /\
  (hops_recorded tie_init ->
   dict_keys (next_hop tie_mid) = dict_keys (next_hop tie_init)).
Proof.
  apply (update_net_keeps_keys tie_init "C" tie_from_c tie_mid true).
  reflexivity.
Defined.

Lemma export_all_spec_witness :
  exists dis_vec_update,
    export_all [("A", two_routers_a); ("B", two_routers_b)] ["A"; "B"] []
    = Ok dis_vec_update /\
    forall i r,
      dict_get [("A", two_routers_a); ("B", two_routers_b)] i = Some r ->
      exists row, dict_get dis_vec_update i = Some row /\
        (forall n, In n (dict_keys (neighbors r)) ->
           exists e, dict_get row n = Some e /\
                     poisoned_reverse r (Some n) = Ok e) /\
        (forall n, ~ In n (dict_keys (neighbors r)) ->
           dict_get row n = None).
Proof.
  apply (export_all_spec [("A", two_routers_a); ("B", two_routers_b)]).
  intros i r. cbn [dict_get].
  destruct (String.eqb "A" i); [|destruct (String.eqb "B" i)];
    intros Hr; [injection Hr as <- | injection Hr as <- | discriminate];
    intros d H; exact H.
Defined.

Lemma two_routers_links_distinct : links_distinct two_routers.
Proof.
  intros k r. unfold two_routers. cbn [dict_get].
  destruct (String.eqb "A" k); [|destruct (String.eqb "B" k)];
    intros Hr; [injection Hr as <- | injection Hr as <- | discriminate];
    repeat constructor; simpl; tauto.
Qed.

Lemma update_link_remove_witness :
  ((exists rs', update_link two_routers ("A", "B", -1) = Ok rs') <->
   "A" <> "B" /\ link_cost two_routers "A" "B" <> None /\
   link_cost two_routers "B" "A" <> None) /\
  (forall rs', update_link two_routers ("A", "B", -1) = Ok rs' ->
     dict_keys rs' = dict_keys two_routers /\
     forall u v,
       link_cost rs' u v =
       if same_link "A" "B" u v then None else link_cost two_routers u v) /\
  (forall a, dict_get two_routers "A" = Some a ->
     dict_get (neighbors a) "B" = None ->
     update_link two_routers ("A", "B", -1) = Raise (KeyError "B")).
Proof.
  apply (update_link_remove two_routers "A" "B").
  apply two_routers_links_distinct.
Defined.

Lemma network_links_witness :
  (well_formed two_routers /\ symmetric two_routers) /\
  (well_formed no_links /\ symmetric no_links).
Proof.
  apply (network_links ["A"; "B"] [("A", "B", 1)] [("A", "B", -1)]
                       two_routers no_links); reflexivity.
Defined.

Lemma network_valid_witness :
  valid_network two_routers = true /\ valid_network no_links = true.
Proof.
  apply (network_valid ["A"; "B"] [("A", "B", 1)] [("A", "B", -1)]
                       two_routers no_links).
  - reflexivity.
  - reflexivity.
  - intros s d c [[= <- <- <-] | []]. lia.
  - intros s d c [[= <- <- <-] | []]. auto.
Defined.

Lemma add_then_remove_witness :
  exists rs1, add_link no_links ("A", "B", 1) = Ok rs1 /\
              update_link rs1 ("A", "B", -1) = Ok no_links.
Proof.
  apply (add_then_remove no_links "A" "B" 1).
  - discriminate.
  - eexists. reflexivity.
  - eexists. reflexivity.
  - reflexivity.
  - reflexivity.
Defined.

Lemma update_net_step_witness :
  exists c x old cur row',
    dict_get (neighbors tie_init) "C" = Some c /\
    dict_get tie_from_c "D" = Some (PCost x) /\
    table_entry tie_init "D" "C" = Some old /\
    dict_get (dis_vec tie_init) "D" = Some cur /\
    table_entry tie_mid "D" "C" = Some (cost_min old (cost_plus c x)) /\
    (forall m, m <> "C" -> table_entry tie_mid "D" m = table_entry tie_init "D" m) /\
    dict_get (vec_table tie_mid) "D" = Some row' /\
    dict_get (dis_vec tie_mid) "D" = Some (cost_min cur (row_min row')).
Proof.
  apply (update_net_step tie_init "C" tie_from_c tie_mid true).
  - repeat constructor; simpl; intuition discriminate.
  - reflexivity.
  - simpl. tauto.
  - discriminate.
Defined.

Lemma tie_peer_state : phase_state tie_names tie_peer_init.
Proof. apply phase_init with tie_peer; [constructor | reflexivity]. Qed.

Lemma poisoned_entry_not_learned_witness :
  dict_get (dis_vec tie_peer_after) "D" = dict_get (dis_vec tie_peer_init) "D" /\
  dict_get (next_hop tie_peer_after) "D" = dict_get (next_hop tie_peer_init) "D" /\
  dict_get (vec_table tie_peer_after) "D"
  = dict_get (vec_table tie_peer_init) "D".
Proof.
  apply (poisoned_entry_not_learned tie_names tie_after tie_peer_init "C" "D"
           tie_export_c tie_peer_after true).
  - intros d H. exact H.
  - reflexivity.
  - simpl. tauto.
  - reflexivity.
  - discriminate.
  - apply tie_peer_state.
  - simpl. tauto.
  - reflexivity.
Defined.

Lemma init_net_resets_witness : init_net tie_after tie_names = Ok tie_init.
Proof.
  apply (init_net_resets tie_names tie_router tie_init tie_after).
  - split; [intros d []|]. split; [repeat split; apply NoDup_nil|].
    repeat split; intros d [].
  - reflexivity.
  - apply merges_step with tie_mid "B" tie_from_b true; [|reflexivity].
    apply merges_step with tie_init "C" tie_from_c true; [|reflexivity].
    apply merges_none.
Defined.

Lemma read_input_format_witness :
  read_input (["A"; "B"] ++ "START" :: ["A B 1"] ++ "UPDATE" :: ["A B -1"]
                         ++ "END" :: ["A C 3"])
  = mkReading (declare ["A"; "B"]) ["A B 1"] ["A B -1"].
Proof.
  apply (read_input_format ["A"; "B"] ["A B 1"] ["A B -1"] ["A C 3"]);
    reflexivity.
Defined.

Lemma output_distance_table_phase_witness :
  (forall e, output_distance_table tie_after tie_names = Raise e ->
             e = ValueError) /\
  exists lines,
    output_distance_table tie_after tie_names = Ok lines /\
    List.length lines = S (List.length (others tie_after tie_names)).
Proof.
  destruct (output_distance_table_phase tie_names tie_after tie_after_state)
    as [Hraise Hprint].
  split; [exact Hraise | apply Hprint; reflexivity].
Defined.

Lemma output_routing_table_lists_witness :
  exists lines,
    output_routing_table quoted tie_init = Ok lines /\
    List.length lines = List.length (dict_keys (dis_vec tie_init)) /\
    (forall d, dict_get (dis_vec tie_init) d = Some Inf ->
               In (d ++ ", INF, INF")%string lines).
Proof.
  apply (output_routing_table_lists quoted tie_init).
  - intros d H. exact H.
  - reflexivity.
Defined.

Lemma phase_row_minimum_witness :
  exists c row,
    dict_get (dis_vec tie_after) "D" = Some c /\
    dict_get (vec_table tie_after) "D" = Some row /\
    c = row_min row.
Proof.
  apply (phase_row_minimum tie_names tie_after "D").
  - apply tie_after_state.
  - simpl. tauto.
  - discriminate.
Defined.

